(** * Teacher duty roster: the schedule generator and the state handlers

    A shallow embedding of [src/App.tsx]: the calendar helpers
    ([getDatesInMonth], [formatDate]), the schedule effect of the [App]
    component with its inner [generateSchedule], and the handlers that
    mutate the roster, the override map ([manualChanges]) and the colour map.

    [src/App.tsx] holds two versions of the component, one after the
    other; the embedding follows the first one (local-time dates).  The
    loop of the generator and the handlers are the same in both.

    Modelling choices.
    - The program builds its [Date] objects from a year, a month and a
      day.  Such a date denotes the first local time of a calendar day: the
      local midnight, or, on a day whose midnight the host's time zone
      skips (daylight saving time starting at 00:00), the end of the gap.
      It is modelled by its local calendar fields ([getFullYear],
      [getMonth] (0-based), [getDate]); two such dates compare by time
      value as their fields do, in lexicographic order.
    - [setDate] keeps the time of day.  The pointer that the loop of the
      generator steps with [setDate] is therefore a [Moment]: a calendar
      day and a time within that day.  Once it has crossed a skipped
      midnight it stays at the end of the gap (01:00), and the loop test,
      which compares time values, fails on the last day of the visible
      month.  The host's time zone enters as the parameter [Zone], the
      length of the gap at the midnight of each day; [everyMidnight] is a
      zone that skips no midnight.  The dates of [getDatesInMonth] are
      stepped in the same way, but the program reads their fields only,
      except in [date < globalStartDate]: there a date of the same day as
      the start date is never the earlier one, whatever its time of day,
      so that the comparison is the comparison of the fields.
    - The model covers the range in which ECMAScript time values are valid
      and numbers are exact, and zones whose gaps at midnight are shorter
      than a day.
    - [new Date(y, m, d)] follows ECMAScript: a year in 0..99 means
      1900 + y, the month overflows into the year, and the day is an offset
      from the first of the month ([new Date(y, m + 1, 0)] is the last day
      of month m).
    - [scheduleStartDate.split('-').map(Number)] is not modelled: the three
      numbers it yields are the inputs [startYear], [startMonth],
      [startDay] of the generator.
    - A JavaScript object used as a dictionary is a [gmap string _]; the
      [Map] objects of the generator as well.
    - Reading [.id] of [undefined] throws; a [while] loop is run with fuel.
      Both are visible in the result type [Outcome]. *)

From stdpp Require Import gmap strings list fin_maps pretty.
From Stdlib Require Import ZArith Lia Ascii.

Local Open Scope Z_scope.

(* ===================================================================== *)
(** ** Results of effectful code *)
(* ===================================================================== *)

Inductive Outcome (A : Type) : Type :=
  | Returned (a : A)
  | TypeError
  | OutOfFuel.

Arguments Returned {A} a.
Arguments TypeError {A}.
Arguments OutOfFuel {A}.

Definition Outcome_bind {A B : Type} (f : A -> Outcome B) (m : Outcome A) : Outcome B :=
  match m with
  | Returned a => f a
  | TypeError => TypeError
  | OutOfFuel => OutOfFuel
  end.

Notation "'let!' x ':=' m 'in' k" := (Outcome_bind (fun x => k) m)
  (at level 10, x name, m at level 100, k at level 200).

(* ===================================================================== *)
(** ** Calendar dates *)
(* ===================================================================== *)

Module Calendar.

Record Date : Type := mkDate { getFullYear : Z; getMonth : Z; getDate : Z }.

#[global] Instance Date_eq_dec : EqDecision Date.
Proof. solve_decision. Defined.

Definition isLeapYear (y : Z) : bool :=
  (y mod 4 =? 0) && (negb (y mod 100 =? 0) || (y mod 400 =? 0)).

(** Number of days of month [m] (0-based) of year [y]. *)
Definition daysInMonth (y m : Z) : Z :=
  if m =? 1 then (if isLeapYear y then 29 else 28)
  else if (m =? 3) || (m =? 5) || (m =? 8) || (m =? 10) then 30
  else 31.

(** [date.setDate(date.getDate() + 1)] *)
Definition nextDay (d : Date) : Date :=
  if getDate d <? daysInMonth (getFullYear d) (getMonth d)
  then mkDate (getFullYear d) (getMonth d) (getDate d + 1)
  else if getMonth d <? 11
  then mkDate (getFullYear d) (getMonth d + 1) 1
  else mkDate (getFullYear d + 1) 0 1.

(** [date.setDate(date.getDate() - 1)] *)
Definition prevDay (d : Date) : Date :=
  if 1 <? getDate d
  then mkDate (getFullYear d) (getMonth d) (getDate d - 1)
  else if 0 <? getMonth d
  then mkDate (getFullYear d) (getMonth d - 1)
              (daysInMonth (getFullYear d) (getMonth d - 1))
  else mkDate (getFullYear d - 1) 11 31.

Definition addDays (k : Z) (d : Date) : Date :=
  if 0 <=? k then Nat.iter (Z.to_nat k) nextDay d
  else Nat.iter (Z.to_nat (- k)) prevDay d.

(** The year a [Date] constructor call means by its first argument. *)
Definition fullYear (y : Z) : Z :=
  if (0 <=? y) && (y <=? 99) then 1900 + y else y.

(** [new Date(y, m, d)] *)
Definition newDate (y m d : Z) : Date :=
  addDays (d - 1) (mkDate (fullYear y + m / 12) (m mod 12) 1).

Definition Date_compare (a b : Date) : comparison :=
  match getFullYear a ?= getFullYear b with
  | Eq => match getMonth a ?= getMonth b with
          | Eq => getDate a ?= getDate b
          | c => c
          end
  | c => c
  end.

(** [a < b], [a <= b] and [a > b] on dates *)
Definition Date_ltb (a b : Date) : bool :=
  match Date_compare a b with Lt => true | _ => false end.
Definition Date_leb (a b : Date) : bool :=
  match Date_compare a b with Gt => false | _ => true end.
Definition Date_gtb (a b : Date) : bool := Date_ltb b a.

(** The host's time zone, as far as the program meets it: [zone d] is the
    number of milliseconds of local time that do not exist from 00:00 of
    the day [d] on.  It is 3600000 on the day daylight saving time starts
    in a zone that moves its clocks from 00:00 to 01:00 (Africa/Cairo,
    Asia/Beirut, America/Havana), and 0 on a day whose midnight exists. *)
Definition Zone : Type := Date -> Z.

(** A zone in which every local midnight exists. *)
Definition everyMidnight : Zone := fun _ => 0.

(** The value of a [Date] object after [setDate]: its calendar day and its
    local time within that day, in milliseconds. *)
Record Moment : Type := mkMoment { dayOf : Date; timeWithinDay : Z }.

(** The local time that a request for the time [t] of the day [d] gives
    ([LocalTime(UTC(t))]): a time that the zone skips is read with the
    offset before the gap, which moves it forward by the length of the
    gap. *)
Definition settle (zone : Zone) (d : Date) (t : Z) : Z :=
  if t <? zone d then t + zone d else t.

(** The time value of a date built from a year, a month and a day; also
    [new Date(date)] for such a date. *)
Definition momentOf (zone : Zone) (d : Date) : Moment :=
  mkMoment d (settle zone d 0).

(** [p.setDate(p.getDate() + 1)] on a time value: the next day at the same
    time of day. *)
Definition setNextDate (zone : Zone) (p : Moment) : Moment :=
  let d := nextDay (dayOf p) in mkMoment d (settle zone d (timeWithinDay p)).

(** [a <= b] on time values of the same zone *)
Definition Moment_leb (a b : Moment) : bool :=
  match Date_compare (dayOf a) (dayOf b) with
  | Lt => true
  | Eq => timeWithinDay a <=? timeWithinDay b
  | Gt => false
  end.

(** [s.padStart(n, c)] for a one-character filler *)
Definition padStart (n : nat) (c : Ascii.ascii) (s : string) : string :=
  Nat.iter (n - String.length s) (String c) s.

(** [formatDate]: the key ['YYYY-MM-DD'] of a date *)
Definition formatDate (date : Date) : string :=
  let year := pretty (getFullYear date) in
  let month := padStart 2 "0"%char (pretty (getMonth date + 1)) in
  let day := padStart 2 "0"%char (pretty (getDate date)) in
  year +:+ "-" +:+ month +:+ "-" +:+ day.

(** The loop of [getDatesInMonth]. *)
Fixpoint getDatesLoop (fuel : nat) (date : Date) (month : Z) : Outcome (list Date) :=
  match fuel with
  | O => OutOfFuel
  | S fuel' =>
      if getMonth date =? month
      then let! dates := getDatesLoop fuel' (nextDay date) month in Returned (date :: dates)
      else Returned []
  end.

(** [getDatesInMonth(year, month)]; no month has more than 31 days. *)
Definition getDatesInMonth (year month : Z) : Outcome (list Date) :=
  getDatesLoop 32 (newDate year month 1) month.

(** A date whose fields are those of a calendar day. *)
Definition validDate (d : Date) : Prop :=
  0 <= getMonth d <= 11 /\ 1 <= getDate d <= daysInMonth (getFullYear d) (getMonth d).

(** A number that grows with the date; consecutive days differ by at least
    one.  It bounds the number of days between two dates. *)
Definition ordinal (d : Date) : Z :=
  (getFullYear d * 12 + getMonth d) * 31 + getDate d.

(** The two-character field of a month or a day number. *)
Definition field2 (n : Z) : string := padStart 2 "0"%char (pretty n).

Definition smallNumbers : list Z := List.map Z.of_nat (seq 1 31).

(** The days of month [m] of year [y], from the first on. *)
Definition monthDays (y m : Z) : list Date :=
  List.map (fun i => mkDate y m (Z.of_nat i)) (seq 1 (Z.to_nat (daysInMonth y m))).

End Calendar.

Export Calendar.




(* ===================================================================== *)
(** ** Data model ([src/types.ts]) and component state *)
(* ===================================================================== *)

Record Teacher : Type := mkTeacher { id : string; name : string }.

Record Shift : Type := mkShift { date : string; teacherId : option string }.

#[global] Instance Teacher_eq_dec : EqDecision Teacher.
Proof. solve_decision. Defined.

#[global] Instance Shift_eq_dec : EqDecision Shift.
Proof. solve_decision. Defined.

(** The four pieces of state that are saved and shared ([ShareableState]). *)
Record AppState : Type := mkAppState {
  teachers : list Teacher;
  scheduleStartDate : string;
  manualChanges : gmap string string;
  dateColors : gmap string string
}.

(** The marker of a day that was emptied by hand. *)
Definition EMPTY : string := "__EMPTY__".

(** Truthiness of a string: every string but the empty one. *)
Definition truthy (s : string) : bool := negb (String.eqb s "").

(* ===================================================================== *)
(** ** The schedule generator *)
(* ===================================================================== *)

Module Generator.

(** [teachers.forEach((t, i) => teacherIndexMap.set(t.id, i))], the index
    counted from [i]. *)
Fixpoint setIndices (ts : list Teacher) (i : Z) (m : gmap string Z) : gmap string Z :=
  match ts with
  | [] => m
  | t :: ts' => setIndices ts' (i + 1) (<[id t := i]> m)
  end.

Definition buildTeacherIndexMap (ts : list Teacher) : gmap string Z :=
  setIndices ts 0 ∅.

(** [teachers[i].id]: an index outside the array reads [undefined], whose
    [.id] throws. *)
Definition teacherIdAt (ts : list Teacher) (i : Z) : Outcome string :=
  if i <? 0 then TypeError
  else match ts !! Z.to_nat i with
       | Some t => Returned (id t)
       | None => TypeError
       end.

(** The two variables the loop updates. *)
Record WalkState : Type := mkWalkState {
  teacherCycleIndex : Z;
  fullSchedule : gmap string (option string)
}.

Definition initialWalkState : WalkState :=
  {| teacherCycleIndex := 0; fullSchedule := ∅ |}.

Section Walk.

Variable zone : Zone.
Variable ts : list Teacher.
Variable overrides : gmap string string.
Variable teacherIndexMap : gmap string Z.

(** The branch without override: take the teacher under the cursor and
    advance the cursor.  [%] is the remainder of JavaScript. *)
Definition rotate (cursor : Z) : Outcome (option string * Z) :=
  let! tid := teacherIdAt ts (Z.rem cursor (Z.of_nat (length ts))) in
  Returned (Some tid, cursor + 1).

(** The assignment of one day and the cursor after it. *)
Definition assign (dateStr : string) (cursor : Z) : Outcome (option string * Z) :=
  match overrides !! dateStr with
  | Some manualOverrideId =>
      if truthy manualOverrideId then
        if String.eqb manualOverrideId EMPTY then Returned (None, cursor)
        else match teacherIndexMap !! manualOverrideId with
             | Some i => Returned (Some manualOverrideId, i + 1)
             | None => Returned (None, cursor)
             end
      else rotate cursor
  | None => rotate cursor
  end.

(** One iteration of the [while] loop, for a pointer on the day [ptr]. *)
Definition walkBody (ptr : Date) (st : WalkState) : Outcome WalkState :=
  let dateStr := formatDate ptr in
  let! r := assign dateStr (teacherCycleIndex st) in
  Returned {| teacherCycleIndex := r.2;
          fullSchedule := <[dateStr := r.1]> (fullSchedule st) |}.

(** [while (currentDatePointer <= lastDayOfVisibleMonth)]: the test
    compares time values, the body reads the calendar day of the pointer,
    and [setDate] steps the pointer. *)
Fixpoint walkLoop (fuel : nat) (lastDay ptr : Moment) (st : WalkState) : Outcome WalkState :=
  match fuel with
  | O => OutOfFuel
  | S fuel' =>
      if Moment_leb ptr lastDay
      then let! st' := walkBody (dayOf ptr) st in
           walkLoop fuel' lastDay (setNextDate zone ptr) st'
      else Returned st
  end.

(** The loop body over a given list of days, in order. *)
Fixpoint runDays (days : list Date) (st : WalkState) : Outcome WalkState :=
  match days with
  | [] => Returned st
  | d :: days' => let! st' := walkBody d st in runDays days' st'
  end.

End Walk.

(** The days the loop visits. *)
Fixpoint walkDates (zone : Zone) (fuel : nat) (lastDay ptr : Moment) : list Date :=
  match fuel with
  | O => []
  | S fuel' =>
      if Moment_leb ptr lastDay
      then dayOf ptr :: walkDates zone fuel' lastDay (setNextDate zone ptr)
      else []
  end.

(** No fewer than the days from [ptr] to [lastDay]. *)
Definition daysLeft (ptr lastDay : Date) : nat :=
  Z.to_nat (ordinal lastDay - ordinal ptr + 1).

(** More units of fuel than there are days from [first] to [lastDay]. *)
Definition walkFuel (first lastDay : Date) : nat := S (daysLeft first lastDay).

(** The days the loop visits from the pointer [ptr] on, and from the
    date [first] on. *)
Definition walkFrom (zone : Zone) (ptr : Moment) (lastDay : Date) : list Date :=
  walkDates zone (walkFuel (dayOf ptr) lastDay) (momentOf zone lastDay) ptr.

Definition walkDays (zone : Zone) (first lastDay : Date) : list Date :=
  walkFrom zone (momentOf zone first) lastDay.

(** The calendar days from [first] to [lastDay]: the days the loop visits
    where no midnight is skipped. *)
Definition calendarDays (first lastDay : Date) : list Date :=
  walkDays everyMidnight first lastDay.

(** The zone skips no midnight from the day [first] to the day [lastDay]. *)
Definition keepsMidnight (zone : Zone) (first lastDay : Date) : Prop :=
  forall d, validDate d -> Date_leb first d = true -> Date_leb d lastDay = true ->
    zone d <= 0.

Definition nullShift (d : Date) : Shift :=
  {| date := formatDate d; teacherId := None |}.

(** The entry of one day of the visible month, read from the schedule.
    [date < globalStartDate] holds exactly when the day of [date] is before
    the day of the start date: on the day of the start date itself, a date
    that [getDatesInMonth] has stepped is not earlier than the first local
    time of that day ([settle_not_earlier]). *)
Definition shiftOf (globalStartDate : Date) (sched : gmap string (option string))
    (d : Date) : Shift :=
  let dateString := formatDate d in
  if Date_ltb d globalStartDate then {| date := dateString; teacherId := None |}
  else {| date := dateString; teacherId := default None (sched !! dateString) |}.

(** [globalStartDate] and [lastDayOfVisibleMonth] of the generator. *)
Definition globalStartDate (startYear startMonth startDay : Z) : Date :=
  newDate startYear (startMonth - 1) startDay.

Definition lastDayOfVisibleMonth (currentYear currentMonth : Z) : Date :=
  newDate currentYear (currentMonth + 1) 0.

(** The value the generator passes to [setShifts]. *)
Definition generateSchedule (zone : Zone) (ts : list Teacher)
    (startYear startMonth startDay : Z)
    (overrides : gmap string string) (currentYear currentMonth : Z) : Outcome (list Shift) :=
  let globalStartDate := globalStartDate startYear startMonth startDay in
  let teacherIndexMap := buildTeacherIndexMap ts in
  let lastDayOfVisibleMonth := lastDayOfVisibleMonth currentYear currentMonth in
  if Date_gtb globalStartDate lastDayOfVisibleMonth then
    let! monthDates := getDatesInMonth currentYear currentMonth in
    Returned (List.map nullShift monthDates)
  else
    let! st := walkLoop zone ts overrides teacherIndexMap
          (walkFuel globalStartDate lastDayOfVisibleMonth)
          (momentOf zone lastDayOfVisibleMonth) (momentOf zone globalStartDate)
          initialWalkState in
    let! monthDates := getDatesInMonth currentYear currentMonth in
    Returned (List.map (shiftOf globalStartDate (fullSchedule st)) monthDates).

(** The loop variables after the iterations for [days], from the initial
    values. *)
Definition stateAfter (ts : list Teacher) (overrides : gmap string string)
    (days : list Date) : Outcome WalkState :=
  runDays ts overrides (buildTeacherIndexMap ts) days initialWalkState.

(** The test [if (manualOverrideId)] fails on the day [d]. *)
Definition noOverride (overrides : gmap string string) (d : Date) : Prop :=
  overrides !! formatDate d = None \/ overrides !! formatDate d = Some ""%string.

(** The day [d] carries the marker of an emptied day, or an id that no
    teacher of the roster has. *)
Definition inertOverride (ts : list Teacher) (overrides : gmap string string)
    (d : Date) : Prop :=
  exists v, overrides !! formatDate d = Some v /\ v ≠ ""%string
    /\ (v = EMPTY \/ Forall (fun t => id t ≠ v) ts).

(** The effect that regenerates the schedule: the value it passes to
    [setShifts]. *)
Definition scheduleEffect (zone : Zone) (ts : list Teacher)
    (startYear startMonth startDay : Z)
    (overrides : gmap string string) (currentYear currentMonth : Z) : Outcome (list Shift) :=
  if (length ts =? 0)%nat then
    let! monthDates := getDatesInMonth currentYear currentMonth in
    Returned (List.map nullShift monthDates)
  else generateSchedule zone ts startYear startMonth startDay overrides
         currentYear currentMonth.

End Generator.

Export Generator.

(* ===================================================================== *)
(** ** The handlers *)
(* ===================================================================== *)

Module Handlers.

Definition handleDeleteTeacher (teacherId : string) (st : AppState) : AppState :=
  {| teachers := List.filter (fun t => negb (String.eqb (id t) teacherId)) (teachers st);
     scheduleStartDate := scheduleStartDate st;
     manualChanges := filter (fun kv => kv.2 ≠ teacherId) (manualChanges st);
     dateColors := dateColors st |}.

(** [newTeacherId] is [None] for [null]. *)
Definition handleUpdateShift (date : string) (newTeacherId : option string)
    (st : AppState) : AppState :=
  let value :=
    match newTeacherId with
    | Some tid => if truthy tid then tid else EMPTY
    | None => EMPTY
    end in
  {| teachers := teachers st;
     scheduleStartDate := scheduleStartDate st;
     manualChanges := <[date := value]> (manualChanges st);
     dateColors := dateColors st |}.

Definition handleClearShift (date : string) (st : AppState) : AppState :=
  handleUpdateShift date None st.

(** [color] is [None] for [null]. *)
Definition handleSetDateColor (date : string) (color : option string)
    (st : AppState) : AppState :=
  let colors :=
    match color with
    | Some c => if truthy c then <[date := c]> (dateColors st) else delete date (dateColors st)
    | None => delete date (dateColors st)
    end in
  {| teachers := teachers st;
     scheduleStartDate := scheduleStartDate st;
     manualChanges := manualChanges st;
     dateColors := colors |}.

(** [newDate] is the value of the date input. *)
Definition handleStartDateChange (newDate : string) (st : AppState) : AppState :=
  if truthy newDate then
    {| teachers := teachers st;
       scheduleStartDate := newDate;
       manualChanges := ∅;
       dateColors := ∅ |}
  else st.

(** The operations of the component that act on one date. *)
Inductive PerDateAction : Type :=
  | UpdateShift (date : string) (newTeacherId : option string)
  | ClearShift (date : string)
  | SetDateColor (date : string) (color : option string).

Definition perform (a : PerDateAction) (st : AppState) : AppState :=
  match a with
  | UpdateShift date newTeacherId => handleUpdateShift date newTeacherId st
  | ClearShift date => handleClearShift date st
  | SetDateColor date color => handleSetDateColor date color st
  end.

End Handlers.

Export Handlers.

(* ===================================================================== *)
(** ** The calendar grid *)
(* ===================================================================== *)

Module Views.

(** [shifts.find(s => s.date === dateString)] of the calendar grid and of
    the export. *)
Definition findShift (shifts : list Shift) (dateString : string) : option Shift :=
  List.find (fun s => String.eqb (date s) dateString) shifts.

(** [handleSelectChange] of the calendar grid; [value] is the value of the
    chosen option of the [select]. *)
Definition handleSelectChange (date : string) (value : string) (st : AppState) : AppState :=
  handleUpdateShift date (if String.eqb value "null" then None else Some value) st.

(** Every teacher id stored in the schedule is the id of a teacher of the
    roster. *)
Definition rosterValues (ts : list Teacher) (m : gmap string (option string)) : Prop :=
  forall key tid, m !! key = Some (Some tid) -> exists t, t ∈ ts /\ id t = tid.

End Views.

Export Views.

(* ===================================================================== *)
(** ** The other handlers, the month in view, and the actions of a user *)
(* ===================================================================== *)

Module MoreHandlers.

(** [initialTeachers]; a string holds the UTF-8 bytes of its text. *)
Definition initialTeachers : list Teacher :=
  [ mkTeacher "1" "Nguyễn Văn A"; mkTeacher "2" "Trần Thị B"; mkTeacher "3" "Lê Văn C";
    mkTeacher "4" "Phạm Thị D"; mkTeacher "5" "Hoàng Văn E"; mkTeacher "6" "Vũ Thị F" ].

(** The state of a first visit, with nothing in the URL or in the local
    storage; [today] is [formatDate(new Date())]. *)
Definition defaultState (today : string) : AppState :=
  {| teachers := initialTeachers;
     scheduleStartDate := today;
     manualChanges := ∅;
     dateColors := ∅ |}.

(** [handleAddTeacher]: [now] is the number [Date.now()] and [trimmed] the
    value of [newTeacherName.trim()]. *)
Definition handleAddTeacher (now : Z) (trimmed : string) (st : AppState) : AppState :=
  if truthy trimmed then
    {| teachers := teachers st ++ [mkTeacher (pretty now) trimmed];
       scheduleStartDate := scheduleStartDate st;
       manualChanges := manualChanges st;
       dateColors := dateColors st |}
  else st.

(** [handleClearTeachers]: [confirmed] is the answer of [window.confirm]. *)
Definition handleClearTeachers (confirmed : bool) (st : AppState) : AppState :=
  if confirmed then
    {| teachers := [];
       scheduleStartDate := scheduleStartDate st;
       manualChanges := ∅;
       dateColors := ∅ |}
  else st.

(** [handleResetSchedule]: [confirmed] is the answer of [window.confirm]. *)
Definition handleResetSchedule (confirmed : bool) (st : AppState) : AppState :=
  if confirmed then
    {| teachers := teachers st;
       scheduleStartDate := scheduleStartDate st;
       manualChanges := ∅;
       dateColors := ∅ |}
  else st.

(** [teachers.findIndex(t => t.id === tid)], [None] for -1. *)
Fixpoint findIndex (tid : string) (ts : list Teacher) : option nat :=
  match ts with
  | [] => None
  | t :: ts' => if String.eqb (id t) tid then Some 0%nat else S <$> findIndex tid ts'
  end.

(** [arr.splice(i, 0, x)] *)
Definition spliceIn {A} (i : nat) (x : A) (l : list A) : list A :=
  take i l ++ x :: drop i l.

(** The roster after [handleDragSort]; the two arguments are the values of
    the refs [dragTeacherId] and [dragOverTeacherId], [None] for null. *)
Definition dragSort (dragTeacherId dragOverTeacherId : option string)
    (ts : list Teacher) : list Teacher :=
  match dragTeacherId, dragOverTeacherId with
  | Some a, Some b =>
      if negb (truthy a) || negb (truthy b) || String.eqb a b then ts
      else
        match findIndex a ts, findIndex b ts with
        | Some dragIndex, Some dropIndex =>
            match ts !! dragIndex with
            | Some draggedItem => spliceIn dropIndex draggedItem (delete dragIndex ts)
            | None => ts
            end
        | _, _ => ts
        end
  | _, _ => ts
  end.

Definition handleDragSort (dragTeacherId dragOverTeacherId : option string)
    (st : AppState) : AppState :=
  {| teachers := dragSort dragTeacherId dragOverTeacherId (teachers st);
     scheduleStartDate := scheduleStartDate st;
     manualChanges := manualChanges st;
     dateColors := dateColors st |}.

(** [date.setMonth(m)]: the day of the month is kept and overflows into the
    following month when the month [m] is too short for it. *)
Definition setMonth (d : Date) (m : Z) : Date :=
  addDays (getDate d - 1) (mkDate (getFullYear d + m / 12) (m mod 12) 1).

(** [handleMonthChange]: the new value of [currentDate]. *)
Definition handleMonthChange (offset : Z) (prevDate : Date) : Date :=
  setMonth prevDate (getMonth prevDate + offset).

(** The handlers as the components call them. *)
Inductive Action : Type :=
  | AddTeacher (now : Z) (trimmed : string)
  | DeleteTeacher (teacherId : string)
  | ClearTeachers (confirmed : bool)
  | ResetSchedule (confirmed : bool)
  | StartDateChange (value : string)
  | DragSort (dragTeacherId dragOverTeacherId : option string)
  | SelectChange (date value : string)
  | ClearDay (date : string)
  | PickColor (date : string) (color : option string).

Definition act (a : Action) (st : AppState) : AppState :=
  match a with
  | AddTeacher now trimmed => handleAddTeacher now trimmed st
  | DeleteTeacher teacherId => handleDeleteTeacher teacherId st
  | ClearTeachers confirmed => handleClearTeachers confirmed st
  | ResetSchedule confirmed => handleResetSchedule confirmed st
  | StartDateChange value => handleStartDateChange value st
  | DragSort a b => handleDragSort a b st
  | SelectChange date value => handleSelectChange date value st
  | ClearDay date => handleClearShift date st
  | PickColor date color => handleSetDateColor date color st
  end.

(** What the page offers in the state [st]: the [select] of a day lists
    the option ["null"] and the ids of the roster; a teacher is added at a
    clock reading that is not yet the id of a teacher. *)
Definition offered (st : AppState) (a : Action) : Prop :=
  match a with
  | SelectChange _ value => value = "null"%string \/ exists t, t ∈ teachers st /\ id t = value
  | AddTeacher now _ => Forall (fun t => id t ≠ pretty now) (teachers st)
  | _ => True
  end.

(** The states a user can reach from [st0]. *)
Inductive reachable (st0 : AppState) : AppState -> Prop :=
  | reachable_start : reachable st0 st0
  | reachable_act st a : reachable st0 st -> offered st a -> reachable st0 (act a st).

(** The ids of the roster are pairwise different. *)
Definition uniqueIds (st : AppState) : Prop := NoDup (id <$> teachers st).

(** Every override is the marker of an emptied day or the id of a teacher
    of the roster, and is not the empty string. *)
Definition overridesInRoster (st : AppState) : Prop :=
  forall date v, manualChanges st !! date = Some v ->
    v ≠ ""%string /\ (v = EMPTY \/ exists t, t ∈ teachers st /\ id t = v).

End MoreHandlers.

Export MoreHandlers.

(* ===================================================================== *)
(** ** The text colour of a cell, and the bytes of a shared link *)
(* ===================================================================== *)

Module Colors.

(** The characters [parseInt] skips at the start, among the ASCII
    characters: tab, line feed, vertical tab, form feed, carriage return
    and space. *)
Definition isWhiteSpace (c : ascii) : bool :=
  let n := nat_of_ascii c in
  (n =? 9)%nat || (n =? 10)%nat || (n =? 11)%nat || (n =? 12)%nat || (n =? 13)%nat
  || (n =? 32)%nat.

(** The value of a digit of radix 16. *)
Definition hexDigit (c : ascii) : option Z :=
  let n := Z.of_nat (nat_of_ascii c) in
  if (48 <=? n) && (n <=? 57) then Some (n - 48)
  else if (65 <=? n) && (n <=? 70) then Some (n - 55)
  else if (97 <=? n) && (n <=? 102) then Some (n - 87)
  else None.

Fixpoint trimStart (s : string) : string :=
  match s with
  | String c s' => if isWhiteSpace c then trimStart s' else s
  | EmptyString => EmptyString
  end.

(** The value of the longest prefix of digits, [acc] being the value of the
    digits read so far ([None] when there is none yet). *)
Fixpoint hexDigits (s : string) (acc : option Z) : option Z :=
  match s with
  | String c s' =>
      match hexDigit c with
      | Some v => hexDigits s' (Some (16 * default 0 acc + v))
      | None => acc
      end
  | EmptyString => acc
  end.

Definition isAscii (c : ascii) (n : nat) : bool := (nat_of_ascii c =? n)%nat.

(** [parseInt(s, 16)] on a string of ASCII characters; [None] is NaN. *)
Definition parseInt16 (s : string) : option Z :=
  let s1 := trimStart s in
  let sign := match s1 with String c _ => if isAscii c 45 then -1 else 1 | _ => 1 end in
  let s2 := match s1 with
            | String c r => if isAscii c 45 || isAscii c 43 then r else s1
            | _ => s1
            end in
  let s3 := match s2 with
            | String c (String x r) =>
                if isAscii c 48 && (isAscii x 120 || isAscii x 88) then r else s2
            | _ => s2
            end in
  match hexDigits s3 None with
  | Some v => Some (sign * v)
  | None => None
  end.

(** The strings this module is about: every character is an ASCII
    character, so that the index of a character is its index in the
    JavaScript string. *)
Fixpoint asciiOnly (s : string) : bool :=
  match s with
  | EmptyString => true
  | String c s' => (nat_of_ascii c <? 128)%nat && asciiOnly s'
  end.

(** [s.substr(start, len)] *)
Definition substr (start len : nat) (s : string) : string := String.substring start len s.

(** [getTextColorForBg]; [None] is [undefined].  The comparison
    [yiq >= 128] of the quotient by 1000 is the comparison of the sum with
    128000, and is false when one of the three numbers is NaN. *)
Definition getTextColorForBg (hexColor : option string) : string :=
  match hexColor with
  | None => "text-gray-900"
  | Some h =>
      if negb (truthy h) || (String.length h <? 7)%nat then "text-gray-900"
      else
        match parseInt16 (substr 1 2 h), parseInt16 (substr 3 2 h),
              parseInt16 (substr 5 2 h) with
        | Some r, Some g, Some b =>
            if 128000 <=? r * 299 + g * 587 + b * 114 then "text-black" else "text-white"
        | _, _, _ => "text-white"
        end
  end.

End Colors.

Export Colors.

Module ShareLink.

(** The loop of [uint8ArrayToBase64]: the string of the characters whose
    codes are the bytes. *)
Fixpoint binaryOfBytes (bytes : list N) : string :=
  match bytes with
  | [] => EmptyString
  | b :: bytes' => String (ascii_of_N b) (binaryOfBytes bytes')
  end.

(** The loop of [base64ToUint8Array]: the codes of the characters. *)
Fixpoint bytesOfBinary (binary_string : string) : list N :=
  match binary_string with
  | EmptyString => []
  | String c s' => N_of_ascii c :: bytesOfBinary s'
  end.

Section Base64.

(** [window.btoa] and [window.atob]; [atob] throws on a string that is not
    base64, which is [None]. *)
Variable btoa : string -> string.
Variable atob : string -> option string.

Definition uint8ArrayToBase64 (bytes : list N) : string := btoa (binaryOfBytes bytes).

Definition base64ToUint8Array (base64 : string) : option (list N) :=
  match atob base64 with
  | Some binary_string => Some (bytesOfBinary binary_string)
  | None => None
  end.

End Base64.

End ShareLink.

Export ShareLink.

(* ===================================================================== *)
(** ** The day of the week, the calendar grid and the export *)
(* ===================================================================== *)

Module CsvExport.

(** The number of the first day of year [y], counted from 1970-01-01
    (DayFromYear of ECMAScript). *)
Definition dayFromYear (y : Z) : Z :=
  365 * (y - 1970) + (y - 1969) / 4 - (y - 1901) / 100 + (y - 1601) / 400.

(** The number of days of year [y] before its month [m] (0-based). *)
Definition daysBeforeMonth (y m : Z) : Z :=
  let leap := if isLeapYear y then 1 else 0 in
  match m with
  | 0 => 0
  | 1 => 31
  | 2 => 59 + leap
  | 3 => 90 + leap
  | 4 => 120 + leap
  | 5 => 151 + leap
  | 6 => 181 + leap
  | 7 => 212 + leap
  | 8 => 243 + leap
  | 9 => 273 + leap
  | 10 => 304 + leap
  | _ => 334 + leap
  end.

(** The number of a day, counted from 1970-01-01. *)
Definition dayNumber (d : Date) : Z :=
  dayFromYear (getFullYear d) + daysBeforeMonth (getFullYear d) (getMonth d)
  + (getDate d - 1).

(** [date.getDay()]: 0 is Sunday; 1970-01-01 was a Thursday. *)
Definition getDay (d : Date) : Z := (dayNumber d + 4) mod 7.

(** The quotation mark, the line feed, and the byte order mark U+FEFF in
    UTF-8. *)
Definition dquote : ascii := ascii_of_nat 34.
Definition lineFeed : string := String (ascii_of_nat 10) EmptyString.
Definition byteOrderMark : string :=
  String (ascii_of_nat 239) (String (ascii_of_nat 187) (String (ascii_of_nat 191) EmptyString)).

(** The [replace] of the export: every quotation mark is written twice. *)
Fixpoint escapeQuotes (s : string) : string :=
  match s with
  | EmptyString => EmptyString
  | String c s' =>
      if Ascii.eqb c dquote then String dquote (String dquote (escapeQuotes s'))
      else String c (escapeQuotes s')
  end.

(** A field between quotation marks. *)
Definition quoted (s : string) : string :=
  String dquote (escapeQuotes s +:+ String dquote EmptyString).

(** [new Map(teachers.map(t => [t.id, t.name]))], built on [m]. *)
Fixpoint setNames (ts : list Teacher) (m : gmap string string) : gmap string string :=
  match ts with
  | [] => m
  | t :: ts' => setNames ts' (<[id t := name t]> m)
  end.

Definition teacherNameMap (ts : list Teacher) : gmap string string := setNames ts ∅.

(** The name the export writes for a shift ([None]: no shift was found). *)
Definition exportName (teacherMap : gmap string string) (shift : option Shift) : string :=
  match shift with
  | Some s =>
      match teacherId s with
      | Some tid =>
          if truthy tid then
            match teacherMap !! tid with
            | Some n => if truthy n then n else "Không rõ"
            | None => "Không rõ"
            end
          else "Trống"
      | None => "Trống"
      end
  | None => "Trống"
  end.

(** The cell of day [day] of the export. *)
Definition exportCell (ts : list Teacher) (shifts : list Shift) (year month day : Z) : string :=
  let date := newDate year month day in
  let dateString := formatDate date in
  let shift := findShift shifts dateString in
  let teacherName := exportName (teacherNameMap ts) shift in
  let cellContent := pretty day +:+ " - " +:+ teacherName in
  quoted cellContent.

(** [calendarCells] of the export: empty cells before the first of the
    month, then one cell per day. *)
Definition calendarCells (ts : list Teacher) (shifts : list Shift) (year month : Z)
    : list string :=
  let firstDayOfMonth := getDay (newDate year month 1) in
  let daysInMonth := getDate (newDate year (month + 1) 0) in
  replicate (Z.to_nat firstDayOfMonth) EmptyString
  ++ ((fun day => exportCell ts shifts year month day) <$> seqZ 1 daysInMonth).

(** The weeks of the export: the slices [cells.slice(i, i + 7)] for
    i = 0, 7, 14, ... below the number of cells, the last one filled up with
    empty cells. *)
Definition weekAt (cells : list string) (r : nat) : list string :=
  let week := take 7 (drop (7 * r) cells) in
  week ++ replicate (7 - length week) EmptyString.

Definition weeksOf (cells : list string) : list (list string) :=
  weekAt cells <$> seq 0 ((length cells + 6) / 7).

Definition gridRows (cells : list string) : list string :=
  String.concat "," <$> weeksOf cells.

Definition dayNames : list string :=
  ["Chủ Nhật"; "Thứ Hai"; "Thứ Ba"; "Thứ Tư"; "Thứ Năm"; "Thứ Sáu"; "Thứ Bảy"].

(** [csvContent] of [handleExportToCSV]. *)
Definition csvContent (ts : list Teacher) (shifts : list Shift) (year month : Z) : string :=
  let monthName := "Lịch trực Tháng " +:+ pretty (month + 1) +:+ ", " +:+ pretty year in
  let csvRows :=
    quoted monthName :: String.concat "," dayNames
      :: gridRows (calendarCells ts shifts year month) in
  byteOrderMark +:+ String.concat lineFeed csvRows.

(** The cells of the calendar grid: [None] for an empty cell before the
    first of the month, [Some day] for the cell of a day. *)
Definition gridCells (year month : Z) : list (option Z) :=
  let firstDayOfMonth := getDay (newDate year month 1) in
  let daysInMonth := getDate (newDate year (month + 1) 0) in
  replicate (Z.to_nat firstDayOfMonth) None ++ (Some <$> seqZ 1 daysInMonth).

End CsvExport.

Export CsvExport.

(* ===================================================================== *)
(** ** Scenarios *)
(* ===================================================================== *)

Definition tA : Teacher := mkTeacher "A" "An".
Definition tB : Teacher := mkTeacher "B" "Binh".
Definition tC : Teacher := mkTeacher "C" "Chi".

Definition tBlank : Teacher := mkTeacher "" "Xuan".
Definition tMarker : Teacher := mkTeacher "__EMPTY__" "Em".

(** Africa/Cairo in 2024: daylight saving time starts on April 26, when
    the clocks go from 00:00 to 01:00. *)
Definition cairo2024 : Zone :=
  fun d => if decide (d = mkDate 2024 3 26) then 3600000 else 0.

Definition teacherIds (r : Outcome (list Shift)) : Outcome (list (option string)) :=
  let! l := r in Returned (List.map teacherId l).

Definition firstIds (n : nat) (r : Outcome (list Shift)) : Outcome (list (option string)) :=
  let! l := r in Returned (take n (List.map teacherId l)).

(** Jan 1 is given to A by hand and Jan 2 to C. *)
Definition twoPicks : gmap string string :=
  <["2024-01-01"%string := "A"%string]> (<["2024-01-02"%string := "C"%string]> ∅).

(** Roster [A, B, C], start on 2024-01-01, Jan 2 given to B by hand. *)
Definition pickedB : AppState :=
  {| teachers := [tA; tB; tC];
     scheduleStartDate := "2024-01-01";
     manualChanges := {[ "2024-01-02"%string := "B"%string ]};
     dateColors := {[ "2024-01-02"%string := "#ff0000"%string ]} |}.

(** Apr 25 is given to B by hand, Apr 26 is emptied, and Apr 27 carries the
    id of a teacher who is no longer in the roster. *)
Definition pickThenInert : gmap string string :=
  <["2024-04-25"%string := "B"%string]>
    (<["2024-04-26"%string := EMPTY]> (<["2024-04-27"%string := "Z"%string]> ∅)).

(** Jan 3 is emptied by hand. *)
Definition emptiedJan3 : gmap string string := {[ "2024-01-03"%string := EMPTY ]}.

(** Jan 2 is emptied by hand and Jan 3 is given to C. *)
Definition emptiedThenPick : gmap string string :=
  <["2024-01-02"%string := EMPTY]> (<["2024-01-03"%string := "C"%string]> ∅).


Example formatDate_2024_01_03 : formatDate (newDate 2024 0 3) = "2024-01-03"%string.
Proof. vm_compute. reflexivity. Qed.

Example lastDay_feb_2024 : newDate 2024 2 0 = mkDate 2024 1 29.
Proof. vm_compute. reflexivity. Qed.

Example getDatesInMonth_feb_2023 :
  (fun r => match r with Returned l => Some (length l) | _ => None end)
    (getDatesInMonth 2023 1) = Some 28%nat.
Proof. vm_compute. reflexivity. Qed.

Example scenario_rotation_jan_2024 :
  teacherIds (generateSchedule everyMidnight [tA; tB; tC] 2024 1 1 ∅ 2024 0)
  = Returned (List.map Some
      ["A";"B";"C";"A";"B";"C";"A";"B";"C";"A";"B";"C";"A";"B";"C";"A";
       "B";"C";"A";"B";"C";"A";"B";"C";"A";"B";"C";"A";"B";"C";"A"]%string).
Proof. vm_compute. reflexivity. Qed.

(* ===================================================================== *)
(** ** Calendar facts *)
(* ===================================================================== *)

Module CalendarFacts.

Lemma daysInMonth_bounds y m : 28 <= daysInMonth y m <= 31.
Proof.
  unfold daysInMonth.
  destruct (m =? 1); [destruct (isLeapYear y); lia|].
  destruct ((m =? 3) || (m =? 5) || (m =? 8) || (m =? 10)); lia.
Qed.

Lemma nextDay_valid d : validDate d -> validDate (nextDay d).
Proof.
  destruct d as [y m k]. unfold validDate, nextDay. simpl. intros [Hm Hk].
  destruct (Z.ltb_spec k (daysInMonth y m)); simpl; [lia|].
  destruct (Z.ltb_spec m 11); simpl.
  - pose proof (daysInMonth_bounds y (m + 1)). lia.
  - pose proof (daysInMonth_bounds (y + 1) 0). lia.
Qed.

Lemma prevDay_valid d : validDate d -> validDate (prevDay d).
Proof.
  destruct d as [y m k]. unfold validDate, prevDay. simpl. intros [Hm Hk].
  destruct (Z.ltb_spec 1 k); simpl; [lia|].
  destruct (Z.ltb_spec 0 m); simpl.
  - pose proof (daysInMonth_bounds y (m - 1)). lia.
  - change (daysInMonth (y - 1) 11) with 31. lia.
Qed.

Lemma iter_nextDay_valid n d : validDate d -> validDate (Nat.iter n nextDay d).
Proof. intros H. induction n; simpl; auto using nextDay_valid. Qed.

Lemma iter_prevDay_valid n d : validDate d -> validDate (Nat.iter n prevDay d).
Proof. intros H. induction n; simpl; auto using prevDay_valid. Qed.

Lemma newDate_valid y m k : validDate (newDate y m k).
Proof.
  unfold newDate, addDays.
  assert (Hv : validDate (mkDate (fullYear y + m / 12) (m mod 12) 1)).
  { unfold validDate. simpl.
    pose proof (Z.mod_pos_bound m 12 ltac:(lia)).
    pose proof (daysInMonth_bounds (fullYear y + m / 12) (m mod 12)). lia. }
  destruct (0 <=? k - 1); auto using iter_nextDay_valid, iter_prevDay_valid.
Qed.

(** The first of a month and its last day, as the constructor gives them. *)
Lemma newDate_first y m : 0 <= m <= 11 -> newDate y m 1 = mkDate (fullYear y) m 1.
Proof.
  intros Hm. unfold newDate, addDays. simpl.
  rewrite Z.div_small, Z.mod_small by lia. f_equal. lia.
Qed.

Lemma newDate_last y m :
  0 <= m <= 11 -> newDate y (m + 1) 0 = mkDate (fullYear y) m (daysInMonth (fullYear y) m).
Proof.
  intros Hm. unfold newDate, addDays. simpl.
  destruct (Z.eq_dec m 11) as [->|Hne].
  - change ((11 + 1) / 12) with 1. change ((11 + 1) mod 12) with 0.
    unfold prevDay. simpl. change (daysInMonth (fullYear y) 11) with 31.
    f_equal. lia.
  - rewrite Z.div_small, Z.mod_small by lia.
    unfold prevDay. simpl.
    destruct (Z.ltb_spec 0 (m + 1)); [|lia].
    replace (m + 1 - 1) with m by lia. rewrite Z.add_0_r. reflexivity.
Qed.

Lemma iter_nextDay_in_month y m (n : nat) : forall k,
  1 <= k -> k + Z.of_nat n <= daysInMonth y m ->
  Nat.iter n nextDay (mkDate y m k) = mkDate y m (k + Z.of_nat n).
Proof.
  induction n as [|n IH]; intros k Hk Hle.
  - cbn. f_equal. lia.
  - rewrite Nat.iter_succ, IH by lia. unfold nextDay. cbn [getFullYear getMonth getDate].
    destruct (Z.ltb_spec (k + Z.of_nat n) (daysInMonth y m)); [|lia]. f_equal. lia.
Qed.

(** [new Date(year, month, day)] for a day of the month. *)
Lemma newDate_day y m k :
  0 <= m <= 11 -> 1 <= k <= daysInMonth (fullYear y) m ->
  newDate y m k = mkDate (fullYear y) m k.
Proof.
  intros Hm Hk. unfold newDate, addDays.
  rewrite Z.div_small, Z.mod_small, Z.add_0_r by lia.
  destruct (Z.leb_spec 0 (k - 1)); [|lia].
  rewrite (iter_nextDay_in_month _ _ (Z.to_nat (k - 1)) 1) by lia. f_equal. lia.
Qed.

Lemma ordinal_nextDay d : validDate d -> ordinal d < ordinal (nextDay d).
Proof.
  destruct d as [y m k]. unfold validDate, nextDay, ordinal. simpl. intros [Hm Hk].
  pose proof (daysInMonth_bounds y m).
  destruct (Z.ltb_spec k (daysInMonth y m)); simpl; [lia|].
  destruct (Z.ltb_spec m 11); simpl; lia.
Qed.

Lemma ordinal_iter_nextDay (n : nat) : forall d,
  validDate d -> ordinal d <= ordinal (Nat.iter n nextDay d).
Proof.
  induction n as [|n IH]; intros d Hd; [cbn; lia|].
  rewrite Nat.iter_succ_r. pose proof (ordinal_nextDay d Hd).
  pose proof (IH (nextDay d) (nextDay_valid d Hd)). lia.
Qed.

(** Between a day and the next there is no calendar day. *)
Lemma ordinal_nextDay_least d e :
  validDate d -> validDate e -> ordinal d < ordinal e -> ordinal (nextDay d) <= ordinal e.
Proof.
  destruct d as [y m k], e as [y' m' k'].
  unfold validDate, nextDay, ordinal. simpl. intros [Hm Hk] [Hm' Hk'] Hlt.
  pose proof (daysInMonth_bounds y m). pose proof (daysInMonth_bounds y' m').
  destruct (Z.ltb_spec k (daysInMonth y m)); simpl; [lia|].
  assert (k = daysInMonth y m) by lia.
  assert (Hcase : y * 12 + m < y' * 12 + m').
  { destruct (Z.eq_dec (y * 12 + m) (y' * 12 + m')) as [Heq|]; [|lia].
    assert (y = y') by lia. assert (m = m') by lia. subst. lia. }
  destruct (Z.ltb_spec m 11); simpl; lia.
Qed.

Lemma ordinal_inj d e : validDate d -> validDate e -> ordinal d = ordinal e -> d = e.
Proof.
  destruct d as [y m k], e as [y' m' k'].
  unfold validDate, ordinal. simpl. intros [Hm Hk] [Hm' Hk'] Heq.
  pose proof (daysInMonth_bounds y m). pose proof (daysInMonth_bounds y' m').
  assert (y = y') by lia. assert (m = m') by lia. f_equal; lia.
Qed.

Lemma Date_compare_ordinal d e :
  validDate d -> validDate e -> Date_compare d e = (ordinal d ?= ordinal e).
Proof.
  destruct d as [y m k], e as [y' m' k'].
  unfold validDate, ordinal, Date_compare. simpl. intros [Hm Hk] [Hm' Hk'].
  pose proof (daysInMonth_bounds y m). pose proof (daysInMonth_bounds y' m').
  symmetry.
  destruct (Z.compare_spec y y'); [subst|apply Z.compare_lt_iff; lia|apply Z.compare_gt_iff; lia].
  destruct (Z.compare_spec m m'); [subst|apply Z.compare_lt_iff; lia|apply Z.compare_gt_iff; lia].
  destruct (Z.compare_spec k k'); [subst; apply Z.compare_refl|apply Z.compare_lt_iff; lia|apply Z.compare_gt_iff; lia].
Qed.

Lemma Date_leb_ordinal d e :
  validDate d -> validDate e -> Date_leb d e = (ordinal d <=? ordinal e).
Proof.
  intros Hd He. unfold Date_leb, Z.leb. rewrite Date_compare_ordinal by assumption.
  reflexivity.
Qed.

Lemma Date_ltb_ordinal d e :
  validDate d -> validDate e -> Date_ltb d e = (ordinal d <? ordinal e).
Proof.
  intros Hd He. unfold Date_ltb, Z.ltb. rewrite Date_compare_ordinal by assumption.
  reflexivity.
Qed.

End CalendarFacts.

Import CalendarFacts.

(* ===================================================================== *)
(** ** Date keys and the days of a month *)
(* ===================================================================== *)

Module DateKeys.

Lemma length_append (s t : string) :
  String.length (s +:+ t) = (String.length s + String.length t)%nat.
Proof. induction s as [|a s IH]; simpl; [reflexivity | now rewrite IH]. Qed.

Lemma append_inj_suffix (s1 s2 t1 t2 : string) :
  String.length t1 = String.length t2 ->
  s1 +:+ t1 = s2 +:+ t2 -> s1 = s2 /\ t1 = t2.
Proof.
  revert s2. induction s1 as [|a s1 IH]; intros [|b s2] Hlen Heq; simpl in *.
  - auto.
  - apply (f_equal String.length) in Heq.
    cbn in Heq. rewrite ?length_append in Heq. cbn in Heq. lia.
  - apply (f_equal String.length) in Heq.
    cbn in Heq. rewrite ?length_append in Heq. cbn in Heq. lia.
  - cbn in Heq. injection Heq as -> Heq. destruct (IH s2 Hlen Heq) as [-> ->]. auto.
Qed.


Lemma smallNumbers_In n : 1 <= n <= 31 -> In n smallNumbers.
Proof.
  intros Hn. unfold smallNumbers. apply in_map_iff.
  exists (Z.to_nat n). split; [lia|]. apply in_seq. lia.
Qed.

Lemma field2_length n : 1 <= n <= 31 -> String.length (field2 n) = 2%nat.
Proof.
  intros Hn.
  assert (Hall : forallb (fun k => Nat.eqb (String.length (field2 k)) 2) smallNumbers = true)
    by (vm_compute; reflexivity).
  rewrite forallb_forall in Hall.
  apply Nat.eqb_eq, Hall, smallNumbers_In, Hn.
Qed.

Lemma field2_inj n n' :
  1 <= n <= 31 -> 1 <= n' <= 31 -> field2 n = field2 n' -> n = n'.
Proof.
  intros Hn Hn' Heq.
  assert (Hall : forallb (fun k => forallb (fun k' =>
            implb (String.eqb (field2 k) (field2 k')) (k =? k')) smallNumbers)
            smallNumbers = true)
    by (vm_compute; reflexivity).
  rewrite forallb_forall in Hall.
  specialize (Hall n (smallNumbers_In n Hn)).
  rewrite forallb_forall in Hall.
  specialize (Hall n' (smallNumbers_In n' Hn')).
  rewrite Heq, String.eqb_refl in Hall. simpl in Hall.
  apply Z.eqb_eq, Hall.
Qed.

(** Two calendar days with the same key are the same day. *)
Lemma formatDate_inj d e :
  validDate d -> validDate e -> formatDate d = formatDate e -> d = e.
Proof.
  destruct d as [y m k], e as [y' m' k'].
  unfold validDate, formatDate. simpl. intros [Hm Hk] [Hm' Hk'] Heq.
  pose proof (daysInMonth_bounds y m). pose proof (daysInMonth_bounds y' m').
  fold (field2 (m + 1)) in Heq. fold (field2 k) in Heq.
  fold (field2 (m' + 1)) in Heq. fold (field2 k') in Heq.
  assert (Lm : String.length (field2 (m + 1)) = 2%nat) by (apply field2_length; lia).
  assert (Lm' : String.length (field2 (m' + 1)) = 2%nat) by (apply field2_length; lia).
  assert (Lk : String.length (field2 k) = 2%nat) by (apply field2_length; lia).
  assert (Lk' : String.length (field2 k') = 2%nat) by (apply field2_length; lia).
  apply append_inj_suffix in Heq as [Hy Heq].
  2:{ simpl. rewrite !length_append. simpl. lia. }
  cbn in Heq. injection Heq as Heq.
  apply (append_inj_suffix (field2 (m + 1)) (field2 (m' + 1))) in Heq as [Hmm Heq].
  2:{ rewrite !length_append. cbn. lia. }
  injection Heq as Hkk. change (field2 k = field2 k') in Hkk.
  apply (inj pretty) in Hy.
  apply field2_inj in Hmm; [|lia|lia].
  apply field2_inj in Hkk; [|lia|lia].
  f_equal; lia.
Qed.


Lemma getDatesLoop_month y m n : forall fuel k,
  0 <= m <= 11 -> 1 <= k -> k + Z.of_nat n = daysInMonth y m -> (S n < fuel)%nat ->
  getDatesLoop fuel (mkDate y m k) m
  = Returned (List.map (fun i => mkDate y m (Z.of_nat i)) (seq (Z.to_nat k) (S n))).
Proof.
  induction n as [|n IH]; intros fuel k Hm Hk Hsum Hfuel.
  - destruct fuel as [|[|fuel]]; [lia|lia|].
    cbn [getDatesLoop getMonth]. rewrite Z.eqb_refl.
    unfold nextDay. cbn [getFullYear getMonth getDate].
    destruct (Z.ltb_spec k (daysInMonth y m)); [lia|].
    destruct (Z.ltb_spec m 11); cbn [getMonth].
    + destruct (Z.eqb_spec (m + 1) m); [lia|]. simpl. repeat f_equal. lia.
    + destruct (Z.eqb_spec 0 m); [lia|]. simpl. repeat f_equal. lia.
  - destruct fuel as [|fuel]; [lia|].
    cbn [getDatesLoop getMonth]. rewrite Z.eqb_refl.
    unfold nextDay. cbn [getFullYear getMonth getDate].
    destruct (Z.ltb_spec k (daysInMonth y m)); [|lia].
    rewrite (IH fuel (k + 1)) by lia.
    cbn [Outcome_bind]. f_equal.
    replace (Z.to_nat (k + 1)) with (S (Z.to_nat k)) by lia.
    cbn [seq List.map]. repeat f_equal. lia.
Qed.

Lemma getDatesInMonth_month y m :
  0 <= m <= 11 -> getDatesInMonth y m = Returned (monthDays (fullYear y) m).
Proof.
  intros Hm. unfold getDatesInMonth, monthDays. rewrite newDate_first by assumption.
  pose proof (daysInMonth_bounds (fullYear y) m).
  rewrite (getDatesLoop_month (fullYear y) m (Z.to_nat (daysInMonth (fullYear y) m - 1)))
    by lia.
  repeat f_equal. lia.
Qed.

(** A call with a month number that [getMonth] cannot return finds no day. *)
Lemma getDatesInMonth_other y m :
  ~ 0 <= m <= 11 -> getDatesInMonth y m = Returned [].
Proof.
  intros Hm. unfold getDatesInMonth.
  change 32%nat with (S 31). cbn [getDatesLoop].
  assert (Hmonth : getMonth (newDate y m 1) = m mod 12) by reflexivity.
  rewrite Hmonth.
  pose proof (Z.mod_pos_bound m 12 ltac:(lia)).
  destruct (Z.eqb_spec (m mod 12) m); [lia|reflexivity].
Qed.

Lemma getDatesInMonth_returns y m :
  exists monthDates, getDatesInMonth y m = Returned monthDates
    /\ Forall validDate monthDates.
Proof.
  destruct (decide (0 <= m <= 11)) as [Hm|Hm].
  - exists (monthDays (fullYear y) m). split; [apply getDatesInMonth_month, Hm|].
    unfold monthDays. apply Forall_forall. intros d Hd.
    apply list_elem_of_In, in_map_iff in Hd as (i & <- & Hi). apply in_seq in Hi.
    unfold validDate. simpl. lia.
  - exists []. split; [apply getDatesInMonth_other, Hm|constructor].
Qed.

Lemma monthDays_length y m : length (monthDays y m) = Z.to_nat (daysInMonth y m).
Proof. unfold monthDays. now rewrite length_map, length_seq. Qed.

Lemma monthDays_lookup y m (i : nat) :
  (i < Z.to_nat (daysInMonth y m))%nat ->
  monthDays y m !! i = Some (mkDate y m (Z.of_nat i + 1)).
Proof.
  intros Hi. unfold monthDays. rewrite list_lookup_fmap.
  rewrite lookup_seq_lt by assumption. simpl. f_equal. f_equal. lia.
Qed.

End DateKeys.

Import DateKeys.

(* ===================================================================== *)
(** ** The days of the walk *)
(* ===================================================================== *)

Module WalkDays.


Lemma daysLeft_nextDay ptr lastDay :
  validDate ptr -> validDate lastDay -> Date_leb ptr lastDay = true ->
  (S (daysLeft (nextDay ptr) lastDay) <= daysLeft ptr lastDay)%nat.
Proof.
  intros Hp Hl Hle. rewrite Date_leb_ordinal in Hle by assumption.
  apply Z.leb_le in Hle. pose proof (ordinal_nextDay ptr Hp).
  unfold daysLeft. lia.
Qed.

(** A request for midnight never yields an earlier time. *)
Lemma settle_midnight zone d : 0 <= settle zone d 0.
Proof. unfold settle. destruct (Z.ltb_spec 0 (zone d)); lia. Qed.

(** A date that [setDate] has brought to a day is not earlier than the
    date built for that day from its year, month and day: [date <
    globalStartDate] is false on the day of the start date. *)
Lemma settle_not_earlier zone d t : 0 <= t -> settle zone d 0 <= settle zone d t.
Proof.
  intros Ht. unfold settle.
  destruct (Z.ltb_spec 0 (zone d)), (Z.ltb_spec t (zone d)); lia.
Qed.

Lemma settle_kept zone d : zone d <= 0 -> settle zone d 0 = 0.
Proof. intros H. unfold settle. destruct (Z.ltb_spec 0 (zone d)); lia. Qed.

(** The test on time values and the order of the calendar days. *)
Lemma Moment_leb_day p q :
  Moment_leb p q = true -> Date_leb (dayOf p) (dayOf q) = true.
Proof.
  unfold Moment_leb, Date_leb. destruct (Date_compare (dayOf p) (dayOf q)); auto.
Qed.

Lemma Moment_leb_before p q :
  validDate (dayOf p) -> validDate (dayOf q) -> ordinal (dayOf p) < ordinal (dayOf q) ->
  Moment_leb p q = true.
Proof.
  intros Hp Hq Hlt. unfold Moment_leb. rewrite Date_compare_ordinal by assumption.
  apply Z.compare_lt_iff in Hlt. now rewrite Hlt.
Qed.

(** At midnight, where no midnight is skipped, the test is the test on the
    calendar days. *)
Lemma Moment_leb_everyMidnight d lastDay :
  Moment_leb (mkMoment d 0) (momentOf everyMidnight lastDay) = Date_leb d lastDay.
Proof.
  unfold Moment_leb, Date_leb. cbn [dayOf timeWithinDay momentOf].
  destruct (Date_compare d lastDay); reflexivity.
Qed.

Section Zoned.

Variable zone : Zone.
Variable lastDay : Date.
Hypothesis lastDay_valid : validDate lastDay.

Local Abbreviation lastMoment := (momentOf zone lastDay).

Lemma walkDates_fuel : forall f1 f2 ptr,
  validDate (dayOf ptr) ->
  (daysLeft (dayOf ptr) lastDay < f1)%nat -> (daysLeft (dayOf ptr) lastDay < f2)%nat ->
  walkDates zone f1 lastMoment ptr = walkDates zone f2 lastMoment ptr.
Proof.
  induction f1 as [|f1 IH]; intros [|f2] ptr Hp H1 H2; try lia.
  cbn [walkDates]. destruct (Moment_leb ptr lastMoment) eqn:Hle; [|reflexivity].
  pose proof (daysLeft_nextDay (dayOf ptr) lastDay Hp lastDay_valid
                (Moment_leb_day _ _ Hle)).
  f_equal. apply IH; cbn [setNextDate dayOf]; [apply nextDay_valid, Hp|lia|lia].
Qed.

Lemma walkFrom_nil ptr :
  Moment_leb ptr lastMoment = false -> walkFrom zone ptr lastDay = [].
Proof. intros Hle. unfold walkFrom, walkFuel. cbn [walkDates]. now rewrite Hle. Qed.

Lemma walkFrom_cons ptr :
  validDate (dayOf ptr) -> Moment_leb ptr lastMoment = true ->
  walkFrom zone ptr lastDay = dayOf ptr :: walkFrom zone (setNextDate zone ptr) lastDay.
Proof.
  intros Hp Hle. unfold walkFrom at 1. unfold walkFuel. cbn [walkDates].
  rewrite Hle. f_equal.
  pose proof (daysLeft_nextDay (dayOf ptr) lastDay Hp lastDay_valid
                (Moment_leb_day _ _ Hle)).
  apply walkDates_fuel; cbn [setNextDate dayOf]; [apply nextDay_valid, Hp| |].
  - lia.
  - unfold walkFuel. cbn [dayOf]. lia.
Qed.

(** Induction along the walk. *)
Lemma walkFrom_ind (P : Moment -> list Date -> Prop) :
  (forall p, validDate (dayOf p) -> Moment_leb p lastMoment = false -> P p []) ->
  (forall p, validDate (dayOf p) -> Moment_leb p lastMoment = true ->
     P (setNextDate zone p) (walkFrom zone (setNextDate zone p) lastDay) ->
     P p (dayOf p :: walkFrom zone (setNextDate zone p) lastDay)) ->
  forall p, validDate (dayOf p) -> P p (walkFrom zone p lastDay).
Proof.
  intros Hnil Hcons p Hp.
  remember (daysLeft (dayOf p) lastDay) as n eqn:Hn.
  revert p Hp Hn. induction (lt_wf n) as [n _ IH]. intros p Hp ->.
  destruct (Moment_leb p lastMoment) eqn:Hle.
  - rewrite walkFrom_cons by assumption. apply Hcons; [assumption..|].
    pose proof (daysLeft_nextDay (dayOf p) lastDay Hp lastDay_valid
                  (Moment_leb_day _ _ Hle)).
    apply (IH (daysLeft (dayOf (setNextDate zone p)) lastDay));
      cbn [setNextDate dayOf]; [lia|apply nextDay_valid, Hp|reflexivity].
  - rewrite walkFrom_nil by assumption. apply Hnil; assumption.
Qed.

Lemma walkFrom_bounds : forall p, validDate (dayOf p) ->
  Forall (fun d => validDate d /\ ordinal (dayOf p) <= ordinal d <= ordinal lastDay)
         (walkFrom zone p lastDay).
Proof.
  apply (walkFrom_ind (fun p l =>
    Forall (fun d => validDate d /\ ordinal (dayOf p) <= ordinal d <= ordinal lastDay) l)).
  - constructor.
  - intros p Hp Hle IH. constructor.
    + apply Moment_leb_day in Hle. cbn [momentOf dayOf] in Hle.
      rewrite Date_leb_ordinal in Hle by assumption. apply Z.leb_le in Hle.
      split; [assumption|lia].
    + pose proof (ordinal_nextDay (dayOf p) Hp). cbn [setNextDate dayOf] in IH.
      eapply Forall_impl; [exact IH|]. simpl. intros d [Hd Hb]. split; [assumption|lia].
Qed.

(** The keys of the visited days are pairwise different. *)
Lemma walkFrom_keys_NoDup : forall p, validDate (dayOf p) ->
  NoDup (formatDate <$> walkFrom zone p lastDay).
Proof.
  apply (walkFrom_ind (fun p l => NoDup (formatDate <$> l))).
  - intros. constructor.
  - intros p Hp Hle IH. rewrite fmap_cons. constructor; [|exact IH].
    intros Hin. apply list_elem_of_fmap in Hin as (d & Heq & Hin).
    pose proof (walkFrom_bounds (setNextDate zone p) (nextDay_valid _ Hp)) as Hb.
    rewrite Forall_forall in Hb. destruct (Hb d Hin) as [Hd Hord].
    apply formatDate_inj in Heq; [|assumption..]. subst d.
    pose proof (ordinal_nextDay (dayOf p) Hp). cbn [setNextDate dayOf] in Hord. lia.
Qed.

(** The visited days are consecutive calendar days. *)
Lemma walkFrom_lookup_iter : forall p, validDate (dayOf p) ->
  forall (i : nat) d, walkFrom zone p lastDay !! i = Some d ->
    d = Nat.iter i nextDay (dayOf p).
Proof.
  apply (walkFrom_ind (fun p l =>
    forall (i : nat) d, l !! i = Some d -> d = Nat.iter i nextDay (dayOf p))).
  - intros p _ _ i d H. rewrite lookup_nil in H. discriminate.
  - intros p Hp Hle IH [|i] d H; cbn in H.
    + now injection H as <-.
    + rewrite (IH i d H). cbn [setNextDate dayOf]. symmetry. apply Nat.iter_succ_r.
Qed.

(** The days before the last day are visited in order, whatever the time
    of day of the pointer. *)
Lemma walkFrom_lookup_before_last (i : nat) : forall p, validDate (dayOf p) ->
  ordinal (Nat.iter i nextDay (dayOf p)) < ordinal lastDay ->
  walkFrom zone p lastDay !! i = Some (Nat.iter i nextDay (dayOf p)).
Proof.
  induction i as [|i IH]; intros p Hp Hlt.
  - cbn in Hlt. rewrite walkFrom_cons; [reflexivity|assumption|].
    apply Moment_leb_before; cbn [momentOf dayOf]; assumption.
  - rewrite Nat.iter_succ_r in Hlt |- *.
    pose proof (ordinal_iter_nextDay i (nextDay (dayOf p)) (nextDay_valid _ Hp)).
    pose proof (ordinal_nextDay (dayOf p) Hp).
    rewrite walkFrom_cons;
      [|assumption|apply Moment_leb_before; cbn [momentOf dayOf]; (assumption || lia)].
    apply (IH (setNextDate zone p)); cbn [setNextDate dayOf];
      [apply nextDay_valid, Hp|exact Hlt].
Qed.

(** Every calendar day from the pointer to the eve of the last day is
    visited, whatever the time of day of the pointer. *)
Lemma walkFrom_before_last d : validDate d -> forall p, validDate (dayOf p) ->
  ordinal (dayOf p) <= ordinal d < ordinal lastDay -> d ∈ walkFrom zone p lastDay.
Proof.
  intros Hd.
  apply (walkFrom_ind (fun p l =>
    ordinal (dayOf p) <= ordinal d < ordinal lastDay -> d ∈ l)).
  - intros p Hp Hle Hb.
    rewrite Moment_leb_before in Hle by (cbn [momentOf dayOf]; (assumption || lia)).
    discriminate.
  - intros p Hp Hle IH Hb.
    destruct (Z.eq_dec (ordinal (dayOf p)) (ordinal d)) as [Heq|Hne].
    + apply ordinal_inj in Heq; [|assumption..]. subst. apply list_elem_of_here.
    + apply list_elem_of_further, IH. cbn [setNextDate dayOf].
      pose proof (ordinal_nextDay_least (dayOf p) d Hp Hd). lia.
Qed.

End Zoned.

(** Where the zone skips no midnight from the pointer to the last day, a
    pointer at midnight visits the calendar days up to the last day. *)
Lemma keepsMidnight_nextDay zone d lastDay :
  validDate d -> keepsMidnight zone d lastDay -> keepsMidnight zone (nextDay d) lastDay.
Proof.
  intros Hd Hk x Hx H1 H2. apply Hk; [assumption| |assumption].
  rewrite Date_leb_ordinal in * by auto using nextDay_valid.
  apply Z.leb_le in H1. apply Z.leb_le. pose proof (ordinal_nextDay d Hd). lia.
Qed.

Lemma walkFrom_calendar zone lastDay : validDate lastDay ->
  forall p, validDate (dayOf p) ->
  (Date_leb (dayOf p) lastDay = true -> timeWithinDay p = 0) ->
  keepsMidnight zone (dayOf p) lastDay ->
  walkFrom zone p lastDay = walkFrom everyMidnight (mkMoment (dayOf p) 0) lastDay.
Proof.
  intros Hl.
  apply (walkFrom_ind zone lastDay Hl (fun p l =>
    (Date_leb (dayOf p) lastDay = true -> timeWithinDay p = 0) ->
    keepsMidnight zone (dayOf p) lastDay ->
    l = walkFrom everyMidnight (mkMoment (dayOf p) 0) lastDay)).
  - intros p Hp Hle Htime _. symmetry. apply walkFrom_nil.
    rewrite Moment_leb_everyMidnight.
    destruct (Date_leb (dayOf p) lastDay) eqn:Hday; [|reflexivity].
    exfalso. unfold Moment_leb in Hle. unfold Date_leb in Hday.
    cbn [momentOf dayOf timeWithinDay] in Hle.
    pose proof (settle_midnight zone lastDay).
    destruct (Date_compare (dayOf p) lastDay); [|discriminate..].
    rewrite (Htime eq_refl) in Hle. apply Z.leb_gt in Hle. lia.
  - intros p Hp Hle IH Htime Hkeep.
    pose proof (Moment_leb_day _ _ Hle) as Hday. cbn [momentOf dayOf] in Hday.
    rewrite (walkFrom_cons everyMidnight lastDay Hl (mkMoment (dayOf p) 0));
      [|exact Hp|rewrite Moment_leb_everyMidnight; exact Hday].
    f_equal. apply IH.
    + intros Hnext. cbn [setNextDate dayOf timeWithinDay] in *.
      rewrite (Htime Hday). apply settle_kept.
      apply Hkeep; [apply nextDay_valid, Hp| |exact Hnext].
      rewrite Date_leb_ordinal by auto using nextDay_valid.
      apply Z.leb_le. pose proof (ordinal_nextDay (dayOf p) Hp). lia.
    + apply keepsMidnight_nextDay; assumption.
Qed.

(** The walk from a date. *)
Lemma walkDays_bounds zone lastDay : validDate lastDay -> forall s, validDate s ->
  Forall (fun d => validDate d /\ ordinal s <= ordinal d <= ordinal lastDay)
         (walkDays zone s lastDay).
Proof. intros Hl s Hs. apply (walkFrom_bounds zone lastDay Hl (momentOf zone s) Hs). Qed.

Lemma walkDays_valid zone first lastDay :
  validDate first -> validDate lastDay -> Forall validDate (walkDays zone first lastDay).
Proof.
  intros Hf Hl. eapply Forall_impl; [apply walkDays_bounds; assumption|].
  simpl. tauto.
Qed.

Lemma walkDays_keys_NoDup zone lastDay : validDate lastDay -> forall s, validDate s ->
  NoDup (formatDate <$> walkDays zone s lastDay).
Proof. intros Hl s Hs. apply (walkFrom_keys_NoDup zone lastDay Hl (momentOf zone s) Hs). Qed.

Lemma walkDays_lookup_iter zone lastDay : validDate lastDay -> forall s, validDate s ->
  forall (i : nat) d, walkDays zone s lastDay !! i = Some d -> d = Nat.iter i nextDay s.
Proof.
  intros Hl s Hs. apply (walkFrom_lookup_iter zone lastDay Hl (momentOf zone s) Hs).
Qed.

Lemma walkDays_lookup_before_last zone lastDay : validDate lastDay ->
  forall s, validDate s -> forall i : nat,
  ordinal (Nat.iter i nextDay s) < ordinal lastDay ->
  walkDays zone s lastDay !! i = Some (Nat.iter i nextDay s).
Proof.
  intros Hl s Hs i.
  apply (walkFrom_lookup_before_last zone lastDay Hl i (momentOf zone s) Hs).
Qed.

Lemma walkDays_before_last zone lastDay d : validDate lastDay -> validDate d ->
  forall s, validDate s ->
  ordinal s <= ordinal d < ordinal lastDay -> d ∈ walkDays zone s lastDay.
Proof.
  intros Hl Hd s Hs. apply (walkFrom_before_last zone lastDay Hl d Hd (momentOf zone s) Hs).
Qed.

Lemma walkDays_calendar zone first lastDay :
  validDate first -> validDate lastDay -> keepsMidnight zone first lastDay ->
  walkDays zone first lastDay = calendarDays first lastDay.
Proof.
  intros Hf Hl Hkeep. unfold walkDays.
  rewrite (walkFrom_calendar zone lastDay Hl (momentOf zone first) Hf); [reflexivity| |exact Hkeep].
  intros Hle. cbn [momentOf timeWithinDay]. apply settle_kept.
  apply Hkeep; [exact Hf| |exact Hle].
  rewrite Date_leb_ordinal by assumption. apply Z.leb_le. lia.
Qed.

(** The calendar days from a date to another. *)
Lemma calendarDays_nil first lastDay :
  Date_leb first lastDay = false -> calendarDays first lastDay = [].
Proof.
  intros Hle. apply walkFrom_nil.
  change (momentOf everyMidnight first) with (mkMoment first 0).
  now rewrite Moment_leb_everyMidnight.
Qed.

Lemma calendarDays_cons first lastDay :
  validDate first -> validDate lastDay -> Date_leb first lastDay = true ->
  calendarDays first lastDay = first :: calendarDays (nextDay first) lastDay.
Proof.
  intros Hf Hl Hle. unfold calendarDays, walkDays.
  rewrite (walkFrom_cons everyMidnight lastDay Hl (momentOf everyMidnight first) Hf);
    [reflexivity|].
  change (momentOf everyMidnight first) with (mkMoment first 0).
  now rewrite Moment_leb_everyMidnight.
Qed.

Lemma calendarDays_ind lastDay (P : Date -> list Date -> Prop) :
  validDate lastDay ->
  (forall s, validDate s -> Date_leb s lastDay = false -> P s []) ->
  (forall s, validDate s -> Date_leb s lastDay = true ->
     P (nextDay s) (calendarDays (nextDay s) lastDay) ->
     P s (s :: calendarDays (nextDay s) lastDay)) ->
  forall s, validDate s -> P s (calendarDays s lastDay).
Proof.
  intros Hl Hnil Hcons s Hs.
  remember (daysLeft s lastDay) as n eqn:Hn.
  revert s Hs Hn. induction (lt_wf n) as [n _ IH]. intros s Hs ->.
  destruct (Date_leb s lastDay) eqn:Hle.
  - rewrite calendarDays_cons by assumption. apply Hcons; [assumption..|].
    pose proof (daysLeft_nextDay s lastDay Hs Hl Hle).
    apply (IH (daysLeft (nextDay s) lastDay)); [lia|apply nextDay_valid, Hs|reflexivity].
  - rewrite calendarDays_nil by assumption. apply Hnil; assumption.
Qed.

(** Every calendar day from the first to the last is listed. *)
Lemma calendarDays_complete lastDay d : validDate lastDay -> validDate d ->
  forall s, validDate s ->
  ordinal s <= ordinal d <= ordinal lastDay -> d ∈ calendarDays s lastDay.
Proof.
  intros Hl Hd.
  apply (calendarDays_ind lastDay (fun s l =>
    ordinal s <= ordinal d <= ordinal lastDay -> d ∈ l) Hl).
  - intros s Hs Hle Hb. rewrite Date_leb_ordinal in Hle by assumption.
    apply Z.leb_gt in Hle. lia.
  - intros s Hs Hle IH Hb.
    destruct (Z.eq_dec (ordinal s) (ordinal d)) as [Heq|Hne].
    + apply ordinal_inj in Heq; [|assumption..]. subst. apply list_elem_of_here.
    + apply list_elem_of_further, IH.
      pose proof (ordinal_nextDay_least s d Hs Hd). lia.
Qed.

(** From the first of a month to its last day, the calendar days are the
    days of that month. *)
Lemma calendarDays_month_from y m n : 0 <= m <= 11 -> forall k,
  1 <= k -> k + Z.of_nat n = daysInMonth y m ->
  calendarDays (mkDate y m k) (mkDate y m (daysInMonth y m))
  = List.map (fun i => mkDate y m (Z.of_nat i)) (seq (Z.to_nat k) (S n)).
Proof.
  intros Hm. pose proof (daysInMonth_bounds y m) as Hdim.
  assert (Hl : validDate (mkDate y m (daysInMonth y m))).
  { unfold validDate. simpl. lia. }
  induction n as [|n IH]; intros k Hk Hsum.
  - assert (Hv : validDate (mkDate y m k)) by (unfold validDate; simpl; lia).
    rewrite calendarDays_cons; [|assumption|unfold validDate; simpl; lia|].
    2:{ rewrite Date_leb_ordinal by assumption. apply Z.leb_le.
        unfold ordinal. simpl. lia. }
    rewrite calendarDays_nil.
    + simpl. repeat f_equal. lia.
    + rewrite Date_leb_ordinal; [|apply nextDay_valid, Hv|assumption].
      apply Z.leb_gt. pose proof (ordinal_nextDay _ Hv).
      replace k with (daysInMonth y m) in * by lia. assumption.
  - assert (Hv : validDate (mkDate y m k)) by (unfold validDate; simpl; lia).
    rewrite calendarDays_cons; [|assumption|unfold validDate; simpl; lia|].
    2:{ rewrite Date_leb_ordinal by assumption. apply Z.leb_le.
        unfold ordinal. simpl. lia. }
    assert (Hnext : nextDay (mkDate y m k) = mkDate y m (k + 1)).
    { unfold nextDay. simpl. destruct (Z.ltb_spec k (daysInMonth y m)); [reflexivity|lia]. }
    rewrite Hnext, (IH (k + 1)) by lia.
    replace (Z.to_nat (k + 1)) with (S (Z.to_nat k)) by lia.
    cbn [seq List.map]. repeat f_equal. lia.
Qed.

Lemma calendarDays_month y m :
  0 <= m <= 11 ->
  calendarDays (mkDate y m 1) (mkDate y m (daysInMonth y m)) = monthDays y m.
Proof.
  intros Hm. pose proof (daysInMonth_bounds y m).
  rewrite (calendarDays_month_from y m (Z.to_nat (daysInMonth y m - 1)) Hm 1) by lia.
  unfold monthDays. repeat f_equal. lia.
Qed.

End WalkDays.

Import WalkDays.

(* ===================================================================== *)
(** ** The index map of the roster *)
(* ===================================================================== *)

Module IndexMap.

Lemma setIndices_None ts : forall i m k,
  setIndices ts i m !! k = None <-> m !! k = None /\ Forall (fun t => id t ≠ k) ts.
Proof.
  induction ts as [|t ts IH]; intros i m k; cbn [setIndices].
  - split; [intros H; split; [exact H|constructor]|tauto].
  - rewrite IH. rewrite Forall_cons. rewrite lookup_insert_None. tauto.
Qed.

(** A teacher id is found at the last position that holds it. *)
Lemma setIndices_Some ts : forall i m k v,
  setIndices ts i m !! k = Some v ->
  (m !! k = Some v /\ Forall (fun t => id t ≠ k) ts)
  \/ exists (j : nat) t, ts !! j = Some t /\ id t = k /\ v = i + Z.of_nat j
       /\ Forall (fun t' => id t' ≠ k) (drop (S j) ts).
Proof.
  induction ts as [|t ts IH]; intros i m k v H; cbn [setIndices] in H.
  - left. split; [exact H|constructor].
  - apply IH in H as [[Hm Hall]|(j & t' & Hj & Hid & Hv & Hall)].
    + destruct (decide (id t = k)) as [Heq|Hne].
      * rewrite Heq, lookup_insert_eq in Hm. injection Hm as <-.
        right. exists 0%nat, t. cbn. repeat split; [assumption|lia|assumption].
      * rewrite lookup_insert_ne in Hm by assumption.
        left. split; [assumption|constructor; assumption].
    + right. exists (S j), t'. cbn. repeat split; [assumption..|lia|assumption].
Qed.

Lemma teacherIndexMap_None ts k :
  buildTeacherIndexMap ts !! k = None <-> Forall (fun t => id t ≠ k) ts.
Proof.
  unfold buildTeacherIndexMap. rewrite setIndices_None, lookup_empty. tauto.
Qed.

Lemma teacherIndexMap_Some ts k v :
  buildTeacherIndexMap ts !! k = Some v ->
  exists (j : nat) t, ts !! j = Some t /\ id t = k /\ v = Z.of_nat j
    /\ Forall (fun t' => id t' ≠ k) (drop (S j) ts).
Proof.
  unfold buildTeacherIndexMap. intros H.
  apply setIndices_Some in H as [[Hm _]|(j & t & Hj & Hid & Hv & Hall)].
  - rewrite lookup_empty in Hm. discriminate.
  - exists j, t. repeat split; [assumption..|lia|assumption].
Qed.

Lemma teacherIndexMap_has ts t :
  t ∈ ts -> is_Some (buildTeacherIndexMap ts !! id t).
Proof.
  intros Hin. destruct (buildTeacherIndexMap ts !! id t) eqn:E; [eauto|].
  apply teacherIndexMap_None in E. rewrite Forall_forall in E.
  exfalso. exact (E t Hin eq_refl).
Qed.

Lemma teacherIndexMap_nonneg ts k v :
  buildTeacherIndexMap ts !! k = Some v -> 0 <= v.
Proof. intros H. apply teacherIndexMap_Some in H as (j & t & _ & _ & -> & _). lia. Qed.

End IndexMap.

Import IndexMap.

(* ===================================================================== *)
(** ** One day of the walk, and the walk over a list of days *)
(* ===================================================================== *)

Module WalkFacts.

Lemma bind_Returned {A B} (f : A -> Outcome B) (m : Outcome A) b :
  Outcome_bind f m = Returned b -> exists a, m = Returned a /\ f a = Returned b.
Proof. destruct m; simpl; intros H; [eauto|discriminate..]. Qed.

Lemma truthy_true s : s ≠ ""%string -> truthy s = true.
Proof.
  intros H. unfold truthy. destruct (String.eqb_spec s ""); [contradiction|reflexivity].
Qed.

Section Run.

Variable zone : Zone.
Variable ts : list Teacher.
Variable overrides : gmap string string.
Variable tim : gmap string Z.

Local Abbreviation assign := (assign ts overrides tim).
Local Abbreviation walkBody := (walkBody ts overrides tim).
Local Abbreviation runDays := (runDays ts overrides tim).
Local Abbreviation walkLoop := (walkLoop zone ts overrides tim).

Lemma rotate_nonneg c :
  ts ≠ [] -> 0 <= c ->
  exists t, ts !! Z.to_nat (c mod Z.of_nat (length ts)) = Some t
    /\ rotate ts c = Returned (Some (id t), c + 1).
Proof.
  intros Hne Hc. unfold rotate, teacherIdAt.
  assert (Hlen : 0 < Z.of_nat (length ts)) by (destruct ts; [contradiction|simpl; lia]).
  rewrite Z.rem_mod_nonneg by lia.
  pose proof (Z.mod_pos_bound c (Z.of_nat (length ts)) Hlen) as Hb.
  destruct (Z.ltb_spec (c mod Z.of_nat (length ts)) 0); [lia|].
  destruct (lookup_lt_is_Some_2 ts (Z.to_nat (c mod Z.of_nat (length ts)))) as [t Ht];
    [lia|].
  exists t. rewrite Ht. split; reflexivity.
Qed.

Lemma assign_none key c : overrides !! key = None -> assign key c = rotate ts c.
Proof. intros H. unfold Generator.assign. now rewrite H. Qed.

Lemma assign_falsy key c :
  overrides !! key = Some ""%string -> assign key c = rotate ts c.
Proof. intros H. unfold Generator.assign. now rewrite H. Qed.

Lemma assign_sentinel key c :
  overrides !! key = Some EMPTY -> assign key c = Returned (None, c).
Proof. intros H. unfold Generator.assign. now rewrite H. Qed.

Lemma assign_teacher key c v i :
  overrides !! key = Some v -> v ≠ ""%string -> v ≠ EMPTY -> tim !! v = Some i ->
  assign key c = Returned (Some v, i + 1).
Proof.
  intros H Hv He Hi. unfold Generator.assign. rewrite H, truthy_true by assumption.
  destruct (String.eqb_spec v EMPTY); [contradiction|]. now rewrite Hi.
Qed.

Lemma assign_stale key c v :
  overrides !! key = Some v -> v ≠ ""%string -> tim !! v = None ->
  assign key c = Returned (None, c).
Proof.
  intros H Hv Hi. unfold Generator.assign. rewrite H, truthy_true by assumption.
  destruct (String.eqb v EMPTY); [reflexivity|]. now rewrite Hi.
Qed.

Lemma walkBody_assign d st v c' :
  assign (formatDate d) (teacherCycleIndex st) = Returned (v, c') ->
  walkBody d st
  = Returned {| teacherCycleIndex := c';
                fullSchedule := <[formatDate d := v]> (fullSchedule st) |}.
Proof. intros H. unfold Generator.walkBody. now rewrite H. Qed.

Lemma walkBody_inv d st st' :
  walkBody d st = Returned st' ->
  exists v c', assign (formatDate d) (teacherCycleIndex st) = Returned (v, c')
    /\ st' = {| teacherCycleIndex := c';
                fullSchedule := <[formatDate d := v]> (fullSchedule st) |}.
Proof.
  unfold Generator.walkBody. intros H.
  apply bind_Returned in H as ([v c'] & Ha & Hr). injection Hr as <-. eauto.
Qed.

Lemma runDays_app pre post st :
  runDays (pre ++ post) st = let! st' := runDays pre st in runDays post st'.
Proof.
  revert st. induction pre as [|d pre IH]; intros st; cbn [Generator.runDays app].
  - reflexivity.
  - destruct (walkBody d st); cbn [Outcome_bind]; [apply IH|reflexivity..].
Qed.

(** The loop with enough fuel visits the days of [walkDates] and stops. *)
Lemma walkLoop_walkDates lastDay : validDate lastDay -> forall fuel ptr st,
  validDate (dayOf ptr) -> (daysLeft (dayOf ptr) lastDay < fuel)%nat ->
  walkLoop fuel (momentOf zone lastDay) ptr st
  = runDays (walkDates zone fuel (momentOf zone lastDay) ptr) st.
Proof.
  intros Hl. induction fuel as [|fuel IH]; intros ptr st Hp Hfuel; [lia|].
  cbn [Generator.walkLoop walkDates].
  destruct (Moment_leb ptr (momentOf zone lastDay)) eqn:Hle; [|reflexivity].
  cbn [Generator.runDays].
  pose proof (daysLeft_nextDay (dayOf ptr) lastDay Hp Hl (Moment_leb_day _ _ Hle)).
  destruct (walkBody (dayOf ptr) st); cbn [Outcome_bind]; [|reflexivity..].
  apply IH; cbn [setNextDate dayOf]; [apply nextDay_valid, Hp|lia].
Qed.

Lemma walkLoop_walkDays first lastDay st :
  validDate first -> validDate lastDay ->
  walkLoop (walkFuel first lastDay) (momentOf zone lastDay) (momentOf zone first) st
  = runDays (walkDays zone first lastDay) st.
Proof.
  intros Hf Hl. unfold walkDays, walkFrom. apply walkLoop_walkDates; [assumption..|].
  cbn [momentOf dayOf]. unfold walkFuel, daysLeft. lia.
Qed.

(** A day of the walk writes its own key only. *)
Lemma runDays_untouched days : forall st st' key,
  runDays days st = Returned st' -> key ∉ formatDate <$> days ->
  fullSchedule st' !! key = fullSchedule st !! key.
Proof.
  induction days as [|d days IH]; intros st st' key Hrun Hkey; cbn [Generator.runDays] in Hrun.
  - now injection Hrun as <-.
  - apply bind_Returned in Hrun as (s1 & Hbody & Hrun).
    rewrite fmap_cons in Hkey. apply not_elem_of_cons in Hkey as [Hne Hkey].
    rewrite (IH _ _ _ Hrun Hkey).
    apply walkBody_inv in Hbody as (v & c' & _ & ->). cbn.
    now rewrite lookup_insert_ne by congruence.
Qed.

(** What the walk does to the cursor and to the keys of its days does not
    depend on the schedule it starts from. *)
Lemma runDays_frame days : forall c m,
  runDays days {| teacherCycleIndex := c; fullSchedule := m |}
  = let! r := runDays days {| teacherCycleIndex := c; fullSchedule := ∅ |} in
    Returned {| teacherCycleIndex := teacherCycleIndex r;
                fullSchedule := fullSchedule r ∪ m |}.
Proof.
  induction days as [|d days IH]; intros c m; cbn [Generator.runDays Outcome_bind].
  - cbn. now rewrite (left_id_L ∅ (∪)).
  - unfold Generator.walkBody. cbn [teacherCycleIndex fullSchedule].
    destruct (assign (formatDate d) c) as [[v c']| |]; cbn [Outcome_bind]; [|reflexivity..].
    cbn [fst snd]. rewrite IH.
    rewrite (IH c' (<[formatDate d := v]> ∅)).
    destruct (runDays days _) as [r| |]; cbn [Outcome_bind]; [|reflexivity..].
    cbn. do 2 f_equal.
    rewrite insert_empty, <- (assoc_L (∪)), <- insert_union_singleton_l. reflexivity.
Qed.

Lemma runDays_present days : forall st st' key,
  runDays days st = Returned st' -> key ∈ formatDate <$> days ->
  is_Some (fullSchedule st' !! key).
Proof.
  induction days as [|d days IH]; intros st st' key Hrun Hkey; cbn [Generator.runDays] in Hrun.
  - rewrite fmap_nil in Hkey. apply elem_of_nil in Hkey. contradiction.
  - apply bind_Returned in Hrun as (s1 & Hbody & Hrun).
    destruct (decide (key ∈ formatDate <$> days)) as [Hin|Hnin].
    + eapply IH; eassumption.
    + rewrite (runDays_untouched _ _ _ _ Hrun Hnin).
      rewrite fmap_cons in Hkey. apply elem_of_cons in Hkey as [->|Hin]; [|contradiction].
      apply walkBody_inv in Hbody as (v & c' & _ & ->). cbn.
      rewrite lookup_insert_eq. eauto.
Qed.

(** The entry of a visited day is the assignment made on that day. *)
Lemma runDays_assigned pre d post st st' :
  NoDup (formatDate <$> (pre ++ d :: post)) ->
  runDays (pre ++ d :: post) st = Returned st' ->
  exists s1 v c', runDays pre st = Returned s1
    /\ assign (formatDate d) (teacherCycleIndex s1) = Returned (v, c')
    /\ runDays (pre ++ [d]) st
       = Returned {| teacherCycleIndex := c';
                     fullSchedule := <[formatDate d := v]> (fullSchedule s1) |}
    /\ fullSchedule st' !! formatDate d = Some v.
Proof.
  intros Hnd Hrun. rewrite runDays_app in Hrun.
  apply bind_Returned in Hrun as (s1 & Hpre & Hrun).
  cbn [Generator.runDays] in Hrun.
  apply bind_Returned in Hrun as (s2 & Hbody & Hpost).
  pose proof Hbody as Hbody'.
  apply walkBody_inv in Hbody as (v & c' & Ha & ->).
  exists s1, v, c'. repeat split; [assumption..| |].
  - rewrite runDays_app, Hpre. cbn [Outcome_bind Generator.runDays].
    rewrite Hbody'. reflexivity.
  - rewrite fmap_app, fmap_cons in Hnd.
    apply NoDup_app in Hnd as (_ & _ & Hnd). apply NoDup_cons in Hnd as [Hnin _].
    rewrite (runDays_untouched _ _ _ _ Hpost Hnin). cbn.
    now rewrite lookup_insert_eq.
Qed.

(** With a roster that is not empty the walk does not throw, and the
    cursor never goes below zero. *)
Hypothesis ts_nonempty : ts ≠ [].
Hypothesis tim_nonneg : forall k i, tim !! k = Some i -> 0 <= i.

Lemma assign_returns key c :
  0 <= c -> exists v c', assign key c = Returned (v, c') /\ 0 <= c'.
Proof.
  intros Hc. unfold Generator.assign.
  destruct (rotate_nonneg c ts_nonempty Hc) as (t & _ & Hrot).
  destruct (overrides !! key) as [v|]; [|rewrite Hrot; eexists _, _; split; [reflexivity|lia]].
  destruct (truthy v); [|rewrite Hrot; eexists _, _; split; [reflexivity|lia]].
  destruct (String.eqb v EMPTY); [eexists _, _; split; [reflexivity|lia]|].
  destruct (tim !! v) as [i|] eqn:Hi; [|eexists _, _; split; [reflexivity|lia]].
  apply tim_nonneg in Hi. eexists _, _; split; [reflexivity|lia].
Qed.

Lemma runDays_returns days : forall st,
  0 <= teacherCycleIndex st ->
  exists st', runDays days st = Returned st' /\ 0 <= teacherCycleIndex st'.
Proof.
  induction days as [|d days IH]; intros st Hc; cbn [Generator.runDays].
  - eauto.
  - destruct (assign_returns (formatDate d) _ Hc) as (v & c' & Ha & Hc').
    rewrite (walkBody_assign _ _ _ _ Ha). cbn [Outcome_bind]. apply IH. exact Hc'.
Qed.

End Run.

End WalkFacts.

Import WalkFacts.

(* ===================================================================== *)
(** ** The generator as a walk over the days from the start date *)
(* ===================================================================== *)

Module GeneratorFacts.

Lemma Date_gtb_leb a b :
  validDate a -> validDate b -> Date_gtb a b = negb (Date_leb a b).
Proof.
  intros Ha Hb. unfold Date_gtb.
  rewrite Date_ltb_ordinal, Date_leb_ordinal by assumption.
  destruct (Z.ltb_spec (ordinal b) (ordinal a)), (Z.leb_spec (ordinal a) (ordinal b));
    simpl; (reflexivity || lia).
Qed.

Lemma globalStartDate_valid sy sm sd : validDate (globalStartDate sy sm sd).
Proof. apply newDate_valid. Qed.

Lemma lastDayOfVisibleMonth_valid cy cm : validDate (lastDayOfVisibleMonth cy cm).
Proof. apply newDate_valid. Qed.

#[local] Hint Resolve globalStartDate_valid lastDayOfVisibleMonth_valid : core.

(** The days of the visible month are calendar days up to its last day. *)
Lemma monthDates_bounds cy cm monthDates d :
  getDatesInMonth cy cm = Returned monthDates -> d ∈ monthDates ->
  validDate d /\ ordinal d <= ordinal (lastDayOfVisibleMonth cy cm).
Proof.
  intros Hget Hin. destruct (decide (0 <= cm <= 11)) as [Hm|Hm].
  - rewrite getDatesInMonth_month in Hget by assumption. injection Hget as <-.
    unfold lastDayOfVisibleMonth. rewrite newDate_last by assumption.
    unfold monthDays in Hin.
    apply list_elem_of_In, in_map_iff in Hin as (i & <- & Hi). apply in_seq in Hi.
    unfold validDate, ordinal. simpl. lia.
  - rewrite getDatesInMonth_other in Hget by assumption. injection Hget as <-.
    apply elem_of_nil in Hin. contradiction.
Qed.

Lemma shiftOf_before start sched d :
  Date_ltb d start = true -> shiftOf start sched d = nullShift d.
Proof. intros H. unfold shiftOf. now rewrite H. Qed.

Lemma shiftOf_walked start sched d v :
  Date_ltb d start = false -> sched !! formatDate d = Some v ->
  shiftOf start sched d = mkShift (formatDate d) v.
Proof. intros H Hv. unfold shiftOf. now rewrite H, Hv. Qed.

Section Generate.

Variable zone : Zone.
Variable ts : list Teacher.
Variables sy sm sd : Z.
Variable overrides : gmap string string.
Variables cy cm : Z.

Local Abbreviation start := (globalStartDate sy sm sd).
Local Abbreviation lastDay := (lastDayOfVisibleMonth cy cm).
Local Abbreviation generate := (generateSchedule zone ts sy sm sd overrides cy cm).

Lemma generateSchedule_not_started :
  Date_gtb start lastDay = true ->
  exists monthDates, getDatesInMonth cy cm = Returned monthDates
    /\ generate = Returned (List.map nullShift monthDates).
Proof.
  intros Hgt. destruct (getDatesInMonth_returns cy cm) as (monthDates & Hget & _).
  exists monthDates. split; [assumption|].
  unfold generateSchedule. rewrite Hgt, Hget. reflexivity.
Qed.

Hypothesis ts_nonempty : ts ≠ [].

Lemma stateAfter_returns days :
  exists st, stateAfter ts overrides days = Returned st /\ 0 <= teacherCycleIndex st.
Proof.
  apply runDays_returns; [assumption|apply teacherIndexMap_nonneg|simpl; lia].
Qed.

Lemma generateSchedule_started :
  Date_gtb start lastDay = false ->
  exists monthDates st, getDatesInMonth cy cm = Returned monthDates
    /\ stateAfter ts overrides (walkDays zone start lastDay) = Returned st
    /\ generate = Returned (List.map (shiftOf start (fullSchedule st)) monthDates).
Proof.
  intros Hgt. destruct (getDatesInMonth_returns cy cm) as (monthDates & Hget & _).
  destruct (stateAfter_returns (walkDays zone start lastDay)) as (st & Hst & _).
  exists monthDates, st. repeat split; [assumption..|].
  unfold generateSchedule. rewrite Hgt.
  rewrite walkLoop_walkDays by auto.
  unfold stateAfter in Hst. rewrite Hst. cbn [Outcome_bind]. rewrite Hget. reflexivity.
Qed.

(** With a roster that is not empty the generator returns a list of shifts. *)
Lemma generateSchedule_returns :
  exists monthDates shifts, getDatesInMonth cy cm = Returned monthDates
    /\ generate = Returned shifts /\ length shifts = length monthDates.
Proof.
  destruct (Date_gtb start lastDay) eqn:Hgt.
  - destruct (generateSchedule_not_started Hgt) as (monthDates & Hget & Hgen).
    exists monthDates, (List.map nullShift monthDates).
    repeat split; [assumption..|apply length_map].
  - destruct (generateSchedule_started Hgt) as (monthDates & st & Hget & _ & Hgen).
    exists monthDates, (List.map (shiftOf start (fullSchedule st)) monthDates).
    repeat split; [assumption..|apply length_map].
Qed.

(** What the generator does on a day [d] of the walk, visited after the
    days [pre]. *)
Lemma generateSchedule_day pre d post :
  walkDays zone start lastDay = pre ++ d :: post ->
  exists monthDates shifts st s1 v c',
    getDatesInMonth cy cm = Returned monthDates
    /\ generate = Returned shifts
    /\ stateAfter ts overrides (walkDays zone start lastDay) = Returned st
    /\ stateAfter ts overrides pre = Returned s1
    /\ 0 <= teacherCycleIndex s1
    /\ assign ts overrides (buildTeacherIndexMap ts) (formatDate d) (teacherCycleIndex s1)
       = Returned (v, c')
    /\ stateAfter ts overrides (pre ++ [d])
       = Returned {| teacherCycleIndex := c';
                     fullSchedule := <[formatDate d := v]> (fullSchedule s1) |}
    /\ fullSchedule st !! formatDate d = Some v
    /\ forall j : nat, monthDates !! j = Some d ->
         shifts !! j = Some (mkShift (formatDate d) v).
Proof.
  intros Hwalk.
  assert (Hle : Date_leb start lastDay = true).
  { destruct (Date_leb start lastDay) eqn:E; [reflexivity|].
    pose proof (walkDays_bounds zone lastDay (lastDayOfVisibleMonth_valid cy cm) start
                  (globalStartDate_valid sy sm sd)) as Hb.
    rewrite Hwalk, Forall_app, Forall_cons in Hb. destruct Hb as (_ & [_ Hord] & _).
    rewrite Date_leb_ordinal in E by auto. apply Z.leb_gt in E. lia. }
  assert (Hgt : Date_gtb start lastDay = false) by (rewrite Date_gtb_leb, Hle; auto).
  destruct (generateSchedule_started Hgt) as (monthDates & st & Hget & Hst & Hgen).
  pose proof (walkDays_keys_NoDup zone lastDay (lastDayOfVisibleMonth_valid cy cm) start
                (globalStartDate_valid sy sm sd)) as Hnd.
  rewrite Hwalk in Hnd, Hst. unfold stateAfter in Hst.
  destruct (runDays_assigned _ _ _ _ _ _ _ _ Hnd Hst) as (s1 & v & c' & Hpre & Ha & Hd & Hv).
  destruct (stateAfter_returns pre) as (s1' & Hpre' & Hc).
  unfold stateAfter in Hpre'. rewrite Hpre in Hpre'. injection Hpre' as <-.
  exists monthDates, (List.map (shiftOf start (fullSchedule st)) monthDates), st, s1, v, c'.
  rewrite Hwalk. repeat split; try assumption.
  intros j Hj. rewrite list_lookup_fmap, Hj. cbn. f_equal.
  apply shiftOf_walked; [|assumption].
  pose proof (walkDays_bounds zone lastDay (lastDayOfVisibleMonth_valid cy cm) start
                (globalStartDate_valid sy sm sd)) as Hb.
  rewrite Hwalk, Forall_app, Forall_cons in Hb. destruct Hb as (_ & [Hdv Hord] & _).
  rewrite Date_ltb_ordinal by auto. apply Z.ltb_ge. lia.
Qed.

(** A day of the visible month that is not before the start date is a day
    of the walk, when it is not the last day of the month, and in any case
    when no midnight from the start date to that last day is skipped. *)
Lemma monthDate_walked monthDates (j : nat) d :
  getDatesInMonth cy cm = Returned monthDates -> monthDates !! j = Some d ->
  Date_ltb d start = false ->
  Date_ltb d lastDay = true \/ keepsMidnight zone start lastDay ->
  d ∈ walkDays zone start lastDay.
Proof.
  intros Hget Hj Hlt Hcase.
  destruct (monthDates_bounds cy cm monthDates d Hget) as [Hd Hord].
  { eapply list_elem_of_lookup_2, Hj. }
  rewrite Date_ltb_ordinal in Hlt by auto. apply Z.ltb_ge in Hlt.
  destruct Hcase as [Hbefore|Hkeep].
  - rewrite Date_ltb_ordinal in Hbefore by auto. apply Z.ltb_lt in Hbefore.
    apply walkDays_before_last; auto.
  - rewrite walkDays_calendar by auto. apply calendarDays_complete; auto.
Qed.

(** A day that the walk does not visit has no entry in the schedule. *)
Lemma stateAfter_unvisited days st d :
  stateAfter ts overrides days = Returned st -> validDate d ->
  Forall validDate days -> d ∉ days ->
  fullSchedule st !! formatDate d = None.
Proof.
  intros Hst Hd Hvalid Hnin. unfold stateAfter in Hst.
  rewrite (runDays_untouched ts overrides _ days _ _ (formatDate d) Hst).
  - apply lookup_empty.
  - intros Hin. apply list_elem_of_fmap in Hin as (x & Heq & Hx).
    rewrite Forall_forall in Hvalid.
    apply formatDate_inj in Heq; [|auto..]. subst x. contradiction.
Qed.

End Generate.

(** The walk visits calendar days from the start date to the last day of
    the visible month, and no other; it visits every such day before the
    last one, and the last one too where no midnight is skipped. *)
Lemma walkDays_visits zone sy sm sd cy cm d :
  (d ∈ walkDays zone (globalStartDate sy sm sd) (lastDayOfVisibleMonth cy cm)
   -> validDate d
      /\ Date_leb (globalStartDate sy sm sd) d = true
      /\ Date_leb d (lastDayOfVisibleMonth cy cm) = true)
  /\ (validDate d -> Date_leb (globalStartDate sy sm sd) d = true ->
      Date_ltb d (lastDayOfVisibleMonth cy cm) = true ->
      d ∈ walkDays zone (globalStartDate sy sm sd) (lastDayOfVisibleMonth cy cm))
  /\ (validDate d -> Date_leb (globalStartDate sy sm sd) d = true ->
      Date_leb d (lastDayOfVisibleMonth cy cm) = true ->
      keepsMidnight zone (globalStartDate sy sm sd) (lastDayOfVisibleMonth cy cm) ->
      d ∈ walkDays zone (globalStartDate sy sm sd) (lastDayOfVisibleMonth cy cm)).
Proof.
  split; [|split].
  - intros Hin.
    pose proof (walkDays_bounds zone _ (lastDayOfVisibleMonth_valid cy cm) _
                  (globalStartDate_valid sy sm sd)) as Hb.
    rewrite Forall_forall in Hb. destruct (Hb d Hin) as [Hd Hord].
    rewrite !Date_leb_ordinal by auto. split; [assumption|]. split; apply Z.leb_le; lia.
  - intros Hd H1 H2. rewrite Date_leb_ordinal in H1 by auto.
    rewrite Date_ltb_ordinal in H2 by auto.
    apply Z.leb_le in H1. apply Z.ltb_lt in H2. apply walkDays_before_last; auto.
  - intros Hd H1 H2 Hkeep. rewrite !Date_leb_ordinal in * by auto.
    apply Z.leb_le in H1, H2. rewrite walkDays_calendar by auto.
    apply calendarDays_complete; auto.
Qed.

End GeneratorFacts.

Import GeneratorFacts.

(* ===================================================================== *)
(** ** Days without override and days with an inert override *)
(* ===================================================================== *)

Module RotationFacts.

Lemma mod_to_nat (i n : nat) :
  n ≠ 0%nat -> Z.to_nat (Z.of_nat i mod Z.of_nat n) = (i mod n)%nat.
Proof. intros Hn. rewrite <- Nat2Z.inj_mod. apply Nat2Z.id. Qed.

Section Rotation.

Variable ts : list Teacher.
Variable overrides : gmap string string.

Local Abbreviation tim := (buildTeacherIndexMap ts).

Lemma assign_noOverride d c :
  noOverride overrides d -> assign ts overrides tim (formatDate d) c = rotate ts c.
Proof. intros [H|H]; [apply assign_none|apply assign_falsy]; exact H. Qed.

Lemma assign_inert d c :
  inertOverride ts overrides d ->
  assign ts overrides tim (formatDate d) c = Returned (None, c).
Proof.
  intros (v & Hv & Hne & [->|Hstale]).
  - apply assign_sentinel, Hv.
  - eapply assign_stale; [exact Hv|exact Hne|]. apply teacherIndexMap_None, Hstale.
Qed.

Lemma runDays_inert_cursor days : forall st st',
  Forall (inertOverride ts overrides) days ->
  runDays ts overrides tim days st = Returned st' ->
  teacherCycleIndex st' = teacherCycleIndex st.
Proof.
  induction days as [|d days IH]; intros st st' Hall Hrun; cbn [runDays] in Hrun.
  - now injection Hrun as <-.
  - apply Forall_cons in Hall as [Hd Hall].
    rewrite (walkBody_assign _ _ _ _ _ _ _ (assign_inert d _ Hd)) in Hrun.
    cbn [Outcome_bind] in Hrun. now rewrite (IH _ _ Hall Hrun).
Qed.

Lemma runDays_rotation_cursor days : forall st st',
  Forall (noOverride overrides) days ->
  runDays ts overrides tim days st = Returned st' ->
  teacherCycleIndex st' = teacherCycleIndex st + Z.of_nat (length days).
Proof.
  induction days as [|d days IH]; intros st st' Hall Hrun; cbn [runDays] in Hrun.
  - injection Hrun as <-. simpl. lia.
  - apply Forall_cons in Hall as [Hd Hall].
    apply bind_Returned in Hrun as (s1 & Hbody & Hrun).
    apply walkBody_inv in Hbody as (v & c' & Ha & ->).
    rewrite (assign_noOverride d _ Hd) in Ha. unfold rotate in Ha.
    apply bind_Returned in Ha as (tid & _ & Ha). injection Ha as _ <-.
    rewrite (IH _ _ Hall Hrun). cbn [teacherCycleIndex length]. lia.
Qed.

(** The three things a day can do to the cursor. *)
Lemma assign_cursor_cases key c v c' :
  assign ts overrides tim key c = Returned (v, c') ->
  c' = c \/ c' = c + 1
  \/ exists (i : nat) t, ts !! i = Some t /\ c' = Z.of_nat i + 1.
Proof.
  assert (Hrot : forall r, rotate ts c = Returned r -> r.2 = c + 1).
  { intros r Hr. unfold rotate in Hr. apply bind_Returned in Hr as (tid & _ & Hr).
    now injection Hr as <-. }
  unfold assign. intros H.
  destruct (overrides !! key) as [o|]; [|right; left; exact (Hrot _ H)].
  destruct (truthy o); [|right; left; exact (Hrot _ H)].
  destruct (String.eqb o EMPTY); [injection H as _ <-; now left|].
  destruct (tim !! o) as [iz|] eqn:Hiz; [|injection H as _ <-; now left].
  injection H as _ <-.
  apply teacherIndexMap_Some in Hiz as (i & t & Hi & _ & -> & _).
  right; right. eauto.
Qed.

End Rotation.

End RotationFacts.

Import RotationFacts.

(* ===================================================================== *)
(** ** Walks that differ in the schedule they start from, or in the map *)
(* ===================================================================== *)

Module OverrideFacts.

Lemma runDays_same_cursor ts overrides tim days c m1 m2 st1 :
  runDays ts overrides tim days {| teacherCycleIndex := c; fullSchedule := m1 |}
  = Returned st1 ->
  exists st2,
    runDays ts overrides tim days {| teacherCycleIndex := c; fullSchedule := m2 |}
    = Returned st2
    /\ teacherCycleIndex st2 = teacherCycleIndex st1
    /\ forall key, key ∈ formatDate <$> days ->
         fullSchedule st2 !! key = fullSchedule st1 !! key.
Proof.
  rewrite (runDays_frame ts overrides tim days c m1).
  rewrite (runDays_frame ts overrides tim days c m2).
  intros Hrun. apply bind_Returned in Hrun as (r & Hr & Hst). injection Hst as <-.
  rewrite Hr. cbn [Outcome_bind]. eexists. split; [reflexivity|]. split; [reflexivity|].
  intros key Hkey. cbn [fullSchedule].
  destruct (runDays_present ts overrides tim days _ _ key Hr Hkey) as [x Hx].
  now rewrite !(lookup_union_Some_l _ _ _ _ Hx).
Qed.

Lemma assign_lookup_ext ts o1 o2 tim key c :
  o1 !! key = o2 !! key -> assign ts o1 tim key c = assign ts o2 tim key c.
Proof. intros H. unfold assign. now rewrite H. Qed.

Lemma runDays_ext ts o1 o2 tim days : forall st,
  Forall (fun d => o1 !! formatDate d = o2 !! formatDate d) days ->
  runDays ts o1 tim days st = runDays ts o2 tim days st.
Proof.
  induction days as [|d days IH]; intros st Hall; cbn [runDays]; [reflexivity|].
  apply Forall_cons in Hall as [Hd Hall].
  unfold walkBody. rewrite (assign_lookup_ext ts o1 o2 tim _ _ Hd).
  destruct (assign ts o2 tim (formatDate d) (teacherCycleIndex st)) as [r| |];
    cbn [Outcome_bind]; [apply IH, Hall|reflexivity..].
Qed.

(** Changing the entry of one day of the walk leaves the entries of the
    other days of the walk as they are. *)
Lemma walkDays_other_keys zone sy sm sd cy cm pre d post (o : gmap string string) v :
  walkDays zone (globalStartDate sy sm sd) (lastDayOfVisibleMonth cy cm) = pre ++ d :: post ->
  Forall (fun x => o !! formatDate x = <[formatDate d := v]> o !! formatDate x)
         (pre ++ post).
Proof.
  intros Hwalk.
  pose proof (walkDays_keys_NoDup zone _ (lastDayOfVisibleMonth_valid cy cm) _
                (globalStartDate_valid sy sm sd)) as Hnd.
  rewrite Hwalk, fmap_app, fmap_cons in Hnd.
  apply NoDup_app in Hnd as (_ & Hpre & Hnd). apply NoDup_cons in Hnd as [Hpost _].
  apply Forall_forall. intros x Hx. rewrite lookup_insert_ne; [reflexivity|].
  intros Heq. apply elem_of_app in Hx as [Hx|Hx].
  - apply (Hpre (formatDate x)); [apply list_elem_of_fmap_2, Hx|].
    rewrite <- Heq. apply list_elem_of_here.
  - apply Hpost. rewrite Heq. apply list_elem_of_fmap_2, Hx.
Qed.

(** The marker of an emptied day in the place of an inert override changes
    nothing, on any list of days. *)
Lemma runDays_inert_marker ts (overrides : gmap string string) d days : forall st,
  validDate d -> Forall validDate days -> inertOverride ts overrides d ->
  runDays ts overrides (buildTeacherIndexMap ts) days st
  = runDays ts (<[formatDate d := EMPTY]> overrides) (buildTeacherIndexMap ts) days st.
Proof.
  intros st Hd Hvalid Hinert. revert st.
  induction days as [|x days IH]; intros st; cbn [runDays]; [reflexivity|].
  apply Forall_cons in Hvalid as [Hx Hvalid]. unfold walkBody.
  assert (Ha : assign ts overrides (buildTeacherIndexMap ts) (formatDate x)
                 (teacherCycleIndex st)
               = assign ts (<[formatDate d := EMPTY]> overrides) (buildTeacherIndexMap ts)
                   (formatDate x) (teacherCycleIndex st)).
  { destruct (decide (x = d)) as [->|Hne].
    - rewrite (assign_inert ts overrides d _ Hinert).
      now rewrite (assign_sentinel ts (<[formatDate d := EMPTY]> overrides) _ _ _
                     (lookup_insert_eq _ _ _)).
    - apply assign_lookup_ext. rewrite lookup_insert_ne; [reflexivity|].
      intros Heq. apply formatDate_inj in Heq; [|assumption..]. congruence. }
  rewrite Ha.
  destruct (assign ts (<[formatDate d := EMPTY]> overrides) _ _ _) as [r| |];
    cbn [Outcome_bind]; [apply IH, Hvalid|reflexivity..].
Qed.

Lemma generateSchedule_inert_marker zone ts sy sm sd (overrides : gmap string string)
    cy cm d :
  validDate d -> inertOverride ts overrides d ->
  generateSchedule zone ts sy sm sd (<[formatDate d := EMPTY]> overrides) cy cm
  = generateSchedule zone ts sy sm sd overrides cy cm.
Proof.
  intros Hd Hinert. unfold generateSchedule.
  destruct (Date_gtb (globalStartDate sy sm sd) (lastDayOfVisibleMonth cy cm));
    [reflexivity|].
  rewrite !walkLoop_walkDays
    by (apply globalStartDate_valid || apply lastDayOfVisibleMonth_valid).
  rewrite <- (runDays_inert_marker ts overrides d); [reflexivity|exact Hd| |exact Hinert].
  apply walkDays_valid; [apply globalStartDate_valid|apply lastDayOfVisibleMonth_valid].
Qed.

(** A day of the visible month with an inert override is shown without
    teacher, whether the loop visits it or not. *)
Lemma generateSchedule_inert_day zone ts sy sm sd (overrides : gmap string string) cy cm
    monthDates (j : nat) d :
  ts ≠ [] -> inertOverride ts overrides d ->
  getDatesInMonth cy cm = Returned monthDates -> monthDates !! j = Some d ->
  exists shifts, generateSchedule zone ts sy sm sd overrides cy cm = Returned shifts
    /\ shifts !! j = Some (mkShift (formatDate d) None).
Proof.
  intros Hne Hinert Hget Hj.
  destruct (Date_gtb (globalStartDate sy sm sd) (lastDayOfVisibleMonth cy cm)) eqn:Hgt.
  - destruct (generateSchedule_not_started zone ts sy sm sd overrides cy cm Hgt)
      as (monthDates' & Hget' & Hgen).
    rewrite Hget in Hget'. injection Hget' as <-.
    eexists. split; [exact Hgen|]. now rewrite list_lookup_fmap, Hj.
  - destruct (decide (d ∈ walkDays zone (globalStartDate sy sm sd)
                            (lastDayOfVisibleMonth cy cm))) as [Hin|Hnin].
    + apply list_elem_of_split in Hin as (pre & post & Hwalk).
      destruct (generateSchedule_day zone ts sy sm sd overrides cy cm Hne _ _ _ Hwalk)
        as (monthDates' & shifts & st & s1 & v & c' & Hget' & Hgen & _ & _ & _ & Ha & _
            & _ & Hshift).
      rewrite Hget in Hget'. injection Hget' as <-.
      rewrite (assign_inert ts overrides d _ Hinert) in Ha. injection Ha as <- _.
      exists shifts. split; [exact Hgen|apply Hshift, Hj].
    + destruct (generateSchedule_started zone ts sy sm sd overrides cy cm Hne Hgt)
        as (monthDates' & st & Hget' & Hst & Hgen).
      rewrite Hget in Hget'. injection Hget' as <-.
      eexists. split; [exact Hgen|].
      rewrite list_lookup_fmap, Hj. cbn. f_equal.
      unfold shiftOf. destruct (Date_ltb d (globalStartDate sy sm sd)); [reflexivity|].
      f_equal.
      rewrite (stateAfter_unvisited ts overrides _ st d Hst); [reflexivity| | |exact Hnin].
      * eapply monthDates_bounds; [exact Hget|]. eapply list_elem_of_lookup_2, Hj.
      * apply walkDays_valid;
          [apply globalStartDate_valid|apply lastDayOfVisibleMonth_valid].
Qed.

End OverrideFacts.

Import OverrideFacts.

(* ===================================================================== *)
(** ** The properties of the specification *)
(* ===================================================================== *)

(** C7. With an empty roster the effect returns one entry per calendar day
    of the visible month, in order, and the assignment of every entry is
    null, whatever the start date and the override map. *)
Theorem empty_roster_all_null (zone : Zone) (sy sm sd : Z) (overrides : gmap string string) (cy cm : Z) :
  0 <= cm <= 11 ->
  exists shifts,
    scheduleEffect zone [] sy sm sd overrides cy cm = Returned shifts
    /\ length shifts = Z.to_nat (daysInMonth (fullYear cy) cm)
    /\ forall i : nat, (i < Z.to_nat (daysInMonth (fullYear cy) cm))%nat ->
         shifts !! i
         = Some (mkShift (formatDate (mkDate (fullYear cy) cm (Z.of_nat i + 1))) None).
Proof.
  intros Hm. exists (List.map nullShift (monthDays (fullYear cy) cm)).
  split; [|split].
  - unfold scheduleEffect. cbn [length Nat.eqb].
    rewrite getDatesInMonth_month by assumption. reflexivity.
  - rewrite length_map. apply monthDays_length.
  - intros i Hi. rewrite list_lookup_fmap, monthDays_lookup by assumption. reflexivity.
Qed.

Lemma empty_roster_all_null_witness :
  0 <= 1 <= 11
  /\ exists shifts,
       scheduleEffect everyMidnight [] 2024 3 15 {[ "2024-02-10"%string := "B"%string ]} 2024 1
       = Returned shifts
       /\ length shifts = Z.to_nat (daysInMonth (fullYear 2024) 1)
       /\ forall i : nat, (i < Z.to_nat (daysInMonth (fullYear 2024) 1))%nat ->
            shifts !! i
            = Some (mkShift (formatDate (mkDate (fullYear 2024) 1 (Z.of_nat i + 1))) None).
Proof.
  split; [lia|].
  apply (empty_roster_all_null everyMidnight 2024 3 15 {[ "2024-02-10"%string := "B"%string ]} 2024 1).
  lia.
Defined.

(** C6. Whatever the roster, the start date and the override map, the
    effect returns one entry per date of the visible month, and every date
    of that month that is before the start date is assigned null, with or
    without an entry for it in the override map.  When the start date is
    after the last day of the visible month, every date of the month is
    assigned null. *)
Theorem before_start_is_null (zone : Zone) (ts : list Teacher) (sy sm sd : Z)
    (overrides : gmap string string) (cy cm : Z) :
  exists monthDates shifts,
    getDatesInMonth cy cm = Returned monthDates
    /\ scheduleEffect zone ts sy sm sd overrides cy cm = Returned shifts
    /\ length shifts = length monthDates
    /\ (forall (j : nat) d, monthDates !! j = Some d ->
          Date_ltb d (globalStartDate sy sm sd) = true ->
          shifts !! j = Some (mkShift (formatDate d) None))
    /\ (Date_gtb (globalStartDate sy sm sd) (lastDayOfVisibleMonth cy cm) = true ->
          shifts = List.map nullShift monthDates).
Proof.
  destruct (getDatesInMonth_returns cy cm) as (monthDates & Hget & _).
  exists monthDates.
  assert (Hnull : forall (j : nat) d, monthDates !! j = Some d ->
            List.map nullShift monthDates !! j = Some (mkShift (formatDate d) None)).
  { intros j d Hj. now rewrite list_lookup_fmap, Hj. }
  unfold scheduleEffect. destruct ts as [|t ts']; cbn [length Nat.eqb].
  - exists (List.map nullShift monthDates).
    split; [exact Hget|]. split; [now rewrite Hget|].
    split; [apply length_map|]. split; [intros j d Hj _; auto|reflexivity].
  - set (ts := t :: ts').
    assert (Hne : ts ≠ []) by discriminate.
    destruct (Date_gtb (globalStartDate sy sm sd) (lastDayOfVisibleMonth cy cm)) eqn:Hgt.
    + destruct (generateSchedule_not_started zone ts sy sm sd overrides cy cm Hgt)
        as (monthDates' & Hget' & Hgen).
      rewrite Hget in Hget'. injection Hget' as <-.
      exists (List.map nullShift monthDates).
      split; [exact Hget|]. split; [exact Hgen|].
      split; [apply length_map|]. split; [intros j d Hj _; auto|reflexivity].
    + destruct (generateSchedule_started zone ts sy sm sd overrides cy cm Hne Hgt)
        as (monthDates' & st & Hget' & _ & Hgen).
      rewrite Hget in Hget'. injection Hget' as <-.
      exists (List.map (shiftOf (globalStartDate sy sm sd) (fullSchedule st)) monthDates).
      split; [exact Hget|]. split; [exact Hgen|].
      split; [apply length_map|]. split; [|discriminate].
      intros j d Hj Hlt. rewrite list_lookup_fmap, Hj. cbn. f_equal.
      apply shiftOf_before, Hlt.
Qed.

Example scenario_override_before_start :
  teacherIds (scheduleEffect everyMidnight [tA; tB; tC] 2024 1 4
                {[ "2024-01-02"%string := "B"%string ]} 2024 0)
  = Returned ([None; None; None]
      ++ List.map Some
           ["A";"B";"C";"A";"B";"C";"A";"B";"C";"A";"B";"C";"A";"B";
            "C";"A";"B";"C";"A";"B";"C";"A";"B";"C";"A";"B";"C";"A"]%string).
Proof. vm_compute. reflexivity. Qed.

(** C8. With a roster that is not empty, the loop of the generator ends
    and returns.  The rotation cursor starts at 0; each day of the walk
    leaves it as it is, adds one to it, or sets it to an index of the roster
    plus one; so after any number of iterations it is not negative,
    [cursor % teachers.length] is an index of the roster, and the read
    [teachers[cursor % teachers.length].id] of the branch without override
    does not fail. *)
Theorem cursor_never_negative (zone : Zone) (ts : list Teacher) (sy sm sd : Z)
    (overrides : gmap string string) (cy cm : Z) :
  ts ≠ [] ->
  (exists shifts, generateSchedule zone ts sy sm sd overrides cy cm = Returned shifts)
  /\ (exists st,
        walkLoop zone ts overrides (buildTeacherIndexMap ts)
          (walkFuel (globalStartDate sy sm sd) (lastDayOfVisibleMonth cy cm))
          (momentOf zone (lastDayOfVisibleMonth cy cm))
          (momentOf zone (globalStartDate sy sm sd)) initialWalkState
        = Returned st
        /\ stateAfter ts overrides
             (walkDays zone (globalStartDate sy sm sd) (lastDayOfVisibleMonth cy cm))
           = Returned st)
  /\ teacherCycleIndex initialWalkState = 0
  /\ (forall visited rest,
        walkDays zone (globalStartDate sy sm sd) (lastDayOfVisibleMonth cy cm) = visited ++ rest ->
        exists st t,
          stateAfter ts overrides visited = Returned st
          /\ 0 <= teacherCycleIndex st
          /\ 0 <= Z.rem (teacherCycleIndex st) (Z.of_nat (length ts)) < Z.of_nat (length ts)
          /\ ts !! Z.to_nat (Z.rem (teacherCycleIndex st) (Z.of_nat (length ts))) = Some t
          /\ teacherIdAt ts (Z.rem (teacherCycleIndex st) (Z.of_nat (length ts)))
             = Returned (id t))
  /\ (forall visited d rest,
        walkDays zone (globalStartDate sy sm sd) (lastDayOfVisibleMonth cy cm)
        = visited ++ d :: rest ->
        exists st st',
          stateAfter ts overrides visited = Returned st
          /\ stateAfter ts overrides (visited ++ [d]) = Returned st'
          /\ (teacherCycleIndex st' = teacherCycleIndex st
              \/ teacherCycleIndex st' = teacherCycleIndex st + 1
              \/ exists (i : nat) t,
                   ts !! i = Some t /\ teacherCycleIndex st' = Z.of_nat i + 1)).
Proof.
  intros Hne. split; [|split; [|split; [|split]]].
  - destruct (generateSchedule_returns zone ts sy sm sd overrides cy cm Hne)
      as (monthDates & shifts & _ & Hgen & _). eauto.
  - rewrite walkLoop_walkDays
      by (apply globalStartDate_valid || apply lastDayOfVisibleMonth_valid).
    destruct (stateAfter_returns ts overrides Hne
                (walkDays zone (globalStartDate sy sm sd) (lastDayOfVisibleMonth cy cm)))
      as (st & Hst & _). eauto.
  - reflexivity.
  - intros visited rest _.
    destruct (stateAfter_returns ts overrides Hne visited) as (st & Hst & Hc).
    destruct (rotate_nonneg ts (teacherCycleIndex st) Hne Hc) as (t & Ht & Hrot).
    assert (Hlen : 0 < Z.of_nat (length ts)) by (destruct ts; [contradiction|simpl; lia]).
    pose proof (Z.mod_pos_bound (teacherCycleIndex st) (Z.of_nat (length ts)) Hlen) as Hb.
    exists st, t. rewrite Z.rem_mod_nonneg by lia.
    split; [exact Hst|]. split; [exact Hc|]. split; [exact Hb|]. split; [exact Ht|].
    unfold teacherIdAt.
    destruct (Z.ltb_spec (teacherCycleIndex st mod Z.of_nat (length ts)) 0); [lia|].
    now rewrite Ht.
  - intros visited d rest Hwalk.
    destruct (generateSchedule_day zone ts sy sm sd overrides cy cm Hne _ _ _ Hwalk)
      as (_ & _ & _ & s1 & v & c' & _ & _ & _ & Hpre & _ & Ha & Hafter & _).
    eexists _, _. split; [exact Hpre|]. split; [exact Hafter|].
    cbn [teacherCycleIndex]. exact (assign_cursor_cases ts overrides _ _ _ _ Ha).
Qed.

Lemma cursor_never_negative_witness :
  [tA; tB] ≠ []
  /\ exists shifts,
       generateSchedule everyMidnight [tA; tB] 2024 1 1 {[ "2024-01-02"%string := "B"%string ]} 2024 0
       = Returned shifts.
Proof.
  split; [discriminate|].
  apply (proj1 (cursor_never_negative everyMidnight [tA; tB] 2024 1 1
                  {[ "2024-01-02"%string := "B"%string ]} 2024 0 ltac:(discriminate))).
Defined.

(** C2.  With a roster of n teachers, n > 0, no override, and the start
    date on the first day of the visible month, the generator returns one
    entry per day of that month.  Day k of the month (k = i + 1 for the
    entry at index i) is assigned the id of [teachers[(k - 1) mod n]] when
    it is not the last day of the month; the last day as well where the
    host's zone skips no midnight of that month.  Where a midnight is
    skipped the claim fails on the last day: in Africa/Cairo, with roster
    [A, B, C] and the start on 2024-04-01, April 30 is given no teacher,
    where the claim says [teachers[29 mod 3]] = C.  The pointer of the loop
    is at 01:00 from April 26 on, which is later than the midnight of
    [lastDayOfVisibleMonth]. *)
Theorem rotation_cycles_from_first_day :
  (forall (zone : Zone) (ts : list Teacher) (sy sm sd cy cm : Z),
     ts ≠ [] -> 0 <= cm <= 11 ->
     globalStartDate sy sm sd = newDate cy cm 1 ->
     exists shifts,
       generateSchedule zone ts sy sm sd ∅ cy cm = Returned shifts
       /\ length shifts = Z.to_nat (daysInMonth (fullYear cy) cm)
       /\ forall i : nat, (i < Z.to_nat (daysInMonth (fullYear cy) cm))%nat ->
            Z.of_nat i + 1 < daysInMonth (fullYear cy) cm
            \/ keepsMidnight zone (newDate cy cm 1) (lastDayOfVisibleMonth cy cm) ->
            exists t, ts !! (i mod length ts)%nat = Some t
              /\ shifts !! i
                 = Some (mkShift (formatDate (mkDate (fullYear cy) cm (Z.of_nat i + 1)))
                                 (Some (id t))))
  /\ teacherIds (generateSchedule cairo2024 [tA; tB; tC] 2024 4 1 ∅ 2024 3)
     = Returned (List.map Some
         ["A";"B";"C";"A";"B";"C";"A";"B";"C";"A";"B";"C";"A";"B";"C";"A";
          "B";"C";"A";"B";"C";"A";"B";"C";"A";"B";"C";"A";"B"]%string ++ [None])
  /\ [tA; tB; tC] !! (29 mod length [tA; tB; tC])%nat = Some tC.
Proof.
  split; [|split; [vm_compute; reflexivity|reflexivity]].
  intros zone ts sy sm sd cy cm Hne Hm Hstart.
  destruct (generateSchedule_returns zone ts sy sm sd ∅ cy cm Hne)
    as (monthDates & shifts & Hget & Hgen & Hlen).
  rewrite getDatesInMonth_month in Hget by assumption. injection Hget as <-.
  exists shifts. split; [exact Hgen|]. split; [now rewrite Hlen, monthDays_length|].
  intros i Hi Hcase.
  pose proof (monthDays_lookup (fullYear cy) cm i Hi) as Hd.
  pose proof (daysInMonth_bounds (fullYear cy) cm) as Hdim.
  assert (Hlast : lastDayOfVisibleMonth cy cm
                  = mkDate (fullYear cy) cm (daysInMonth (fullYear cy) cm))
    by (unfold lastDayOfVisibleMonth; now rewrite newDate_last).
  assert (Hlook : walkDays zone (globalStartDate sy sm sd) (lastDayOfVisibleMonth cy cm) !! i
                  = Some (mkDate (fullYear cy) cm (Z.of_nat i + 1))).
  { destruct Hcase as [Hbefore|Hkeep].
    - rewrite walkDays_lookup_before_last
        by (try apply lastDayOfVisibleMonth_valid; try apply globalStartDate_valid;
            rewrite Hstart, Hlast, newDate_first, iter_nextDay_in_month by lia;
            unfold ordinal; cbn [getFullYear getMonth getDate]; lia).
      rewrite Hstart, newDate_first, iter_nextDay_in_month by lia.
      do 2 f_equal. lia.
    - rewrite walkDays_calendar
        by (try apply lastDayOfVisibleMonth_valid; try apply globalStartDate_valid;
            now rewrite Hstart).
      rewrite Hstart, Hlast, newDate_first, calendarDays_month by assumption. exact Hd. }
  pose proof (take_drop_middle _ _ _ Hlook) as Hwalk. symmetry in Hwalk.
  destruct (generateSchedule_day zone ts sy sm sd ∅ cy cm Hne _ _ _ Hwalk)
    as (monthDates & shifts' & st & s1 & v & c' & Hget & Hgen' & _ & Hpre & Hc & Ha & _ & _ & Hshift).
  rewrite Hgen in Hgen'. injection Hgen' as <-.
  rewrite getDatesInMonth_month in Hget by assumption. injection Hget as <-.
  assert (Hcur : teacherCycleIndex s1 = Z.of_nat i).
  { unfold stateAfter in Hpre.
    rewrite (runDays_rotation_cursor ts ∅ _ _ _
               (Forall_true _ _ (fun d => or_introl (lookup_empty _))) Hpre).
    change (teacherCycleIndex initialWalkState) with 0.
    rewrite length_take. apply lookup_lt_Some in Hlook. lia. }
  rewrite assign_noOverride in Ha by (left; apply lookup_empty).
  destruct (rotate_nonneg ts (teacherCycleIndex s1) Hne Hc) as (t & Ht & Hrot).
  rewrite Hrot in Ha. injection Ha as <- _.
  exists t. split; [|apply Hshift, Hd].
  rewrite Hcur, mod_to_nat in Ht; [exact Ht|]. destruct ts; [contradiction|discriminate].
Qed.

Lemma rotation_cycles_from_first_day_witness :
  [tA; tB; tC] ≠ [] /\ 0 <= 3 <= 11
  /\ globalStartDate 2024 4 1 = newDate 2024 3 1
  /\ exists shifts,
       generateSchedule cairo2024 [tA; tB; tC] 2024 4 1 ∅ 2024 3 = Returned shifts
       /\ length shifts = Z.to_nat (daysInMonth (fullYear 2024) 3)
       /\ forall i : nat, (i < Z.to_nat (daysInMonth (fullYear 2024) 3))%nat ->
            Z.of_nat i + 1 < daysInMonth (fullYear 2024) 3
            \/ keepsMidnight cairo2024 (newDate 2024 3 1) (lastDayOfVisibleMonth 2024 3) ->
            exists t, [tA; tB; tC] !! (i mod length [tA; tB; tC])%nat = Some t
              /\ shifts !! i
                 = Some (mkShift (formatDate (mkDate (fullYear 2024) 3 (Z.of_nat i + 1)))
                                 (Some (id t))).
Proof.
  split; [discriminate|]. split; [lia|]. split; [reflexivity|].
  apply (proj1 rotation_cycles_from_first_day cairo2024 [tA; tB; tC] 2024 4 1 2024 3);
    [discriminate|lia|reflexivity].
Defined.

(** C3, as the code has it.  On a day [d] that the loop visits and whose
    override is the id T of a teacher of the roster, T being neither the
    empty string nor the marker of an emptied day, the generator assigns T
    and sets the cursor to (index of T) + 1, the index being the last
    position of the roster that holds T (the only one when ids are unique).
    This holds for every such day, whatever follows it.  The cursor is
    still (index of T) + 1 after the days [mid] that follow [d], when they
    carry the marker or ids that are not in the roster; and the next
    visited day [e] after them, when it has no override, is assigned
    [teachers[(index of T + 1) mod n]].  (A day between them that names a
    teacher of the roster sets the cursor again.) *)
Theorem override_resets_cursor (zone : Zone) (ts : list Teacher) (sy sm sd : Z)
    (overrides : gmap string string) (cy cm : Z)
    (pre : list Date) (d : Date) (mid rest : list Date) (T : string) :
  ts ≠ [] ->
  walkDays zone (globalStartDate sy sm sd) (lastDayOfVisibleMonth cy cm)
  = pre ++ d :: mid ++ rest ->
  overrides !! formatDate d = Some T ->
  T ≠ ""%string -> T ≠ EMPTY ->
  (exists t, t ∈ ts /\ id t = T) ->
  Forall (inertOverride ts overrides) mid ->
  exists (i : nat) t monthDates shifts sd' smid st,
    ts !! i = Some t /\ id t = T /\ Forall (fun u => id u ≠ T) (drop (S i) ts)
    /\ getDatesInMonth cy cm = Returned monthDates
    /\ generateSchedule zone ts sy sm sd overrides cy cm = Returned shifts
    /\ stateAfter ts overrides (pre ++ [d]) = Returned sd'
    /\ teacherCycleIndex sd' = Z.of_nat i + 1
    /\ stateAfter ts overrides
         (walkDays zone (globalStartDate sy sm sd) (lastDayOfVisibleMonth cy cm))
       = Returned st
    /\ fullSchedule st !! formatDate d = Some (Some T)
    /\ (forall j : nat, monthDates !! j = Some d ->
          shifts !! j = Some (mkShift (formatDate d) (Some T)))
    /\ stateAfter ts overrides (pre ++ d :: mid) = Returned smid
    /\ teacherCycleIndex smid = Z.of_nat i + 1
    /\ forall e post, rest = e :: post -> noOverride overrides e ->
         exists t', ts !! ((i + 1) mod length ts)%nat = Some t'
           /\ fullSchedule st !! formatDate e = Some (Some (id t'))
           /\ forall j : nat, monthDates !! j = Some e ->
                shifts !! j = Some (mkShift (formatDate e) (Some (id t'))).
Proof.
  intros Hne Hwalk Hd HT HE (t0 & Hin & Hid) Hmid.
  destruct (generateSchedule_day zone ts sy sm sd overrides cy cm Hne _ _ _ Hwalk)
    as (monthDates & shifts & st & s1 & v & c' & Hget & Hgen & Hst & Hpre & Hc & Ha & Hafter
        & Hv & Hshift).
  destruct (teacherIndexMap_has ts t0 Hin) as [iz Hiz]. rewrite Hid in Hiz.
  destruct (teacherIndexMap_Some ts T iz Hiz) as (i & t & Hi & Hit & -> & Hlast).
  rewrite (assign_teacher ts overrides _ _ _ _ _ Hd HT HE Hiz) in Ha.
  injection Ha as <- <-.
  destruct (stateAfter_returns ts overrides Hne (pre ++ d :: mid)) as (smid & Hsmid & Hcmid).
  assert (Hcur : teacherCycleIndex smid = Z.of_nat i + 1).
  { pose proof Hsmid as Hrun. unfold stateAfter in Hrun, Hafter.
    replace (pre ++ d :: mid) with ((pre ++ [d]) ++ mid) in Hrun
      by (rewrite <- app_assoc; reflexivity).
    rewrite runDays_app, Hafter in Hrun. cbn [Outcome_bind] in Hrun.
    now rewrite (runDays_inert_cursor ts overrides _ _ _ Hmid Hrun). }
  exists i, t, monthDates, shifts.
  eexists. exists smid, st.
  split; [exact Hi|]. split; [exact Hit|]. split; [exact Hlast|].
  split; [exact Hget|]. split; [exact Hgen|]. split; [exact Hafter|].
  split; [reflexivity|]. split; [exact Hst|]. split; [exact Hv|]. split; [exact Hshift|].
  split; [exact Hsmid|]. split; [exact Hcur|].
  intros e post -> He.
  assert (Hwalk' : walkDays zone (globalStartDate sy sm sd) (lastDayOfVisibleMonth cy cm)
                   = (pre ++ d :: mid) ++ e :: post).
  { rewrite Hwalk, <- app_assoc. reflexivity. }
  destruct (generateSchedule_day zone ts sy sm sd overrides cy cm Hne _ _ _ Hwalk')
    as (monthDates' & shifts' & st' & s2 & ve & ce & Hget' & Hgen' & Hst' & Hpre' & Hc' & Hae
        & _ & Hve & Hshift').
  rewrite Hget in Hget'. injection Hget' as <-.
  rewrite Hgen in Hgen'. injection Hgen' as <-.
  rewrite Hst in Hst'. injection Hst' as <-.
  rewrite Hsmid in Hpre'. injection Hpre' as <-.
  rewrite (assign_noOverride ts overrides e _ He) in Hae.
  destruct (rotate_nonneg ts (teacherCycleIndex smid) Hne Hc') as (t' & Ht' & Hrot).
  rewrite Hrot in Hae. injection Hae as <- _.
  rewrite Hcur in Ht'. replace (Z.of_nat i + 1) with (Z.of_nat (i + 1)) in Ht' by lia.
  rewrite mod_to_nat in Ht' by (destruct ts; [contradiction|discriminate]).
  exists t'. split; [exact Ht'|]. split; [exact Hve|exact Hshift'].
Qed.

Lemma override_resets_cursor_witness :
  [tA; tB; tC] ≠ []
  /\ walkDays cairo2024 (globalStartDate 2024 4 24) (lastDayOfVisibleMonth 2024 3)
     = [mkDate 2024 3 24] ++ mkDate 2024 3 25
         :: [mkDate 2024 3 26; mkDate 2024 3 27] ++ [mkDate 2024 3 28; mkDate 2024 3 29]
  /\ pickThenInert !! formatDate (mkDate 2024 3 25) = Some "B"%string
  /\ Forall (inertOverride [tA; tB; tC] pickThenInert) [mkDate 2024 3 26; mkDate 2024 3 27]
  /\ noOverride pickThenInert (mkDate 2024 3 28)
  /\ exists (i : nat) t monthDates shifts sd' smid st,
       [tA; tB; tC] !! i = Some t /\ id t = "B"%string
       /\ Forall (fun u => id u ≠ "B"%string) (drop (S i) [tA; tB; tC])
       /\ getDatesInMonth 2024 3 = Returned monthDates
       /\ generateSchedule cairo2024 [tA; tB; tC] 2024 4 24 pickThenInert 2024 3
          = Returned shifts
       /\ stateAfter [tA; tB; tC] pickThenInert ([mkDate 2024 3 24] ++ [mkDate 2024 3 25])
          = Returned sd'
       /\ teacherCycleIndex sd' = Z.of_nat i + 1
       /\ stateAfter [tA; tB; tC] pickThenInert
            (walkDays cairo2024 (globalStartDate 2024 4 24) (lastDayOfVisibleMonth 2024 3))
          = Returned st
       /\ fullSchedule st !! formatDate (mkDate 2024 3 25) = Some (Some "B"%string)
       /\ (forall j : nat, monthDates !! j = Some (mkDate 2024 3 25) ->
             shifts !! j = Some (mkShift (formatDate (mkDate 2024 3 25)) (Some "B"%string)))
       /\ stateAfter [tA; tB; tC] pickThenInert
            ([mkDate 2024 3 24] ++ mkDate 2024 3 25 :: [mkDate 2024 3 26; mkDate 2024 3 27])
          = Returned smid
       /\ teacherCycleIndex smid = Z.of_nat i + 1
       /\ forall e post, [mkDate 2024 3 28; mkDate 2024 3 29] = e :: post ->
            noOverride pickThenInert e ->
            exists t', [tA; tB; tC] !! ((i + 1) mod length [tA; tB; tC])%nat = Some t'
              /\ fullSchedule st !! formatDate e = Some (Some (id t'))
              /\ forall j : nat, monthDates !! j = Some e ->
                   shifts !! j = Some (mkShift (formatDate e) (Some (id t'))).
Proof.
  assert (Hmid : Forall (inertOverride [tA; tB; tC] pickThenInert)
                   [mkDate 2024 3 26; mkDate 2024 3 27]).
  { constructor; [|constructor; [|constructor]].
    - exists EMPTY. split; [vm_compute; reflexivity|]. split; [discriminate|now left].
    - exists "Z"%string. split; [vm_compute; reflexivity|]. split; [discriminate|].
      right. repeat constructor; discriminate. }
  split; [discriminate|]. split; [vm_compute; reflexivity|]. split; [vm_compute; reflexivity|].
  split; [exact Hmid|]. split; [left; vm_compute; reflexivity|].
  apply (override_resets_cursor cairo2024 [tA; tB; tC] 2024 4 24 pickThenInert 2024 3
           [mkDate 2024 3 24] (mkDate 2024 3 25) [mkDate 2024 3 26; mkDate 2024 3 27]
           [mkDate 2024 3 28; mkDate 2024 3 29] "B"%string).
  - discriminate.
  - vm_compute. reflexivity.
  - vm_compute. reflexivity.
  - discriminate.
  - discriminate.
  - exists tB. split; [|reflexivity]. apply list_elem_of_further, list_elem_of_here.
  - exact Hmid.
Defined.

(** The scenario of the witness, computed: the start is 2024-04-24 in
    Africa/Cairo; B is picked on Apr 25, Apr 26 and 27 are inert, Apr 28
    gets the teacher after B, and the loop stops short of Apr 30. *)
Example scenario_pick_then_inert :
  teacherIds (generateSchedule cairo2024 [tA; tB; tC] 2024 4 24 pickThenInert 2024 3)
  = Returned (replicate 23 None
              ++ [Some "A"; Some "B"; None; None; Some "C"; Some "A"; None]%string).
Proof. vm_compute. reflexivity. Qed.

(** C3, as the claim states it, fails.  Roster [A, B, C], start on
    2024-01-01, Jan 1 given to A and Jan 2 to C by hand: Jan 3 is the next
    day after Jan 1 without override, the index of A is 0, and Jan 3 is
    assigned A, not [teachers[(0 + 1) mod 3]] = B.  An override equal to the
    empty string, or to the marker, does not assign the teacher of that id
    either. *)
Lemma override_resets_cursor_counterexample :
  twoPicks !! formatDate (mkDate 2024 0 1) = Some "A"%string
  /\ [tA; tB; tC] !! 0%nat = Some tA
  /\ twoPicks !! formatDate (mkDate 2024 0 2) = Some "C"%string
  /\ twoPicks !! formatDate (mkDate 2024 0 3) = None
  /\ [tA; tB; tC] !! ((0 + 1) mod length [tA; tB; tC])%nat = Some tB
  /\ firstIds 3 (generateSchedule everyMidnight [tA; tB; tC] 2024 1 1 twoPicks 2024 0)
     = Returned [Some "A"; Some "C"; Some "A"]%string
  /\ Some "A"%string ≠ Some (id tB)
  /\ firstIds 2 (generateSchedule everyMidnight [tA; tBlank] 2024 1 1
                   {[ "2024-01-01"%string := id tBlank ]} 2024 0)
     = Returned [Some "A"; Some ""]%string
  /\ firstIds 2 (generateSchedule everyMidnight [tA; tMarker] 2024 1 1
                   {[ "2024-01-01"%string := id tMarker ]} 2024 0)
     = Returned [None; Some "A"]%string.
Proof.
  repeat split; try (vm_compute; reflexivity). discriminate.
Qed.

(** C4. On a day [d] of the walk (a date on or after the start date)
    whose override is the marker of an emptied day, the generator assigns
    null to [d] and leaves the cursor as it was.  The rotation goes on where
    it stopped: the cursor after the walk, and the assignment of every day
    after [d], are those of the walk that does not visit [d] at all.  With
    roster [A, B], start on 2024-01-01 and Jan 3 emptied, the month begins
    A, B, null, A, B.  A day of the visible month with the marker is shown
    without teacher in any case, also when the loop does not reach it. *)
Theorem sentinel_keeps_cursor :
  (forall (zone : Zone) (ts : list Teacher) (sy sm sd : Z) (overrides : gmap string string) (cy cm : Z)
          (pre : list Date) (d : Date) (post : list Date),
     ts ≠ [] ->
     walkDays zone (globalStartDate sy sm sd) (lastDayOfVisibleMonth cy cm) = pre ++ d :: post ->
     overrides !! formatDate d = Some EMPTY ->
     exists monthDates shifts s1 st skipped,
       getDatesInMonth cy cm = Returned monthDates
       /\ generateSchedule zone ts sy sm sd overrides cy cm = Returned shifts
       /\ stateAfter ts overrides pre = Returned s1
       /\ stateAfter ts overrides (pre ++ [d])
          = Returned {| teacherCycleIndex := teacherCycleIndex s1;
                        fullSchedule := <[formatDate d := None]> (fullSchedule s1) |}
       /\ stateAfter ts overrides
            (walkDays zone (globalStartDate sy sm sd) (lastDayOfVisibleMonth cy cm))
          = Returned st
       /\ fullSchedule st !! formatDate d = Some None
       /\ (forall j : nat, monthDates !! j = Some d ->
             shifts !! j = Some (mkShift (formatDate d) None))
       /\ stateAfter ts overrides (pre ++ post) = Returned skipped
       /\ teacherCycleIndex st = teacherCycleIndex skipped
       /\ (forall e, e ∈ post ->
             fullSchedule st !! formatDate e = fullSchedule skipped !! formatDate e))
  /\ firstIds 5 (generateSchedule everyMidnight [tA; tB] 2024 1 1 emptiedJan3 2024 0)
     = Returned [Some "A"; Some "B"; None; Some "A"; Some "B"]%string
  /\ (forall (zone : Zone) (ts : list Teacher) (sy sm sd : Z)
             (overrides : gmap string string) (cy cm : Z)
             (monthDates : list Date) (j : nat) (d : Date),
        ts ≠ [] ->
        getDatesInMonth cy cm = Returned monthDates -> monthDates !! j = Some d ->
        overrides !! formatDate d = Some EMPTY ->
        exists shifts,
          generateSchedule zone ts sy sm sd overrides cy cm = Returned shifts
          /\ shifts !! j = Some (mkShift (formatDate d) None)).
Proof.
  split; [|split; [vm_compute; reflexivity|]].
  2:{ intros zone ts sy sm sd overrides cy cm monthDates j d Hne Hget Hj Hd.
      apply (generateSchedule_inert_day zone ts sy sm sd overrides cy cm monthDates j d);
        try assumption.
      exists EMPTY. split; [exact Hd|]. split; [discriminate|now left]. }
  intros zone ts sy sm sd overrides cy cm pre d post Hne Hwalk Hd.
  destruct (generateSchedule_day zone ts sy sm sd overrides cy cm Hne _ _ _ Hwalk)
    as (monthDates & shifts & st & s1 & v & c' & Hget & Hgen & Hst & Hpre & Hc & Ha & Hafter
        & Hv & Hshift).
  rewrite (assign_sentinel ts overrides _ _ _ Hd) in Ha. injection Ha as <- <-.
  destruct (stateAfter_returns ts overrides Hne (pre ++ post)) as (skipped & Hskip & _).
  exists monthDates, shifts, s1, st, skipped.
  split; [exact Hget|]. split; [exact Hgen|]. split; [exact Hpre|]. split; [exact Hafter|].
  split; [exact Hst|]. split; [exact Hv|]. split; [exact Hshift|]. split; [exact Hskip|].
  rewrite Hwalk in Hst. unfold stateAfter in *.
  replace (pre ++ d :: post) with ((pre ++ [d]) ++ post) in Hst
    by (rewrite <- app_assoc; reflexivity).
  rewrite runDays_app, Hafter in Hst. cbn [Outcome_bind] in Hst.
  rewrite runDays_app, Hpre in Hskip. cbn [Outcome_bind] in Hskip.
  destruct s1 as [c m]. cbn [teacherCycleIndex fullSchedule] in Hst.
  destruct (runDays_same_cursor _ _ _ _ _ _ m _ Hst) as (st2 & Hst2 & Hcur & Hkeys).
  rewrite Hskip in Hst2. injection Hst2 as <-.
  split; [now rewrite Hcur|].
  intros e He. symmetry. apply Hkeys, list_elem_of_fmap_2, He.
Qed.

Lemma sentinel_keeps_cursor_witness :
  [tA; tB] ≠ []
  /\ walkDays everyMidnight (globalStartDate 2024 1 1) (lastDayOfVisibleMonth 2024 0)
     = [mkDate 2024 0 1; mkDate 2024 0 2] ++ mkDate 2024 0 3
         :: walkDays everyMidnight (mkDate 2024 0 4) (lastDayOfVisibleMonth 2024 0)
  /\ emptiedJan3 !! formatDate (mkDate 2024 0 3) = Some EMPTY
  /\ exists monthDates shifts s1 st skipped,
       getDatesInMonth 2024 0 = Returned monthDates
       /\ generateSchedule everyMidnight [tA; tB] 2024 1 1 emptiedJan3 2024 0 = Returned shifts
       /\ stateAfter [tA; tB] emptiedJan3 [mkDate 2024 0 1; mkDate 2024 0 2] = Returned s1
       /\ stateAfter [tA; tB] emptiedJan3
            ([mkDate 2024 0 1; mkDate 2024 0 2] ++ [mkDate 2024 0 3])
          = Returned {| teacherCycleIndex := teacherCycleIndex s1;
                        fullSchedule :=
                          <[formatDate (mkDate 2024 0 3) := None]> (fullSchedule s1) |}
       /\ stateAfter [tA; tB] emptiedJan3
            (walkDays everyMidnight (globalStartDate 2024 1 1) (lastDayOfVisibleMonth 2024 0))
          = Returned st
       /\ fullSchedule st !! formatDate (mkDate 2024 0 3) = Some None
       /\ (forall j : nat, monthDates !! j = Some (mkDate 2024 0 3) ->
             shifts !! j = Some (mkShift (formatDate (mkDate 2024 0 3)) None))
       /\ stateAfter [tA; tB] emptiedJan3
            ([mkDate 2024 0 1; mkDate 2024 0 2]
               ++ walkDays everyMidnight (mkDate 2024 0 4) (lastDayOfVisibleMonth 2024 0))
          = Returned skipped
       /\ teacherCycleIndex st = teacherCycleIndex skipped
       /\ (forall e, e ∈ walkDays everyMidnight (mkDate 2024 0 4) (lastDayOfVisibleMonth 2024 0) ->
             fullSchedule st !! formatDate e = fullSchedule skipped !! formatDate e).
Proof.
  split; [discriminate|]. split; [vm_compute; reflexivity|]. split; [vm_compute; reflexivity|].
  apply (proj1 sentinel_keeps_cursor everyMidnight [tA; tB] 2024 1 1 emptiedJan3 2024 0
           [mkDate 2024 0 1; mkDate 2024 0 2] (mkDate 2024 0 3)
           (walkDays everyMidnight (mkDate 2024 0 4) (lastDayOfVisibleMonth 2024 0))).
  - discriminate.
  - vm_compute. reflexivity.
  - vm_compute. reflexivity.
Defined.

(** A pick by hand after the emptied day sets the cursor as on any other
    day: roster [A, B, C], Jan 2 emptied, Jan 3 given to C. *)
Example scenario_emptied_then_pick :
  firstIds 5 (generateSchedule everyMidnight [tA; tB; tC] 2024 1 1 emptiedThenPick 2024 0)
  = Returned [Some "A"; None; Some "C"; Some "A"; Some "B"]%string.
Proof. vm_compute. reflexivity. Qed.

(** C5. On a day [d] of the walk (a date on or after the start date)
    whose entry in the override map is a non-empty id that no teacher of the
    roster has, the generator assigns null to [d] and leaves the cursor as
    it was.  The walk ends in the same state, and the generator returns the
    same shifts, as with the marker of an emptied day on [d].  A day of the
    visible month with such an entry is shown without teacher in any case,
    also when the loop does not reach it, and the shifts are again those
    obtained with the marker. *)
Theorem stale_override_is_inert (zone : Zone) (ts : list Teacher) (sy sm sd : Z)
    (overrides : gmap string string) (cy cm : Z) (d : Date) (v : string) :
  ts ≠ [] ->
  overrides !! formatDate d = Some v ->
  v ≠ ""%string ->
  Forall (fun t => id t ≠ v) ts ->
  (forall (pre post : list Date),
     walkDays zone (globalStartDate sy sm sd) (lastDayOfVisibleMonth cy cm)
     = pre ++ d :: post ->
     exists monthDates shifts s1 st,
       getDatesInMonth cy cm = Returned monthDates
       /\ generateSchedule zone ts sy sm sd overrides cy cm = Returned shifts
       /\ stateAfter ts overrides pre = Returned s1
       /\ stateAfter ts overrides (pre ++ [d])
          = Returned {| teacherCycleIndex := teacherCycleIndex s1;
                        fullSchedule := <[formatDate d := None]> (fullSchedule s1) |}
       /\ stateAfter ts overrides
            (walkDays zone (globalStartDate sy sm sd) (lastDayOfVisibleMonth cy cm))
          = Returned st
       /\ fullSchedule st !! formatDate d = Some None
       /\ (forall j : nat, monthDates !! j = Some d ->
             shifts !! j = Some (mkShift (formatDate d) None))
       /\ stateAfter ts (<[formatDate d := EMPTY]> overrides)
            (walkDays zone (globalStartDate sy sm sd) (lastDayOfVisibleMonth cy cm))
          = Returned st
       /\ generateSchedule zone ts sy sm sd (<[formatDate d := EMPTY]> overrides) cy cm
          = Returned shifts)
  /\ (forall (monthDates : list Date) (j : nat),
        getDatesInMonth cy cm = Returned monthDates -> monthDates !! j = Some d ->
        exists shifts,
          generateSchedule zone ts sy sm sd overrides cy cm = Returned shifts
          /\ shifts !! j = Some (mkShift (formatDate d) None)
          /\ generateSchedule zone ts sy sm sd (<[formatDate d := EMPTY]> overrides) cy cm
             = Returned shifts).
Proof.
  intros Hne Hd Hv Hstale.
  assert (Hinert : inertOverride ts overrides d) by (exists v; auto).
  split.
  - intros pre post Hwalk.
    destruct (generateSchedule_day zone ts sy sm sd overrides cy cm Hne _ _ _ Hwalk)
      as (monthDates & shifts & st & s1 & a & c' & Hget & Hgen & Hst & Hpre & Hc & Ha & Hafter
          & Ha' & Hshift).
    rewrite (assign_inert ts overrides d _ Hinert) in Ha. injection Ha as <- <-.
    exists monthDates, shifts, s1, st.
    split; [exact Hget|]. split; [exact Hgen|]. split; [exact Hpre|]. split; [exact Hafter|].
    split; [exact Hst|]. split; [exact Ha'|]. split; [exact Hshift|].
    assert (Hvalid : Forall validDate
              (walkDays zone (globalStartDate sy sm sd) (lastDayOfVisibleMonth cy cm)))
      by (apply walkDays_valid; [apply globalStartDate_valid|apply lastDayOfVisibleMonth_valid]).
    assert (Hdv : validDate d).
    { rewrite Hwalk, Forall_app, Forall_cons in Hvalid. tauto. }
    split.
    + unfold stateAfter in *.
      rewrite <- (runDays_inert_marker ts overrides d _ _ Hdv Hvalid Hinert). exact Hst.
    + now rewrite (generateSchedule_inert_marker zone ts sy sm sd overrides cy cm d Hdv Hinert).
  - intros monthDates j Hget Hj.
    destruct (generateSchedule_inert_day zone ts sy sm sd overrides cy cm monthDates j d
                Hne Hinert Hget Hj) as (shifts & Hgen & Hshift).
    exists shifts. split; [exact Hgen|]. split; [exact Hshift|].
    rewrite (generateSchedule_inert_marker zone ts sy sm sd overrides cy cm d);
      [exact Hgen| |exact Hinert].
    eapply monthDates_bounds; [exact Hget|]. eapply list_elem_of_lookup_2, Hj.
Qed.

Lemma stale_override_is_inert_witness :
  [tA; tC] ≠ []
  /\ walkDays everyMidnight (globalStartDate 2024 1 1) (lastDayOfVisibleMonth 2024 0)
     = [mkDate 2024 0 1] ++ mkDate 2024 0 2
         :: walkDays everyMidnight (mkDate 2024 0 3) (lastDayOfVisibleMonth 2024 0)
  /\ ({[ "2024-01-02"%string := "B"%string ]} : gmap string string)
       !! formatDate (mkDate 2024 0 2) = Some "B"%string
  /\ Forall (fun t => id t ≠ "B"%string) [tA; tC]
  /\ exists monthDates shifts s1 st,
       getDatesInMonth 2024 0 = Returned monthDates
       /\ generateSchedule everyMidnight [tA; tC] 2024 1 1
            {[ "2024-01-02"%string := "B"%string ]} 2024 0
          = Returned shifts
       /\ stateAfter [tA; tC] {[ "2024-01-02"%string := "B"%string ]} [mkDate 2024 0 1]
          = Returned s1
       /\ stateAfter [tA; tC] {[ "2024-01-02"%string := "B"%string ]}
            ([mkDate 2024 0 1] ++ [mkDate 2024 0 2])
          = Returned {| teacherCycleIndex := teacherCycleIndex s1;
                        fullSchedule :=
                          <[formatDate (mkDate 2024 0 2) := None]> (fullSchedule s1) |}
       /\ stateAfter [tA; tC] {[ "2024-01-02"%string := "B"%string ]}
            (walkDays everyMidnight (globalStartDate 2024 1 1) (lastDayOfVisibleMonth 2024 0))
          = Returned st
       /\ fullSchedule st !! formatDate (mkDate 2024 0 2) = Some None
       /\ (forall j : nat, monthDates !! j = Some (mkDate 2024 0 2) ->
             shifts !! j = Some (mkShift (formatDate (mkDate 2024 0 2)) None))
       /\ stateAfter [tA; tC]
            (<[formatDate (mkDate 2024 0 2) := EMPTY]>
               {[ "2024-01-02"%string := "B"%string ]})
            (walkDays everyMidnight (globalStartDate 2024 1 1) (lastDayOfVisibleMonth 2024 0))
          = Returned st
       /\ generateSchedule everyMidnight [tA; tC] 2024 1 1
            (<[formatDate (mkDate 2024 0 2) := EMPTY]>
               {[ "2024-01-02"%string := "B"%string ]}) 2024 0
          = Returned shifts.
Proof.
  assert (Hstale : Forall (fun t => id t ≠ "B"%string) [tA; tC])
    by (repeat constructor; discriminate).
  split; [discriminate|]. split; [vm_compute; reflexivity|]. split; [vm_compute; reflexivity|].
  split; [exact Hstale|].
  apply (proj1 (stale_override_is_inert everyMidnight [tA; tC] 2024 1 1
                  {[ "2024-01-02"%string := "B"%string ]} 2024 0
                  (mkDate 2024 0 2) "B"%string
                  ltac:(discriminate) ltac:(vm_compute; reflexivity) ltac:(discriminate)
                  Hstale)
           [mkDate 2024 0 1]
           (walkDays everyMidnight (mkDate 2024 0 3) (lastDayOfVisibleMonth 2024 0))).
  vm_compute. reflexivity.
Defined.

(** The last day of April 2024 in Africa/Cairo, which the loop does not
    reach: an id that is not in the roster, the marker, or no entry at all
    give the same shifts, with no teacher on that day. *)
Example scenario_stale_override_unvisited :
  teacherIds (generateSchedule cairo2024 [tA; tC] 2024 4 1
                {[ "2024-04-30"%string := "B"%string ]} 2024 3)
  = teacherIds (generateSchedule cairo2024 [tA; tC] 2024 4 1
                  {[ "2024-04-30"%string := EMPTY ]} 2024 3)
  /\ (fun r => match r with Returned l => l !! 29%nat | _ => None end)
       (teacherIds (generateSchedule cairo2024 [tA; tC] 2024 4 1
                      {[ "2024-04-30"%string := "B"%string ]} 2024 3))
     = Some None.
Proof. split; vm_compute; reflexivity. Qed.

Example scenario_stale_override :
  teacherIds (generateSchedule everyMidnight [tA; tC] 2024 1 1 {[ "2024-01-02"%string := "B"%string ]} 2024 0)
  = teacherIds (generateSchedule everyMidnight [tA; tC] 2024 1 1 {[ "2024-01-02"%string := EMPTY ]} 2024 0)
  /\ firstIds 4 (generateSchedule everyMidnight [tA; tC] 2024 1 1
                   {[ "2024-01-02"%string := "B"%string ]} 2024 0)
     = Returned [Some "A"; None; Some "C"; Some "A"]%string.
Proof. split; vm_compute; reflexivity. Qed.

(* ===================================================================== *)
(** ** The handlers and the next recomputation *)
(* ===================================================================== *)

Module HandlerFacts.

Lemma handleDeleteTeacher_lookup tid st date v :
  manualChanges (handleDeleteTeacher tid st) !! date = Some v
  <-> manualChanges st !! date = Some v /\ v ≠ tid.
Proof. unfold handleDeleteTeacher. cbn [manualChanges]. apply map_lookup_filter_Some. Qed.

Lemma handleDeleteTeacher_dropped tid st date :
  manualChanges st !! date = Some tid ->
  manualChanges (handleDeleteTeacher tid st) !! date = None.
Proof.
  intros H. destruct (manualChanges (handleDeleteTeacher tid st) !! date) as [v|] eqn:E;
    [|reflexivity].
  apply handleDeleteTeacher_lookup in E as [E Hne]. congruence.
Qed.

Lemma handleDeleteTeacher_roster tid st :
  Forall (fun t => id t ≠ tid) (teachers (handleDeleteTeacher tid st)).
Proof.
  unfold handleDeleteTeacher. cbn [teachers]. apply Forall_forall. intros t Hin.
  apply list_elem_of_In, filter_In in Hin as [_ Hne].
  destruct (String.eqb_spec (id t) tid); [discriminate|assumption].
Qed.

(** A day of the visible month with the marker of an emptied day is shown
    without teacher, with or without roster, before or after the start
    date. *)
Lemma scheduleEffect_sentinel_day (zone : Zone) ts sy sm sd (overrides : gmap string string) cy cm
    monthDates (j : nat) d :
  overrides !! formatDate d = Some EMPTY ->
  getDatesInMonth cy cm = Returned monthDates -> monthDates !! j = Some d ->
  exists shifts, scheduleEffect zone ts sy sm sd overrides cy cm = Returned shifts
    /\ shifts !! j = Some (mkShift (formatDate d) None).
Proof.
  intros Hd Hget Hj.
  assert (Hnull : List.map nullShift monthDates !! j = Some (mkShift (formatDate d) None))
    by now rewrite list_lookup_fmap, Hj.
  unfold scheduleEffect. destruct ts as [|t ts']; cbn [length Nat.eqb].
  - rewrite Hget. cbn [Outcome_bind]. eauto.
  - set (ts := t :: ts'). assert (Hne : ts ≠ []) by discriminate.
    destruct (Date_gtb (globalStartDate sy sm sd) (lastDayOfVisibleMonth cy cm)) eqn:Hgt.
    + destruct (generateSchedule_not_started zone ts sy sm sd overrides cy cm Hgt)
        as (monthDates' & Hget' & Hgen).
      rewrite Hget in Hget'. injection Hget' as <-. eauto.
    + destruct (Date_ltb d (globalStartDate sy sm sd)) eqn:Hlt.
      * destruct (generateSchedule_started zone ts sy sm sd overrides cy cm Hne Hgt)
          as (monthDates' & st & Hget' & _ & Hgen).
        rewrite Hget in Hget'. injection Hget' as <-.
        eexists. split; [exact Hgen|].
        rewrite list_lookup_fmap, Hj. cbn. f_equal. apply shiftOf_before, Hlt.
      * destruct (decide (d ∈ walkDays zone (globalStartDate sy sm sd)
                                  (lastDayOfVisibleMonth cy cm))) as [Hin|Hnin].
        -- apply list_elem_of_split in Hin as (pre & post & Hwalk).
           destruct (generateSchedule_day zone ts sy sm sd overrides cy cm Hne _ _ _ Hwalk)
             as (monthDates' & shifts & st & s1 & v & c' & Hget' & Hgen & _ & _ & _ & Ha & _
                 & _ & Hshift).
           rewrite Hget in Hget'. injection Hget' as <-.
           rewrite (assign_sentinel ts overrides _ _ _ Hd) in Ha. injection Ha as <- _.
           exists shifts. split; [exact Hgen|apply Hshift, Hj].
        -- destruct (generateSchedule_started zone ts sy sm sd overrides cy cm Hne Hgt)
             as (monthDates' & st & Hget' & Hst & Hgen).
           rewrite Hget in Hget'. injection Hget' as <-.
           eexists. split; [exact Hgen|].
           rewrite list_lookup_fmap, Hj. cbn. f_equal.
           unfold shiftOf. rewrite Hlt. f_equal.
           rewrite (stateAfter_unvisited ts overrides _ st d Hst); [reflexivity| | |exact Hnin].
           ++ eapply monthDates_bounds; [exact Hget|]. eapply list_elem_of_lookup_2, Hj.
           ++ apply walkDays_valid;
                [apply globalStartDate_valid|apply lastDayOfVisibleMonth_valid].
Qed.

End HandlerFacts.

Import HandlerFacts.

(** C1, as the code has it.  [handleDeleteTeacher] removes from the
    override map every entry whose value is the id of the deleted teacher
    and keeps every other entry; the roster loses the teachers of that id;
    the start date and the colours stay.  So on the next recomputation a
    date that carried such an entry has no override: on a day that the
    loop of the generator visits it is assigned by rotation, the teacher
    under the cursor, not null. *)
Theorem delete_teacher_drops_overrides (st : AppState) (tid : string) :
  (forall date v,
      manualChanges (handleDeleteTeacher tid st) !! date = Some v
      <-> manualChanges st !! date = Some v /\ v ≠ tid)
  /\ (forall date, manualChanges st !! date = Some tid ->
        manualChanges (handleDeleteTeacher tid st) !! date = None)
  /\ teachers (handleDeleteTeacher tid st)
     = List.filter (fun t => negb (String.eqb (id t) tid)) (teachers st)
  /\ Forall (fun t => id t ≠ tid) (teachers (handleDeleteTeacher tid st))
  /\ scheduleStartDate (handleDeleteTeacher tid st) = scheduleStartDate st
  /\ dateColors (handleDeleteTeacher tid st) = dateColors st
  /\ (forall (zone : Zone) (sy sm sd cy cm : Z)
             (pre : list Date) (d : Date) (post : list Date),
        teachers (handleDeleteTeacher tid st) ≠ [] ->
        walkDays zone (globalStartDate sy sm sd) (lastDayOfVisibleMonth cy cm)
        = pre ++ d :: post ->
        manualChanges st !! formatDate d = Some tid ->
        exists monthDates shifts s1 t,
          getDatesInMonth cy cm = Returned monthDates
          /\ generateSchedule zone (teachers (handleDeleteTeacher tid st)) sy sm sd
               (manualChanges (handleDeleteTeacher tid st)) cy cm = Returned shifts
          /\ stateAfter (teachers (handleDeleteTeacher tid st))
               (manualChanges (handleDeleteTeacher tid st)) pre = Returned s1
          /\ teachers (handleDeleteTeacher tid st)
               !! Z.to_nat (teacherCycleIndex s1
                            mod Z.of_nat (length (teachers (handleDeleteTeacher tid st))))
             = Some t
          /\ forall j : nat, monthDates !! j = Some d ->
               shifts !! j = Some (mkShift (formatDate d) (Some (id t)))).
Proof.
  split; [apply handleDeleteTeacher_lookup|].
  split; [apply handleDeleteTeacher_dropped|].
  split; [reflexivity|]. split; [apply handleDeleteTeacher_roster|].
  split; [reflexivity|]. split; [reflexivity|].
  intros zone sy sm sd cy cm pre d post Hne Hwalk Hd.
  destruct (generateSchedule_day zone _ sy sm sd (manualChanges (handleDeleteTeacher tid st))
              cy cm Hne _ _ _ Hwalk)
    as (monthDates & shifts & st' & s1 & v & c' & Hget & Hgen & _ & Hpre & Hc & Ha & _ & _
        & Hshift).
  rewrite assign_none in Ha by (apply handleDeleteTeacher_dropped, Hd).
  destruct (rotate_nonneg _ (teacherCycleIndex s1) Hne Hc) as (t & Ht & Hrot).
  rewrite Hrot in Ha. injection Ha as <- _.
  exists monthDates, shifts, s1, t. auto.
Qed.

Lemma delete_teacher_drops_overrides_witness :
  teachers (handleDeleteTeacher "B" pickedB) ≠ []
  /\ walkDays everyMidnight (globalStartDate 2024 1 1) (lastDayOfVisibleMonth 2024 0)
     = [mkDate 2024 0 1] ++ mkDate 2024 0 2
         :: walkDays everyMidnight (mkDate 2024 0 3) (lastDayOfVisibleMonth 2024 0)
  /\ manualChanges pickedB !! formatDate (mkDate 2024 0 2) = Some "B"%string
  /\ exists monthDates shifts s1 t,
       getDatesInMonth 2024 0 = Returned monthDates
       /\ generateSchedule everyMidnight (teachers (handleDeleteTeacher "B" pickedB)) 2024 1 1
            (manualChanges (handleDeleteTeacher "B" pickedB)) 2024 0 = Returned shifts
       /\ stateAfter (teachers (handleDeleteTeacher "B" pickedB))
            (manualChanges (handleDeleteTeacher "B" pickedB)) [mkDate 2024 0 1]
          = Returned s1
       /\ teachers (handleDeleteTeacher "B" pickedB)
            !! Z.to_nat (teacherCycleIndex s1
                         mod Z.of_nat (length (teachers (handleDeleteTeacher "B" pickedB))))
          = Some t
       /\ forall j : nat, monthDates !! j = Some (mkDate 2024 0 2) ->
            shifts !! j = Some (mkShift (formatDate (mkDate 2024 0 2)) (Some (id t))).
Proof.
  split; [discriminate|]. split; [vm_compute; reflexivity|]. split; [vm_compute; reflexivity|].
  apply (proj2 (proj2 (proj2 (proj2 (proj2 (proj2
           (delete_teacher_drops_overrides pickedB "B"))))))
           everyMidnight 2024 1 1 2024 0 [mkDate 2024 0 1] (mkDate 2024 0 2)
           (walkDays everyMidnight (mkDate 2024 0 3) (lastDayOfVisibleMonth 2024 0))).
  - discriminate.
  - vm_compute. reflexivity.
  - vm_compute. reflexivity.
Defined.

(** C1, as the claim states it, fails.  Roster [A, B, C] with Jan 2 given
    to B by hand: after [handleDeleteTeacher "B"] the entry of Jan 2 is no
    longer in the override map, and the recomputation assigns C to Jan 2 by
    rotation, not null. *)
Lemma delete_teacher_counterexample :
  manualChanges pickedB !! "2024-01-02"%string = Some "B"%string
  /\ teachers (handleDeleteTeacher "B" pickedB) = [tA; tC]
  /\ manualChanges (handleDeleteTeacher "B" pickedB) !! "2024-01-02"%string = None
  /\ firstIds 3 (scheduleEffect everyMidnight (teachers (handleDeleteTeacher "B" pickedB)) 2024 1 1
                   (manualChanges (handleDeleteTeacher "B" pickedB)) 2024 0)
     = Returned [Some "A"; Some "C"; Some "A"]%string.
Proof. repeat split; vm_compute; reflexivity. Qed.

(** C9. [handleStartDateChange] with a value that is not empty stores the
    value as the start date and replaces the override map and the colour
    map by empty maps; the roster stays. *)
Theorem start_date_change_resets_maps (st : AppState) (newDate : string) :
  newDate ≠ ""%string ->
  scheduleStartDate (handleStartDateChange newDate st) = newDate
  /\ manualChanges (handleStartDateChange newDate st) = ∅
  /\ dateColors (handleStartDateChange newDate st) = ∅
  /\ teachers (handleStartDateChange newDate st) = teachers st.
Proof.
  intros Hne. unfold handleStartDateChange. rewrite truthy_true by assumption.
  repeat split.
Qed.

Lemma start_date_change_resets_maps_witness :
  "2024-02-01"%string ≠ ""%string
  /\ scheduleStartDate (handleStartDateChange "2024-02-01" pickedB) = "2024-02-01"%string
  /\ manualChanges (handleStartDateChange "2024-02-01" pickedB) = ∅
  /\ dateColors (handleStartDateChange "2024-02-01" pickedB) = ∅
  /\ teachers (handleStartDateChange "2024-02-01" pickedB) = teachers pickedB.
Proof.
  split; [discriminate|].
  apply (start_date_change_resets_maps pickedB "2024-02-01"). discriminate.
Defined.

(** C10. Clearing the shift of a date ([handleClearShift], which is
    [handleUpdateShift] with null) stores the marker ["__EMPTY__"] under the
    key of that date and does not remove the key.  No operation on one date
    removes a key from the override map, and an update leaves its own key
    present.  In the next recomputation a date of the visible month that was
    cleared is assigned null, not a teacher of the rotation. *)
Theorem clear_shift_stores_marker :
  (forall st date,
      handleClearShift date st = handleUpdateShift date None st
      /\ manualChanges (handleClearShift date st) !! date = Some EMPTY
      /\ (forall other, other ≠ date ->
            manualChanges (handleClearShift date st) !! other
            = manualChanges st !! other))
  /\ (forall a st key,
        is_Some (manualChanges st !! key) ->
        is_Some (manualChanges (perform a st) !! key))
  /\ (forall st date tid, is_Some (manualChanges (handleUpdateShift date tid st) !! date))
  /\ (forall (zone : Zone) st (sy sm sd cy cm : Z) monthDates (j : nat) d,
        getDatesInMonth cy cm = Returned monthDates -> monthDates !! j = Some d ->
        exists shifts,
          scheduleEffect zone (teachers (handleClearShift (formatDate d) st)) sy sm sd
            (manualChanges (handleClearShift (formatDate d) st)) cy cm = Returned shifts
          /\ shifts !! j = Some (mkShift (formatDate d) None)).
Proof.
  split; [|split; [|split]].
  - intros st date. split; [reflexivity|].
    unfold handleClearShift, handleUpdateShift. cbn [manualChanges].
    split; [apply lookup_insert_eq|]. intros other Hne. now apply lookup_insert_ne.
  - intros a st key Hkey. destruct a as [date tid|date|date color]; cbn [perform].
    + unfold handleUpdateShift. cbn [manualChanges].
      destruct (decide (date = key)) as [->|Hne];
        [rewrite lookup_insert_eq; eauto|now rewrite lookup_insert_ne].
    + unfold handleClearShift, handleUpdateShift. cbn [manualChanges].
      destruct (decide (date = key)) as [->|Hne];
        [rewrite lookup_insert_eq; eauto|now rewrite lookup_insert_ne].
    + exact Hkey.
  - intros st date tid. unfold handleUpdateShift. cbn [manualChanges].
    rewrite lookup_insert_eq. eauto.
  - intros zone st sy sm sd cy cm monthDates j d Hget Hj.
    apply (scheduleEffect_sentinel_day zone _ sy sm sd _ cy cm monthDates j d); [|assumption..].
    unfold handleClearShift, handleUpdateShift. cbn [manualChanges].
    apply lookup_insert_eq.
Qed.

Lemma clear_shift_stores_marker_witness :
  getDatesInMonth 2024 0 = Returned (monthDays 2024 0)
  /\ monthDays 2024 0 !! 1%nat = Some (mkDate 2024 0 2)
  /\ is_Some (manualChanges pickedB !! "2024-01-02"%string)
  /\ is_Some (manualChanges (perform (ClearShift "2024-01-02") pickedB) !! "2024-01-02"%string)
  /\ exists shifts,
       scheduleEffect everyMidnight (teachers (handleClearShift (formatDate (mkDate 2024 0 2)) pickedB))
         2024 1 1
         (manualChanges (handleClearShift (formatDate (mkDate 2024 0 2)) pickedB)) 2024 0
       = Returned shifts
       /\ shifts !! 1%nat = Some (mkShift (formatDate (mkDate 2024 0 2)) None).
Proof.
  assert (Hkey : is_Some (manualChanges pickedB !! "2024-01-02"%string))
    by (vm_compute; eauto).
  split; [vm_compute; reflexivity|]. split; [vm_compute; reflexivity|].
  split; [exact Hkey|].
  split.
  - apply (proj1 (proj2 clear_shift_stores_marker) (ClearShift "2024-01-02") pickedB
             "2024-01-02"%string Hkey).
  - apply (proj2 (proj2 (proj2 clear_shift_stores_marker)) everyMidnight pickedB 2024 1 1 2024 0
             (monthDays 2024 0) 1%nat (mkDate 2024 0 2)); vm_compute; reflexivity.
Defined.

Example scenario_clear_shift :
  firstIds 4 (scheduleEffect everyMidnight (teachers (handleClearShift "2024-01-02" pickedB)) 2024 1 1
                (manualChanges (handleClearShift "2024-01-02" pickedB)) 2024 0)
  = Returned [Some "A"; None; Some "B"; Some "C"]%string.
Proof. vm_compute. reflexivity. Qed.

(* ===================================================================== *)
(** ** Further facts on the generator and its output *)
(* ===================================================================== *)

Module OutputFacts.

Section Entries.

Variable ts : list Teacher.
Variable overrides : gmap string string.

Local Abbreviation tim := (buildTeacherIndexMap ts).

(** A day is given no teacher or a teacher of the roster. *)
Lemma assign_in_roster key c v c' :
  assign ts overrides tim key c = Returned (v, c') ->
  v = None \/ exists t, t ∈ ts /\ v = Some (id t).
Proof.
  assert (Hrot : forall r, rotate ts c = Returned r ->
            r.1 = None \/ exists t, t ∈ ts /\ r.1 = Some (id t)).
  { intros r Hr. unfold rotate in Hr. apply bind_Returned in Hr as (tid & Ht & Hr).
    injection Hr as <-. right. unfold teacherIdAt in Ht.
    destruct (_ <? 0); [discriminate|].
    destruct (ts !! _) as [t|] eqn:E; [|discriminate]. injection Ht as <-.
    exists t. split; [eapply list_elem_of_lookup_2, E|reflexivity]. }
  unfold assign. intros H.
  destruct (overrides !! key) as [o|]; [|exact (Hrot _ H)].
  destruct (truthy o); [|exact (Hrot _ H)].
  destruct (String.eqb o EMPTY); [injection H as <- _; now left|].
  destruct (tim !! o) as [iz|] eqn:Hiz; [|injection H as <- _; now left].
  injection H as <- _.
  apply teacherIndexMap_Some in Hiz as (i & t & Hi & <- & _ & _).
  right. exists t. split; [eapply list_elem_of_lookup_2, Hi|reflexivity].
Qed.

Lemma runDays_rosterValues days : forall st st',
  rosterValues ts (fullSchedule st) ->
  runDays ts overrides tim days st = Returned st' ->
  rosterValues ts (fullSchedule st').
Proof.
  induction days as [|d days IH]; intros st st' Hinv Hrun; cbn [runDays] in Hrun.
  - now injection Hrun as <-.
  - apply bind_Returned in Hrun as (s1 & Hbody & Hrun).
    apply (IH s1 st'); [|exact Hrun].
    apply walkBody_inv in Hbody as (v & c' & Ha & ->). cbn [fullSchedule].
    intros key tid Hkey. destruct (decide (formatDate d = key)) as [<-|Hne].
    + rewrite lookup_insert_eq in Hkey. injection Hkey as ->.
      apply assign_in_roster in Ha as [Hv|(t & Hin & Hv)]; [discriminate|].
      injection Hv as ->. eauto.
    + rewrite lookup_insert_ne in Hkey by assumption. eauto.
Qed.

End Entries.

(** Every entry of the result carries the key of its day, and no teacher
    or a teacher of the roster. *)
Lemma scheduleEffect_entries (zone : Zone) ts sy sm sd (overrides : gmap string string) cy cm :
  exists monthDates shifts,
    getDatesInMonth cy cm = Returned monthDates
    /\ scheduleEffect zone ts sy sm sd overrides cy cm = Returned shifts
    /\ Forall2 (fun d s => date s = formatDate d
                  /\ (teacherId s = None
                      \/ exists t, t ∈ ts /\ teacherId s = Some (id t)))
         monthDates shifts.
Proof.
  destruct (getDatesInMonth_returns cy cm) as (monthDates & Hget & _).
  exists monthDates.
  assert (Hnull : Forall2 (fun d s => date s = formatDate d
                     /\ (teacherId s = None
                         \/ exists t, t ∈ ts /\ teacherId s = Some (id t)))
                    monthDates (List.map nullShift monthDates)).
  { apply Forall2_fmap_r, Forall2_same_length_lookup_2; [reflexivity|].
    intros i d d' H1 H2. rewrite H1 in H2. injection H2 as <-.
    unfold compose. cbn. auto. }
  unfold scheduleEffect. destruct ts as [|t ts']; cbn [length Nat.eqb].
  - exists (List.map nullShift monthDates). rewrite Hget. auto.
  - set (ts := t :: ts'). assert (Hne : ts ≠ []) by discriminate.
    destruct (Date_gtb (globalStartDate sy sm sd) (lastDayOfVisibleMonth cy cm)) eqn:Hgt.
    + destruct (generateSchedule_not_started zone ts sy sm sd overrides cy cm Hgt)
        as (monthDates' & Hget' & Hgen).
      rewrite Hget in Hget'. injection Hget' as <-. eauto.
    + destruct (generateSchedule_started zone ts sy sm sd overrides cy cm Hne Hgt)
        as (monthDates' & st & Hget' & Hst & Hgen).
      rewrite Hget in Hget'. injection Hget' as <-.
      eexists. split; [exact Hget|]. split; [exact Hgen|].
      assert (Hinv : rosterValues ts (fullSchedule st)).
      { unfold stateAfter in Hst.
        eapply (runDays_rosterValues ts overrides); [|exact Hst].
        intros key tid H. cbn in H. rewrite lookup_empty in H. discriminate. }
      apply Forall2_fmap_r, Forall2_same_length_lookup_2; [reflexivity|].
      intros i d d' H1 H2. rewrite H1 in H2. injection H2 as <-.
      unfold shiftOf, compose.
      destruct (Date_ltb d (globalStartDate sy sm sd)); cbn; [auto|].
      split; [reflexivity|].
      destruct (fullSchedule st !! formatDate d) as [[tid|]|] eqn:E; cbn; auto.
      destruct (Hinv _ _ E) as (t0 & Hin & <-). eauto.
Qed.

(** The first entry with a given key, in a list whose earlier entries have
    other keys. *)
Lemma findShift_lookup (shifts : list Shift) : forall (i : nat) s,
  shifts !! i = Some s ->
  (forall (j : nat) s', (j < i)%nat -> shifts !! j = Some s' -> date s' ≠ date s) ->
  findShift shifts (date s) = Some s.
Proof.
  unfold findShift.
  induction shifts as [|s0 shifts IH]; intros i s Hi Hbefore; [discriminate|].
  cbn [List.find]. destruct i as [|i]; cbn in Hi.
  - injection Hi as ->. now rewrite String.eqb_refl.
  - destruct (String.eqb_spec (date s0) (date s)) as [Heq|Hne].
    + exfalso. apply (Hbefore 0%nat s0); [lia|reflexivity|exact Heq].
    + apply (IH i s Hi). intros j s' Hj Hs'. apply (Hbefore (S j) s'); [lia|exact Hs'].
Qed.

End OutputFacts.

Import OutputFacts.

(* ===================================================================== *)
(** ** Further properties of the generator, the keys and the grid *)
(* ===================================================================== *)

(** Validity of a date given by its three numbers. *)
Ltac valid_date :=
  unfold validDate; cbn [getFullYear getMonth getDate];
  split; [lia|split; [lia|apply Z.leb_le; vm_compute; reflexivity]].

(** X1. With a roster of n teachers, n > 0, if the loop of the generator
    visits the day [d] as its day number i (counted from 0, so that [d] is
    i days after the start date), and no day from the start date to [d]
    carries an override, then [d] is assigned [teachers[i mod n]], whatever
    the visible month is: the rotation is counted from the start date, not
    from the first day shown. *)
Theorem rotation_counts_from_start_date (zone : Zone) (ts : list Teacher) (sy sm sd : Z)
    (overrides : gmap string string) (cy cm : Z) (i : nat) (d : Date) :
  ts ≠ [] ->
  walkDays zone (globalStartDate sy sm sd) (lastDayOfVisibleMonth cy cm) !! i = Some d ->
  Forall (noOverride overrides)
    (take (S i) (walkDays zone (globalStartDate sy sm sd) (lastDayOfVisibleMonth cy cm))) ->
  d = addDays (Z.of_nat i) (globalStartDate sy sm sd)
  /\ exists monthDates shifts st t,
       getDatesInMonth cy cm = Returned monthDates
       /\ generateSchedule zone ts sy sm sd overrides cy cm = Returned shifts
       /\ stateAfter ts overrides
            (walkDays zone (globalStartDate sy sm sd) (lastDayOfVisibleMonth cy cm))
          = Returned st
       /\ ts !! (i mod length ts)%nat = Some t
       /\ fullSchedule st !! formatDate d = Some (Some (id t))
       /\ forall j : nat, monthDates !! j = Some d ->
            shifts !! j = Some (mkShift (formatDate d) (Some (id t))).
Proof.
  intros Hne Hi Hnone. split.
  - unfold addDays. destruct (Z.leb_spec 0 (Z.of_nat i)); [|lia]. rewrite Nat2Z.id.
    eapply walkDays_lookup_iter; [| |exact Hi];
      [apply lastDayOfVisibleMonth_valid|apply globalStartDate_valid].
  - pose proof (take_drop_middle _ _ _ Hi) as Hwalk. symmetry in Hwalk.
    destruct (generateSchedule_day zone ts sy sm sd overrides cy cm Hne _ _ _ Hwalk)
      as (monthDates & shifts & st & s1 & v & c' & Hget & Hgen & Hst & Hpre & Hc & Ha & _
          & Hv & Hshift).
    rewrite (take_S_r _ _ _ Hi) in Hnone. apply Forall_app in Hnone as [Hpre0 Hd0].
    apply Forall_cons in Hd0 as [Hd0 _].
    assert (Hcur : teacherCycleIndex s1 = Z.of_nat i).
    { unfold stateAfter in Hpre.
      rewrite (runDays_rotation_cursor ts overrides _ _ _ Hpre0 Hpre).
      change (teacherCycleIndex initialWalkState) with 0.
      rewrite length_take. apply lookup_lt_Some in Hi. lia. }
    rewrite (assign_noOverride ts overrides d _ Hd0) in Ha.
    destruct (rotate_nonneg ts (teacherCycleIndex s1) Hne Hc) as (t & Ht & Hrot).
    rewrite Hrot in Ha. injection Ha as <- _.
    rewrite Hcur, mod_to_nat in Ht by (destruct ts; [contradiction|discriminate]).
    exists monthDates, shifts, st, t. auto 10.
Qed.

Lemma rotation_counts_from_start_date_witness :
  [tA; tB; tC] ≠ []
  /\ walkDays cairo2024 (globalStartDate 2024 3 30) (lastDayOfVisibleMonth 2024 3) !! 29%nat
     = Some (mkDate 2024 3 28)
  /\ mkDate 2024 3 28 = addDays (Z.of_nat 29) (globalStartDate 2024 3 30)
  /\ exists monthDates shifts st t,
       getDatesInMonth 2024 3 = Returned monthDates
       /\ generateSchedule cairo2024 [tA; tB; tC] 2024 3 30 ∅ 2024 3 = Returned shifts
       /\ stateAfter [tA; tB; tC] ∅
            (walkDays cairo2024 (globalStartDate 2024 3 30) (lastDayOfVisibleMonth 2024 3))
          = Returned st
       /\ [tA; tB; tC] !! (29 mod length [tA; tB; tC])%nat = Some t
       /\ fullSchedule st !! formatDate (mkDate 2024 3 28) = Some (Some (id t))
       /\ forall j : nat, monthDates !! j = Some (mkDate 2024 3 28) ->
            shifts !! j = Some (mkShift (formatDate (mkDate 2024 3 28)) (Some (id t))).
Proof.
  split; [discriminate|]. split; [vm_compute; reflexivity|].
  apply (rotation_counts_from_start_date cairo2024 [tA; tB; tC] 2024 3 30 ∅ 2024 3 29
           (mkDate 2024 3 28)).
  - discriminate.
  - vm_compute. reflexivity.
  - apply Forall_forall. intros x _. left. apply lookup_empty.
Defined.

(** X2. Whatever the roster, the start date and the override map, the
    effect returns the entries of the days of the visible month in calendar
    order, each under the key of its day, and no key occurs twice. *)
Theorem schedule_lists_month_days (zone : Zone) (ts : list Teacher) (sy sm sd : Z)
    (overrides : gmap string string) (cy cm : Z) :
  exists monthDates shifts,
    getDatesInMonth cy cm = Returned monthDates
    /\ scheduleEffect zone ts sy sm sd overrides cy cm = Returned shifts
    /\ List.map date shifts = List.map formatDate monthDates
    /\ NoDup (List.map date shifts)
    /\ (0 <= cm <= 11 ->
        length shifts = Z.to_nat (daysInMonth (fullYear cy) cm)
        /\ forall (i : nat) s, shifts !! i = Some s ->
             date s = formatDate (mkDate (fullYear cy) cm (Z.of_nat i + 1))).
Proof.
  destruct (scheduleEffect_entries zone ts sy sm sd overrides cy cm)
    as (monthDates & shifts & Hget & Heff & Hall).
  destruct (getDatesInMonth_returns cy cm) as (monthDates' & Hget' & Hvalid).
  rewrite Hget in Hget'. injection Hget' as <-.
  assert (Hdates : List.map date shifts = List.map formatDate monthDates).
  { clear -Hall. induction Hall as [|d s ds ss [Hd _] _ IH]; cbn; [reflexivity|].
    now rewrite Hd, IH. }
  exists monthDates, shifts. split; [exact Hget|]. split; [exact Heff|].
  split; [exact Hdates|]. split.
  - rewrite Hdates. destruct (decide (0 <= cm <= 11)) as [Hm|Hm].
    + rewrite getDatesInMonth_month in Hget by assumption. injection Hget as <-.
      rewrite <- (calendarDays_month (fullYear cy) cm Hm).
      assert (Hl : validDate (mkDate (fullYear cy) cm (daysInMonth (fullYear cy) cm))).
      { pose proof (daysInMonth_bounds (fullYear cy) cm). unfold validDate. cbn. lia. }
      apply (walkDays_keys_NoDup everyMidnight _ Hl).
      pose proof (daysInMonth_bounds (fullYear cy) cm). unfold validDate. cbn. lia.
    + rewrite getDatesInMonth_other in Hget by assumption. injection Hget as <-.
      constructor.
  - intros Hm. rewrite getDatesInMonth_month in Hget by assumption. injection Hget as <-.
    split.
    + rewrite <- (Forall2_length _ _ _ Hall). apply monthDays_length.
    + intros i s Hs.
      assert (Hi : (i < Z.to_nat (daysInMonth (fullYear cy) cm))%nat).
      { rewrite <- monthDays_length. rewrite (Forall2_length _ _ _ Hall).
        eapply lookup_lt_Some, Hs. }
      pose proof (monthDays_lookup (fullYear cy) cm i Hi) as Hd.
      destruct (Forall2_lookup_lr _ _ _ _ _ _ Hall Hd Hs) as [Hdate _]. exact Hdate.
Qed.

Lemma schedule_lists_month_days_witness :
  0 <= 1 <= 11
  /\ exists monthDates shifts,
       getDatesInMonth 2023 1 = Returned monthDates
       /\ scheduleEffect everyMidnight [tA; tB] 2023 1 20 twoPicks 2023 1 = Returned shifts
       /\ length shifts = Z.to_nat (daysInMonth (fullYear 2023) 1).
Proof.
  split; [lia|].
  destruct (schedule_lists_month_days everyMidnight [tA; tB] 2023 1 20 twoPicks 2023 1)
    as (monthDates & shifts & Hget & Heff & _ & _ & Hm).
  exists monthDates, shifts. split; [exact Hget|]. split; [exact Heff|].
  apply Hm. lia.
Defined.

(** X3. Every teacher id that the effect returns is the id of a teacher of
    the current roster: an id that is only in the override map is never
    shown. *)
Theorem assigned_teachers_are_in_roster (zone : Zone) (ts : list Teacher) (sy sm sd : Z)
    (overrides : gmap string string) (cy cm : Z) :
  exists shifts,
    scheduleEffect zone ts sy sm sd overrides cy cm = Returned shifts
    /\ forall s tid, s ∈ shifts -> teacherId s = Some tid ->
         exists t, t ∈ ts /\ id t = tid.
Proof.
  destruct (scheduleEffect_entries zone ts sy sm sd overrides cy cm)
    as (monthDates & shifts & Hget & Heff & Hall).
  exists shifts. split; [exact Heff|].
  intros s tid Hin Htid. apply list_elem_of_lookup in Hin as [i Hi].
  destruct (Forall2_lookup_r _ _ _ _ _ Hall Hi) as (d & _ & _ & [Hnone|(t & Ht & Hsome)]).
  - congruence.
  - exists t. split; [exact Ht|congruence].
Qed.

(** X4. An entry of the override map for a calendar day before the start
    date, or after the last day of the visible month, has no effect on the
    shifts returned for that month: setting it to any value, or removing
    it, leaves the result as it is.  What is entered for a later month does
    not change an earlier one. *)
Theorem overrides_outside_walk_ignored (zone : Zone) (ts : list Teacher) (sy sm sd : Z)
    (overrides : gmap string string) (cy cm : Z) (d : Date) (v : string) :
  validDate d ->
  Date_ltb d (globalStartDate sy sm sd) = true
  \/ Date_gtb d (lastDayOfVisibleMonth cy cm) = true ->
  scheduleEffect zone ts sy sm sd (<[formatDate d := v]> overrides) cy cm
  = scheduleEffect zone ts sy sm sd overrides cy cm
  /\ scheduleEffect zone ts sy sm sd (delete (formatDate d) overrides) cy cm
     = scheduleEffect zone ts sy sm sd overrides cy cm.
Proof.
  intros Hd Hout.
  pose proof (globalStartDate_valid sy sm sd) as Hs.
  pose proof (lastDayOfVisibleMonth_valid cy cm) as Hl.
  assert (Hkey : forall x,
            x ∈ walkDays zone (globalStartDate sy sm sd) (lastDayOfVisibleMonth cy cm) ->
            formatDate d ≠ formatDate x).
  { intros x Hx Heq.
    pose proof (walkDays_bounds zone _ Hl _ Hs) as Hb. rewrite Forall_forall in Hb.
    destruct (Hb x Hx) as [Hxv Hord].
    apply formatDate_inj in Heq; [|assumption..]. subst x.
    unfold Date_gtb in Hout. rewrite !Date_ltb_ordinal in Hout by assumption.
    destruct Hout as [H|H]; apply Z.ltb_lt in H; lia. }
  assert (Hsame : forall o' : gmap string string,
            (forall key, key ≠ formatDate d -> o' !! key = overrides !! key) ->
            scheduleEffect zone ts sy sm sd o' cy cm = scheduleEffect zone ts sy sm sd overrides cy cm).
  { intros o' Ho'. unfold scheduleEffect, generateSchedule.
    destruct (length ts =? 0)%nat; [reflexivity|].
    destruct (Date_gtb (globalStartDate sy sm sd) (lastDayOfVisibleMonth cy cm));
      [reflexivity|].
    rewrite !walkLoop_walkDays by assumption.
    rewrite (runDays_ext ts o' overrides); [reflexivity|].
    apply Forall_forall. intros x Hx. apply Ho'. intros Heq. exact (Hkey x Hx (eq_sym Heq)). }
  split; apply Hsame; intros key Hne.
  - now apply lookup_insert_ne.
  - now apply lookup_delete_ne.
Qed.

Lemma overrides_outside_walk_ignored_witness :
  validDate (mkDate 2024 1 5)
  /\ Date_gtb (mkDate 2024 1 5) (lastDayOfVisibleMonth 2024 0) = true
  /\ scheduleEffect everyMidnight [tA; tB; tC] 2024 1 1
       (<[formatDate (mkDate 2024 1 5) := "C"%string]> twoPicks) 2024 0
     = scheduleEffect everyMidnight [tA; tB; tC] 2024 1 1 twoPicks 2024 0
  /\ scheduleEffect everyMidnight [tA; tB; tC] 2024 1 1
       (delete (formatDate (mkDate 2024 1 5)) twoPicks) 2024 0
     = scheduleEffect everyMidnight [tA; tB; tC] 2024 1 1 twoPicks 2024 0.
Proof.
  assert (Hv : validDate (mkDate 2024 1 5)) by valid_date.
  split; [exact Hv|]. split; [vm_compute; reflexivity|].
  apply (overrides_outside_walk_ignored everyMidnight [tA; tB; tC] 2024 1 1 twoPicks 2024 0
           (mkDate 2024 1 5) "C"%string Hv).
  right. vm_compute. reflexivity.
Defined.

(** X5. [getDatesInMonth(year, month)] returns, for a month index 0..11,
    the days 1, 2, ... of that month of that year in order, as many as the
    month has (28 to 31), the year being 1900 + year when year is in 0..99;
    for any other month index it returns the empty list.  It always
    returns, and every date it returns is a calendar day. *)
Theorem getDatesInMonth_lists_the_month (year month : Z) :
  exists dates,
    getDatesInMonth year month = Returned dates
    /\ Forall validDate dates
    /\ (0 <= month <= 11 ->
        28 <= Z.of_nat (length dates) <= 31
        /\ Z.of_nat (length dates) = daysInMonth (fullYear year) month
        /\ forall i : nat, (i < length dates)%nat ->
             dates !! i = Some (mkDate (fullYear year) month (Z.of_nat i + 1)))
    /\ (~ 0 <= month <= 11 -> dates = []).
Proof.
  destruct (getDatesInMonth_returns year month) as (dates & Hget & Hvalid).
  exists dates. split; [exact Hget|]. split; [exact Hvalid|]. split.
  - intros Hm. rewrite getDatesInMonth_month in Hget by assumption. injection Hget as <-.
    pose proof (daysInMonth_bounds (fullYear year) month).
    rewrite monthDays_length. split; [lia|]. split; [lia|].
    intros i Hi. now apply monthDays_lookup.
  - intros Hm. rewrite getDatesInMonth_other in Hget by assumption. now injection Hget as <-.
Qed.

Lemma getDatesInMonth_lists_the_month_witness :
  0 <= 1 <= 11
  /\ exists dates,
       getDatesInMonth 2024 1 = Returned dates
       /\ Z.of_nat (length dates) = daysInMonth (fullYear 2024) 1
       /\ daysInMonth (fullYear 2024) 1 = 29.
Proof.
  split; [lia|].
  destruct (getDatesInMonth_lists_the_month 2024 1) as (dates & Hget & _ & Hm & _).
  exists dates. split; [exact Hget|]. split; [apply Hm; lia|reflexivity].
Defined.

(** X6. Two calendar days have the same key ['YYYY-MM-DD'] only if they
    are the same day: the override map, the colour map and the schedule
    never mix up two days. *)
Theorem formatDate_keys_are_distinct (d e : Date) :
  validDate d -> validDate e -> (formatDate d = formatDate e <-> d = e).
Proof.
  intros Hd He. split; [now apply formatDate_inj|now intros ->].
Qed.

Lemma formatDate_keys_are_distinct_witness :
  validDate (mkDate 2024 0 11) /\ validDate (mkDate 2024 10 1)
  /\ (formatDate (mkDate 2024 0 11) = formatDate (mkDate 2024 10 1)
      <-> mkDate 2024 0 11 = mkDate 2024 10 1).
Proof.
  assert (H1 : validDate (mkDate 2024 0 11)) by valid_date.
  assert (H2 : validDate (mkDate 2024 10 1)) by valid_date.
  split; [exact H1|]. split; [exact H2|].
  apply (formatDate_keys_are_distinct (mkDate 2024 0 11) (mkDate 2024 10 1) H1 H2).
Defined.

(** X7. Choosing a teacher of the roster in the [select] of a day of the
    visible month that the loop of the generator visits makes the next
    recomputation show that teacher on that day, provided the id of the
    teacher is not empty and is neither ["null"] (the value of the option
    that clears) nor the marker ["__EMPTY__"].  The loop visits the days of
    the month from the start date on; the last day of the month is left out
    when the pointer has crossed a skipped midnight ([walkDays_visits]). *)
Theorem select_pick_is_shown (zone : Zone) (st : AppState) (sy sm sd cy cm : Z)
    (monthDates : list Date) (j : nat) (d : Date) (t : Teacher) :
  getDatesInMonth cy cm = Returned monthDates -> monthDates !! j = Some d ->
  d ∈ walkDays zone (globalStartDate sy sm sd) (lastDayOfVisibleMonth cy cm) ->
  t ∈ teachers st ->
  id t ≠ ""%string -> id t ≠ "null"%string -> id t ≠ EMPTY ->
  manualChanges (handleSelectChange (formatDate d) (id t) st) !! formatDate d = Some (id t)
  /\ exists shifts,
       scheduleEffect zone (teachers (handleSelectChange (formatDate d) (id t) st)) sy sm sd
         (manualChanges (handleSelectChange (formatDate d) (id t) st)) cy cm
       = Returned shifts
       /\ shifts !! j = Some (mkShift (formatDate d) (Some (id t))).
Proof.
  intros Hget Hj Hvisit Hin Hne Hnull Hmark.
  assert (Hst : handleSelectChange (formatDate d) (id t) st
                = {| teachers := teachers st;
                     scheduleStartDate := scheduleStartDate st;
                     manualChanges := <[formatDate d := id t]> (manualChanges st);
                     dateColors := dateColors st |}).
  { unfold handleSelectChange, handleUpdateShift.
    destruct (String.eqb_spec (id t) "null"); [contradiction|].
    now rewrite truthy_true. }
  rewrite Hst. cbn [teachers manualChanges].
  split; [apply lookup_insert_eq|].
  assert (Hts : teachers st ≠ []) by (intros E; rewrite E in Hin; inversion Hin).
  unfold scheduleEffect.
  destruct (teachers st) as [|t0 ts'] eqn:Ets; [contradiction|]. cbn [length Nat.eqb].
  apply list_elem_of_split in Hvisit as (pre & post & Hwalk).
  destruct (generateSchedule_day zone (t0 :: ts') sy sm sd
              (<[formatDate d := id t]> (manualChanges st)) cy cm Hts _ _ _ Hwalk)
    as (monthDates' & shifts & _ & s1 & v & c' & Hget' & Hgen & _ & _ & _ & Ha & _ & _
        & Hshift).
  rewrite Hget in Hget'. injection Hget' as <-.
  destruct (teacherIndexMap_has (t0 :: ts') t Hin) as [iz Hiz].
  rewrite (assign_teacher _ _ _ _ _ _ iz (lookup_insert_eq _ _ _) Hne Hmark Hiz) in Ha.
  injection Ha as <- _.
  exists shifts. split; [exact Hgen|apply Hshift, Hj].
Qed.

Lemma select_pick_is_shown_witness :
  getDatesInMonth 2024 3 = Returned (monthDays 2024 3)
  /\ monthDays 2024 3 !! 27%nat = Some (mkDate 2024 3 28)
  /\ mkDate 2024 3 28
       ∈ walkDays cairo2024 (globalStartDate 2024 4 1) (lastDayOfVisibleMonth 2024 3)
  /\ tC ∈ teachers pickedB
  /\ manualChanges (handleSelectChange (formatDate (mkDate 2024 3 28)) (id tC) pickedB)
       !! formatDate (mkDate 2024 3 28) = Some (id tC)
  /\ exists shifts,
       scheduleEffect cairo2024
         (teachers (handleSelectChange (formatDate (mkDate 2024 3 28)) (id tC) pickedB))
         2024 4 1
         (manualChanges (handleSelectChange (formatDate (mkDate 2024 3 28)) (id tC) pickedB))
         2024 3
       = Returned shifts
       /\ shifts !! 27%nat = Some (mkShift (formatDate (mkDate 2024 3 28)) (Some (id tC))).
Proof.
  assert (Hin : tC ∈ teachers pickedB)
    by (cbn; apply list_elem_of_further, list_elem_of_further, list_elem_of_here).
  assert (Hvisit : mkDate 2024 3 28
            ∈ walkDays cairo2024 (globalStartDate 2024 4 1) (lastDayOfVisibleMonth 2024 3))
    by (apply (list_elem_of_lookup_2 _ 27%nat); vm_compute; reflexivity).
  split; [vm_compute; reflexivity|]. split; [vm_compute; reflexivity|].
  split; [exact Hvisit|]. split; [exact Hin|].
  apply (select_pick_is_shown cairo2024 pickedB 2024 4 1 2024 3 (monthDays 2024 3) 27
           (mkDate 2024 3 28) tC);
    try (vm_compute; reflexivity); try discriminate; [exact Hvisit|exact Hin].
Defined.

(** X8. In the calendar grid and in the export, the cell of day k of the
    visible month looks its shift up by the key of [new Date(year, month,
    k)]; it finds the entry of that very day, the k-th entry the effect
    returned. *)
Theorem grid_cell_finds_its_shift (zone : Zone) (ts : list Teacher) (sy sm sd : Z)
    (overrides : gmap string string) (cy cm : Z) (k : Z) :
  0 <= cm <= 11 -> 1 <= k <= daysInMonth (fullYear cy) cm ->
  exists shifts s,
    scheduleEffect zone ts sy sm sd overrides cy cm = Returned shifts
    /\ shifts !! Z.to_nat (k - 1) = Some s
    /\ date s = formatDate (newDate cy cm k)
    /\ findShift shifts (formatDate (newDate cy cm k)) = Some s.
Proof.
  intros Hm Hk.
  destruct (scheduleEffect_entries zone ts sy sm sd overrides cy cm)
    as (monthDates & shifts & Hget & Heff & Hall).
  rewrite getDatesInMonth_month in Hget by assumption. injection Hget as <-.
  assert (Hi : (Z.to_nat (k - 1) < Z.to_nat (daysInMonth (fullYear cy) cm))%nat) by lia.
  pose proof (monthDays_lookup (fullYear cy) cm _ Hi) as Hd.
  replace (Z.of_nat (Z.to_nat (k - 1)) + 1) with k in Hd by lia.
  destruct (Forall2_lookup_l _ _ _ _ _ Hall Hd) as (s & Hs & Hdate & _).
  rewrite newDate_day by assumption.
  exists shifts, s. split; [exact Heff|]. split; [exact Hs|]. split; [exact Hdate|].
  rewrite <- Hdate. apply (findShift_lookup shifts _ s Hs).
  intros j s' Hj Hs' Heq.
  destruct (Forall2_lookup_r _ _ _ _ _ Hall Hs') as (d' & Hd' & Hdate' & _).
  rewrite monthDays_lookup in Hd' by lia. injection Hd' as <-.
  rewrite Hdate, Hdate' in Heq.
  pose proof (daysInMonth_bounds (fullYear cy) cm).
  apply formatDate_inj in Heq; [|unfold validDate; cbn; lia..].
  injection Heq as Heq. lia.
Qed.

Lemma grid_cell_finds_its_shift_witness :
  0 <= 0 <= 11 /\ 1 <= 31 <= daysInMonth (fullYear 2024) 0
  /\ exists shifts s,
       scheduleEffect everyMidnight [tA; tB; tC] 2024 1 1 twoPicks 2024 0 = Returned shifts
       /\ shifts !! Z.to_nat (31 - 1) = Some s
       /\ date s = formatDate (newDate 2024 0 31)
       /\ findShift shifts (formatDate (newDate 2024 0 31)) = Some s.
Proof.
  assert (Hk : 1 <= 31 <= daysInMonth (fullYear 2024) 0)
    by (change (daysInMonth (fullYear 2024) 0) with 31; lia).
  split; [lia|]. split; [exact Hk|].
  apply (grid_cell_finds_its_shift everyMidnight [tA; tB; tC] 2024 1 1 twoPicks 2024 0 31); [lia|exact Hk].
Defined.

(* ===================================================================== *)
(** ** The roster under reordering, and what the handlers keep *)
(* ===================================================================== *)

Module RosterFacts.

Lemma findIndex_Some tid ts : forall i,
  findIndex tid ts = Some i ->
  exists t, ts !! i = Some t /\ id t = tid
    /\ forall (j : nat) t', (j < i)%nat -> ts !! j = Some t' -> id t' ≠ tid.
Proof.
  induction ts as [|t0 ts IH]; intros i H; cbn [findIndex] in H; [discriminate|].
  destruct (String.eqb_spec (id t0) tid) as [Heq|Hne].
  - injection H as <-. exists t0. split; [reflexivity|]. split; [exact Heq|]. intros; lia.
  - destruct (findIndex tid ts) as [i'|] eqn:E; [|discriminate].
    cbn in H. injection H as <-.
    destruct (IH i' eq_refl) as (t & Ht & Hid & Hfirst).
    exists t. split; [exact Ht|]. split; [exact Hid|].
    intros [|j] t' Hj Ht'; cbn in Ht'.
    + now injection Ht' as <-.
    + apply (Hfirst j t'); [lia|exact Ht'].
Qed.

Lemma findIndex_None tid ts :
  findIndex tid ts = None <-> Forall (fun t => id t ≠ tid) ts.
Proof.
  induction ts as [|t0 ts IH]; cbn [findIndex].
  - split; [constructor|reflexivity].
  - rewrite Forall_cons. destruct (String.eqb_spec (id t0) tid) as [Heq|Hne].
    + split; [discriminate|tauto].
    + destruct (findIndex tid ts); cbn; split; try discriminate; try tauto.
      intros [_ H]. apply IH in H. discriminate.
Qed.

Lemma spliceIn_delete {A} (l : list A) (i j : nat) x :
  l !! i = Some x -> (j < length l)%nat ->
  spliceIn j x (delete i l) ≡ₚ l
  /\ length (spliceIn j x (delete i l)) = length l
  /\ spliceIn j x (delete i l) !! j = Some x
  /\ delete j (spliceIn j x (delete i l)) = delete i l.
Proof.
  intros Hi Hj. unfold spliceIn.
  assert (Hlen : length (delete i l) = (length l - 1)%nat)
    by (apply length_delete; eauto).
  assert (Htake : length (take j (delete i l)) = j) by (rewrite length_take; lia).
  split; [|split; [|split]].
  - rewrite <- Permutation_middle, take_drop. symmetry. now apply delete_Permutation.
  - rewrite length_app. cbn. rewrite Htake, length_drop, Hlen.
    apply lookup_lt_Some in Hi. lia.
  - now apply list_lookup_middle.
  - rewrite <- Htake at 1. rewrite delete_middle. apply take_drop.
Qed.

Lemma dragSort_Permutation a b ts : dragSort a b ts ≡ₚ ts.
Proof.
  unfold dragSort. destruct a as [a|]; [|reflexivity]. destruct b as [b|]; [|reflexivity].
  destruct (negb (truthy a) || negb (truthy b) || String.eqb a b); [reflexivity|].
  destruct (findIndex a ts) as [i|]; [|reflexivity].
  destruct (findIndex b ts) as [j|] eqn:Ej; [|reflexivity].
  destruct (ts !! i) as [x|] eqn:Ei; [|reflexivity].
  apply findIndex_Some in Ej as (t & Hj & _). apply lookup_lt_Some in Hj.
  now apply spliceIn_delete.
Qed.

Lemma filter_ids_NoDup tid (ts : list Teacher) :
  NoDup (id <$> ts) ->
  NoDup (id <$> List.filter (fun t => negb (String.eqb (id t) tid)) ts).
Proof.
  induction ts as [|t ts IH]; cbn; [constructor|].
  intros Hnd. apply NoDup_cons in Hnd as [Hnin Hnd].
  destruct (negb (String.eqb (id t) tid)); [|now apply IH].
  cbn. apply NoDup_cons. split; [|now apply IH].
  intros Hin. apply Hnin. apply list_elem_of_fmap in Hin as (t' & Heq & Hin).
  apply list_elem_of_fmap. exists t'. split; [exact Heq|].
  apply list_elem_of_In, filter_In in Hin as [Hin _]. now apply list_elem_of_In.
Qed.

Lemma act_uniqueIds st a : offered st a -> uniqueIds st -> uniqueIds (act a st).
Proof.
  unfold uniqueIds. intros Hoff Hnd.
  destruct a as [now trimmed|tid|c|c|value|a b|date value|date|date color]; cbn [act].
  - unfold handleAddTeacher. destruct (truthy trimmed); [|exact Hnd]. cbn [teachers].
    rewrite fmap_app. apply NoDup_app. split; [exact Hnd|]. split.
    + intros x Hx Hx'. cbn in Hx'. apply list_elem_of_singleton in Hx'. subst x.
      apply list_elem_of_fmap in Hx as (t & Heq & Hin). cbn in Hoff.
      rewrite Forall_forall in Hoff. exact (Hoff t Hin (eq_sym Heq)).
    + cbn. apply NoDup_singleton.
  - cbn [handleDeleteTeacher teachers]. now apply filter_ids_NoDup.
  - unfold handleClearTeachers. destruct c; [constructor|exact Hnd].
  - unfold handleResetSchedule. destruct c; exact Hnd.
  - unfold handleStartDateChange. destruct (truthy value); exact Hnd.
  - cbn [handleDragSort teachers]. now rewrite dragSort_Permutation.
  - exact Hnd.
  - exact Hnd.
  - exact Hnd.
Qed.

Lemma act_overridesInRoster st a :
  offered st a -> overridesInRoster st -> overridesInRoster (act a st).
Proof.
  unfold overridesInRoster. intros Hoff Hinv.
  assert (Hmarker : EMPTY ≠ ""%string) by discriminate.
  destruct a as [now trimmed|tid|c|c|value|a b|date value|date|date color]; cbn [act].
  - unfold handleAddTeacher. destruct (truthy trimmed); [|exact Hinv].
    cbn [teachers manualChanges]. intros date v Hv.
    destruct (Hinv date v Hv) as [Hne [->|(t & Hin & Hid)]]; split; auto.
    right. exists t. split; [|exact Hid]. apply elem_of_app. now left.
  - intros date v Hv. apply handleDeleteTeacher_lookup in Hv as [Hv Hne].
    destruct (Hinv date v Hv) as [Hne' [->|(t & Hin & Hid)]]; split; auto.
    right. exists t. split; [|exact Hid]. cbn [handleDeleteTeacher teachers].
    apply list_elem_of_In, filter_In. split; [now apply list_elem_of_In|].
    destruct (String.eqb_spec (id t) tid); [congruence|reflexivity].
  - unfold handleClearTeachers. destruct c; [|exact Hinv].
    cbn [manualChanges]. intros date v Hv. rewrite lookup_empty in Hv. discriminate.
  - unfold handleResetSchedule. destruct c; [|exact Hinv].
    cbn [manualChanges]. intros date v Hv. rewrite lookup_empty in Hv. discriminate.
  - unfold handleStartDateChange. destruct (truthy value); [|exact Hinv].
    cbn [manualChanges]. intros date v Hv. rewrite lookup_empty in Hv. discriminate.
  - cbn [handleDragSort teachers manualChanges]. intros date v Hv.
    destruct (Hinv date v Hv) as [Hne [->|(t & Hin & Hid)]]; split; auto.
    right. exists t. split; [|exact Hid]. now rewrite dragSort_Permutation.
  - unfold handleSelectChange, handleUpdateShift. cbn [teachers manualChanges].
    intros date' v Hv. destruct (decide (date = date')) as [<-|Hne].
    + rewrite lookup_insert_eq in Hv. injection Hv as <-.
      destruct (String.eqb_spec value "null") as [Hnull|Hnull]; [auto|].
      unfold truthy. destruct (String.eqb_spec value "") as [Hblank|Hblank]; cbn; [auto|].
      split; [exact Hblank|]. right. cbn in Hoff. destruct Hoff as [?|Hoff]; [contradiction|].
      exact Hoff.
    + rewrite lookup_insert_ne in Hv by assumption. eauto.
  - unfold handleClearShift, handleUpdateShift. cbn [teachers manualChanges].
    intros date' v Hv. destruct (decide (date = date')) as [<-|Hne].
    + rewrite lookup_insert_eq in Hv. injection Hv as <-. auto.
    + rewrite lookup_insert_ne in Hv by assumption. eauto.
  - exact Hinv.
Qed.

End RosterFacts.

Import RosterFacts.

(** X9. The handlers keep two invariants of the state.  From a state in
    which the ids of the roster are pairwise different and every override
    is the marker of an emptied day or the id of a teacher of the roster,
    every state reached by the handlers, called as the page calls them (a
    day's [select] offers the ids of the roster, a teacher is added at a
    clock reading that is not yet an id), has the same two properties.
    Deleting a teacher removes the overrides that name that teacher, which
    is what keeps the second one. *)
Theorem handlers_keep_roster_invariants (st0 st : AppState) :
  uniqueIds st0 -> overridesInRoster st0 -> reachable st0 st ->
  uniqueIds st /\ overridesInRoster st.
Proof.
  intros Hu Ho Hreach. induction Hreach as [|st a Hreach [IHu IHo] Hoff].
  - split; assumption.
  - split; [now apply act_uniqueIds|now apply act_overridesInRoster].
Qed.

Lemma handlers_keep_roster_invariants_witness :
  uniqueIds (defaultState "2024-01-01")
  /\ overridesInRoster (defaultState "2024-01-01")
  /\ reachable (defaultState "2024-01-01")
       (act (DeleteTeacher "3")
          (act (SelectChange "2024-01-02" "3")
             (act (AddTeacher 1704067200000 "Mai") (defaultState "2024-01-01"))))
  /\ uniqueIds
       (act (DeleteTeacher "3")
          (act (SelectChange "2024-01-02" "3")
             (act (AddTeacher 1704067200000 "Mai") (defaultState "2024-01-01"))))
  /\ overridesInRoster
       (act (DeleteTeacher "3")
          (act (SelectChange "2024-01-02" "3")
             (act (AddTeacher 1704067200000 "Mai") (defaultState "2024-01-01")))).
Proof.
  assert (Hu : uniqueIds (defaultState "2024-01-01")).
  { unfold uniqueIds. cbn. repeat (apply NoDup_cons; split;
      [rewrite ?elem_of_cons, elem_of_nil; intros H; repeat destruct H as [H|H];
       try discriminate H; exact H|]).
    constructor. }
  assert (Ho : overridesInRoster (defaultState "2024-01-01")).
  { intros date v Hv. cbn in Hv. rewrite lookup_empty in Hv. discriminate. }
  assert (Hr : reachable (defaultState "2024-01-01")
       (act (DeleteTeacher "3")
          (act (SelectChange "2024-01-02" "3")
             (act (AddTeacher 1704067200000 "Mai") (defaultState "2024-01-01"))))).
  { apply reachable_act; [apply reachable_act; [apply reachable_act;
      [apply reachable_start|]|]|].
    - cbn. repeat (constructor; [discriminate|]). constructor.
    - cbn. right. exists (mkTeacher "3" "Lê Văn C"). split; [|reflexivity].
      do 2 apply list_elem_of_further. apply list_elem_of_here.
    - exact I. }
  split; [exact Hu|]. split; [exact Ho|]. split; [exact Hr|].
  exact (handlers_keep_roster_invariants _ _ Hu Ho Hr).
Defined.

(** X10. In a state in which every override is the marker or names a
    teacher of the roster (X9), a day of the visible month that the loop of
    the generator visits and that has an override is shown as the override
    says: without teacher for the marker, and with the teacher of that id
    otherwise.  The branch of the generator for an id that is not in the
    roster is not taken. *)
Theorem overrides_shown_as_entered (zone : Zone) (st : AppState) (sy sm sd cy cm : Z)
    (monthDates : list Date) (j : nat) (d : Date) (v : string) :
  overridesInRoster st ->
  getDatesInMonth cy cm = Returned monthDates -> monthDates !! j = Some d ->
  d ∈ walkDays zone (globalStartDate sy sm sd) (lastDayOfVisibleMonth cy cm) ->
  manualChanges st !! formatDate d = Some v ->
  exists shifts,
    scheduleEffect zone (teachers st) sy sm sd (manualChanges st) cy cm = Returned shifts
    /\ shifts !! j
       = Some (mkShift (formatDate d) (if String.eqb v EMPTY then None else Some v)).
Proof.
  intros Hinv Hget Hj Hvisit Hv.
  destruct (String.eqb_spec v EMPTY) as [->|Hmark].
  - now apply (scheduleEffect_sentinel_day zone _ sy sm sd _ cy cm monthDates j d).
  - destruct (Hinv _ _ Hv) as [Hne [?|(t & Hin & Hid)]]; [contradiction|].
    assert (Hts : teachers st ≠ []) by (intros E; rewrite E in Hin; inversion Hin).
    unfold scheduleEffect.
    destruct (teachers st) as [|t0 ts'] eqn:Ets; [contradiction|]. cbn [length Nat.eqb].
    apply list_elem_of_split in Hvisit as (pre & post & Hwalk).
    destruct (generateSchedule_day zone (t0 :: ts') sy sm sd (manualChanges st) cy cm Hts
                _ _ _ Hwalk)
      as (monthDates' & shifts & _ & s1 & a & c' & Hget' & Hgen & _ & _ & _ & Ha & _ & _
          & Hshift).
    rewrite Hget in Hget'. injection Hget' as <-.
    destruct (teacherIndexMap_has (t0 :: ts') t Hin) as [iz Hiz]. rewrite Hid in Hiz.
    rewrite (assign_teacher _ _ _ _ _ _ iz Hv Hne Hmark Hiz) in Ha.
    injection Ha as <- _.
    exists shifts. split; [exact Hgen|apply Hshift, Hj].
Qed.

Lemma overrides_shown_as_entered_witness :
  overridesInRoster pickedB
  /\ getDatesInMonth 2024 0 = Returned (monthDays 2024 0)
  /\ monthDays 2024 0 !! 1%nat = Some (mkDate 2024 0 2)
  /\ mkDate 2024 0 2
       ∈ walkDays cairo2024 (globalStartDate 2024 1 1) (lastDayOfVisibleMonth 2024 0)
  /\ manualChanges pickedB !! formatDate (mkDate 2024 0 2) = Some "B"%string
  /\ exists shifts,
       scheduleEffect cairo2024 (teachers pickedB) 2024 1 1 (manualChanges pickedB) 2024 0
       = Returned shifts
       /\ shifts !! 1%nat
          = Some (mkShift (formatDate (mkDate 2024 0 2))
                    (if String.eqb "B" EMPTY then None else Some "B"%string)).
Proof.
  assert (Ho : overridesInRoster pickedB).
  { intros date v Hv. cbn in Hv. apply lookup_singleton_Some in Hv as [_ <-].
    split; [discriminate|]. right. exists tB. split; [|reflexivity].
    cbn. apply list_elem_of_further, list_elem_of_here. }
  assert (Hvisit : mkDate 2024 0 2
            ∈ walkDays cairo2024 (globalStartDate 2024 1 1) (lastDayOfVisibleMonth 2024 0))
    by (apply (list_elem_of_lookup_2 _ 1%nat); vm_compute; reflexivity).
  split; [exact Ho|]. split; [vm_compute; reflexivity|]. split; [vm_compute; reflexivity|].
  split; [exact Hvisit|]. split; [vm_compute; reflexivity|].
  apply (overrides_shown_as_entered cairo2024 pickedB 2024 1 1 2024 0 (monthDays 2024 0) 1
           (mkDate 2024 0 2) "B"%string Ho); try (vm_compute; reflexivity). exact Hvisit.
Defined.

(** X11. Dropping the teacher of id a on the teacher of id b (two
    different, non-empty ids of the roster, at the indices i and j) moves
    the dragged teacher to the index j that the target had; the other
    teachers keep their order, and the roster keeps its members and its
    length.  When one of the two ids is not in the roster, the roster stays
    as it is. *)
Theorem drag_sort_moves_one_teacher (ts : list Teacher) (a b : string) :
  a ≠ ""%string -> b ≠ ""%string -> a ≠ b ->
  (forall (i j : nat), findIndex a ts = Some i -> findIndex b ts = Some j ->
     exists x, ts !! i = Some x /\ id x = a
       /\ dragSort (Some a) (Some b) ts !! j = Some x
       /\ delete j (dragSort (Some a) (Some b) ts) = delete i ts
       /\ dragSort (Some a) (Some b) ts ≡ₚ ts
       /\ length (dragSort (Some a) (Some b) ts) = length ts)
  /\ (findIndex a ts = None \/ findIndex b ts = None ->
      dragSort (Some a) (Some b) ts = ts).
Proof.
  intros Ha Hb Hab.
  assert (Hguard : negb (truthy a) || negb (truthy b) || String.eqb a b = false).
  { rewrite !truthy_true by assumption. cbn.
    destruct (String.eqb_spec a b); [contradiction|reflexivity]. }
  split.
  - intros i j Hi Hj. unfold dragSort. rewrite Hguard, Hi, Hj.
    apply findIndex_Some in Hi as (x & Hx & Hid & _).
    apply findIndex_Some in Hj as (y & Hy & _). apply lookup_lt_Some in Hy.
    rewrite Hx. exists x.
    destruct (spliceIn_delete ts i j x Hx Hy) as (Hperm & Hlen & Hat & Hdel).
    auto 10.
  - intros Hnone. unfold dragSort. rewrite Hguard.
    destruct Hnone as [-> | Hnone]; [reflexivity|].
    rewrite Hnone. now destruct (findIndex a ts).
Qed.

Lemma drag_sort_moves_one_teacher_witness :
  "C"%string ≠ ""%string /\ "A"%string ≠ ""%string /\ "C"%string ≠ "A"%string
  /\ findIndex "C" [tA; tB; tC] = Some 2%nat /\ findIndex "A" [tA; tB; tC] = Some 0%nat
  /\ dragSort (Some "C"%string) (Some "A"%string) [tA; tB; tC] = [tC; tA; tB]
  /\ exists x, [tA; tB; tC] !! 2%nat = Some x /\ id x = "C"%string
       /\ dragSort (Some "C"%string) (Some "A"%string) [tA; tB; tC] !! 0%nat = Some x
       /\ delete 0%nat (dragSort (Some "C"%string) (Some "A"%string) [tA; tB; tC])
          = delete 2%nat [tA; tB; tC]
       /\ dragSort (Some "C"%string) (Some "A"%string) [tA; tB; tC] ≡ₚ [tA; tB; tC]
       /\ length (dragSort (Some "C"%string) (Some "A"%string) [tA; tB; tC])
          = length [tA; tB; tC].
Proof.
  split; [discriminate|]. split; [discriminate|]. split; [discriminate|].
  split; [reflexivity|]. split; [reflexivity|]. split; [reflexivity|].
  apply (proj1 (drag_sort_moves_one_teacher [tA; tB; tC] "C" "A"
                  ltac:(discriminate) ltac:(discriminate) ltac:(discriminate))
           2%nat 0%nat); reflexivity.
Defined.

(* ===================================================================== *)
(** ** The month in view *)
(* ===================================================================== *)

Module MonthFacts.

Lemma addDays_in_month y m dd :
  1 <= dd <= daysInMonth y m -> addDays (dd - 1) (mkDate y m 1) = mkDate y m dd.
Proof.
  intros Hdd. unfold addDays. destruct (Z.leb_spec 0 (dd - 1)); [|lia].
  rewrite (iter_nextDay_in_month y m (Z.to_nat (dd - 1)) 1) by lia. f_equal. lia.
Qed.

(** The first day of the month after month [m] of year [y]. *)
Lemma nextDay_last_of_month y m :
  nextDay (mkDate y m (daysInMonth y m))
  = if m <? 11 then mkDate y (m + 1) 1 else mkDate (y + 1) 0 1.
Proof.
  unfold nextDay. cbn [getFullYear getMonth getDate]. now rewrite Z.ltb_irrefl.
Qed.

Lemma addDays_past_month y m dd :
  daysInMonth y m < dd <= 31 ->
  addDays (dd - 1) (mkDate y m 1)
  = if m <? 11 then mkDate y (m + 1) (dd - daysInMonth y m)
    else mkDate (y + 1) 0 (dd - daysInMonth y m).
Proof.
  intros Hdd. pose proof (daysInMonth_bounds y m) as Hdim.
  unfold addDays. destruct (Z.leb_spec 0 (dd - 1)); [|lia].
  replace (Z.to_nat (dd - 1))
    with (Z.to_nat (dd - daysInMonth y m - 1) + S (Z.to_nat (daysInMonth y m - 1)))%nat
    by lia.
  rewrite Nat.iter_add, Nat.iter_succ.
  rewrite (iter_nextDay_in_month y m (Z.to_nat (daysInMonth y m - 1)) 1) by lia.
  replace (1 + Z.of_nat (Z.to_nat (daysInMonth y m - 1))) with (daysInMonth y m) by lia.
  rewrite nextDay_last_of_month.
  destruct (m <? 11).
  - pose proof (daysInMonth_bounds y (m + 1)).
    rewrite (iter_nextDay_in_month y (m + 1)) by lia. f_equal. lia.
  - pose proof (daysInMonth_bounds (y + 1) 0).
    rewrite (iter_nextDay_in_month (y + 1) 0) by lia. f_equal. lia.
Qed.

End MonthFacts.

Import MonthFacts.

(** X12. When the day of the month of [currentDate] is at most 28,
    [handleMonthChange(offset)] keeps the day and moves the month by
    exactly [offset] months, carrying into the year; going by [offset] and
    then by [-offset] returns to the date one started from. *)
Theorem month_change_moves_by_offset (offset : Z) (d : Date) :
  validDate d -> getDate d <= 28 ->
  handleMonthChange offset d
  = mkDate (getFullYear d + (getMonth d + offset) / 12) ((getMonth d + offset) mod 12)
           (getDate d)
  /\ validDate (handleMonthChange offset d)
  /\ getFullYear (handleMonthChange offset d) * 12 + getMonth (handleMonthChange offset d)
     = getFullYear d * 12 + getMonth d + offset
  /\ handleMonthChange (- offset) (handleMonthChange offset d) = d.
Proof.
  intros [Hm Hd] H28. destruct d as [y m dd]. cbn [getFullYear getMonth getDate] in *.
  assert (Hstep : forall y0 m0 k,
            handleMonthChange k (mkDate y0 m0 dd)
            = mkDate (y0 + (m0 + k) / 12) ((m0 + k) mod 12) dd).
  { intros y0 m0 k. unfold handleMonthChange, setMonth. cbn [getFullYear getMonth getDate].
    apply addDays_in_month.
    pose proof (daysInMonth_bounds (y0 + (m0 + k) / 12) ((m0 + k) mod 12)). lia. }
  rewrite !Hstep. cbn [getFullYear getMonth getDate].
  pose proof (Z.mod_pos_bound (m + offset) 12 ltac:(lia)) as Hb.
  pose proof (Z.div_mod (m + offset) 12 ltac:(lia)) as Hdm.
  split; [reflexivity|]. split.
  - unfold validDate. cbn [getFullYear getMonth getDate].
    pose proof (daysInMonth_bounds (y + (m + offset) / 12) ((m + offset) mod 12)). lia.
  - split; [lia|].
    set (m2 := (m + offset) mod 12) in *. set (q := (m + offset) / 12) in *.
    assert (Hback : m2 + - offset = 12 * (- q) + m) by lia.
    rewrite Hback.
    replace (12 * - q + m) with (m + (- q) * 12) by lia.
    rewrite Z.div_add, Z.mod_add by lia.
    rewrite Z.div_small, Z.mod_small by lia. f_equal. lia.
Qed.

Lemma month_change_moves_by_offset_witness :
  validDate (mkDate 2024 10 15) /\ 15 <= 28
  /\ handleMonthChange 3 (mkDate 2024 10 15) = mkDate 2025 1 15
  /\ handleMonthChange (- 3) (handleMonthChange 3 (mkDate 2024 10 15)) = mkDate 2024 10 15.
Proof.
  assert (Hv : validDate (mkDate 2024 10 15)) by valid_date.
  assert (H28 : getDate (mkDate 2024 10 15) <= 28) by (cbn; lia).
  split; [exact Hv|]. split; [lia|].
  split; [vm_compute; reflexivity|].
  apply (month_change_moves_by_offset 3 (mkDate 2024 10 15) Hv H28).
Defined.

(** X13. When the month asked for is too short for the day of the month
    of [currentDate] (a 29th, 30th or 31st), [handleMonthChange] lands in
    the month after the one asked for: the view skips a month.  From
    2024-01-31 the button for the next month leads to March 2024. *)
Theorem month_change_skips_short_month (offset : Z) (d : Date) :
  validDate d ->
  daysInMonth (getFullYear d + (getMonth d + offset) / 12) ((getMonth d + offset) mod 12)
  < getDate d ->
  getFullYear (handleMonthChange offset d) * 12 + getMonth (handleMonthChange offset d)
  = getFullYear d * 12 + getMonth d + offset + 1
  /\ getDate (handleMonthChange offset d)
     = getDate d
       - daysInMonth (getFullYear d + (getMonth d + offset) / 12)
                     ((getMonth d + offset) mod 12)
  /\ 0 <= getMonth (handleMonthChange offset d) <= 11.
Proof.
  intros [Hm Hd] Hshort. destruct d as [y m dd]. cbn [getFullYear getMonth getDate] in *.
  pose proof (daysInMonth_bounds y m).
  unfold handleMonthChange, setMonth. cbn [getFullYear getMonth getDate].
  rewrite addDays_past_month by lia.
  pose proof (Z.mod_pos_bound (m + offset) 12 ltac:(lia)) as Hb.
  pose proof (Z.div_mod (m + offset) 12 ltac:(lia)) as Hdm.
  destruct (Z.ltb_spec ((m + offset) mod 12) 11); cbn [getFullYear getMonth getDate]; lia.
Qed.

Lemma month_change_skips_short_month_witness :
  validDate (mkDate 2024 0 31)
  /\ daysInMonth (2024 + (0 + 1) / 12) ((0 + 1) mod 12) < 31
  /\ handleMonthChange 1 (mkDate 2024 0 31) = mkDate 2024 2 2
  /\ getFullYear (handleMonthChange 1 (mkDate 2024 0 31)) * 12
     + getMonth (handleMonthChange 1 (mkDate 2024 0 31))
     = 2024 * 12 + 0 + 1 + 1.
Proof.
  assert (Hv : validDate (mkDate 2024 0 31)) by valid_date.
  assert (Hs : daysInMonth (getFullYear (mkDate 2024 0 31)
                            + (getMonth (mkDate 2024 0 31) + 1) / 12)
                 ((getMonth (mkDate 2024 0 31) + 1) mod 12)
               < getDate (mkDate 2024 0 31)) by (vm_compute; reflexivity).
  split; [exact Hv|]. split; [vm_compute; reflexivity|].
  split; [vm_compute; reflexivity|].
  apply (month_change_skips_short_month 1 (mkDate 2024 0 31) Hv Hs).
Defined.

(* ===================================================================== *)
(** ** The text colour of a cell *)
(* ===================================================================== *)

Module ColorFacts.

Lemma hexDigit_Some c h :
  hexDigit c = Some h ->
  0 <= h <= 15 /\ isWhiteSpace c = false
  /\ isAscii c 45 = false /\ isAscii c 43 = false
  /\ isAscii c 120 = false /\ isAscii c 88 = false.
Proof.
  destruct c as [[] [] [] [] [] [] [] []]; vm_compute; intros H; try discriminate H;
    injection H as <-; repeat split; discriminate.
Qed.

(** [parseInt] of two digits of radix 16. *)
Lemma parseInt16_pair c1 c2 h1 h2 :
  hexDigit c1 = Some h1 -> hexDigit c2 = Some h2 ->
  parseInt16 (String c1 (String c2 EmptyString)) = Some (16 * h1 + h2).
Proof.
  intros H1 H2.
  destruct (hexDigit_Some c1 h1 H1) as (_ & Hw & Hm & Hp & _).
  destruct (hexDigit_Some c2 h2 H2) as (_ & _ & _ & _ & Hx & HX).
  unfold parseInt16. cbn [trimStart]. rewrite Hw, Hm, Hp. cbn [orb].
  rewrite Hx, HX. cbn [orb andb]. rewrite Bool.andb_false_r.
  cbn [hexDigits]. rewrite H1, H2. cbn [default]. unfold Datatypes.id. f_equal. lia.
Qed.

End ColorFacts.

Import ColorFacts.

(** X14. For a colour that starts with an ASCII character followed by
    six digits of radix 16 (["#rrggbb"], whatever follows),
    [getTextColorForBg] returns
    ['text-black'] when 299 r + 587 g + 114 b >= 128000 and ['text-white']
    otherwise, r, g and b being the values of the three pairs of digits: a
    white background gets black text and a black one white text. *)
Theorem text_colour_follows_luminance (c0 c1 c2 c3 c4 c5 c6 : ascii) (rest : string)
    (h1 h2 h3 h4 h5 h6 : Z) :
  (nat_of_ascii c0 < 128)%nat ->
  hexDigit c1 = Some h1 -> hexDigit c2 = Some h2 -> hexDigit c3 = Some h3 ->
  hexDigit c4 = Some h4 -> hexDigit c5 = Some h5 -> hexDigit c6 = Some h6 ->
  getTextColorForBg
    (Some (String c0 (String c1 (String c2 (String c3 (String c4 (String c5
             (String c6 rest))))))))
  = if 128000 <=? (16 * h1 + h2) * 299 + (16 * h3 + h4) * 587 + (16 * h5 + h6) * 114
    then "text-black"%string else "text-white"%string.
Proof.
  intros _ H1 H2 H3 H4 H5 H6. unfold getTextColorForBg, truthy.
  assert (Hsub : substr 5 2 (String c0 (String c1 (String c2 (String c3 (String c4
                   (String c5 (String c6 rest)))))))
                 = String c5 (String c6 EmptyString)) by (destruct rest; reflexivity).
  rewrite Hsub.
  cbn [String.eqb String.length negb orb Nat.ltb Nat.leb substr String.substring].
  rewrite (parseInt16_pair c1 c2 h1 h2 H1 H2), (parseInt16_pair c3 c4 h3 h4 H3 H4),
    (parseInt16_pair c5 c6 h5 h6 H5 H6).
  reflexivity.
Qed.

Lemma text_colour_follows_luminance_witness :
  getTextColorForBg (Some "#ffffff"%string) = "text-black"%string
  /\ getTextColorForBg (Some "#000000"%string) = "text-white"%string
  /\ getTextColorForBg (Some "#3B82F6"%string)
     = (if 128000 <=? (16 * 3 + 11) * 299 + (16 * 8 + 2) * 587 + (16 * 15 + 6) * 114
        then "text-black"%string else "text-white"%string).
Proof.
  split; [vm_compute; reflexivity|]. split; [vm_compute; reflexivity|].
  apply (text_colour_follows_luminance "#"%char "3"%char "B"%char "8"%char "2"%char
           "F"%char "6"%char EmptyString 3 11 8 2 15 6);
    [apply Nat.ltb_lt; reflexivity|reflexivity..].
Defined.

(** X15. Without colour, or with a colour of fewer than seven characters,
    [getTextColorForBg] returns ['text-gray-900']; with seven ASCII
    characters or more it never does: it returns ['text-black'] or ['text-white'], and
    ['text-white'] when the character after the first is neither a digit of
    radix 16, nor white space, nor a sign (the number read is NaN). *)
Theorem text_colour_of_short_or_malformed :
  getTextColorForBg None = "text-gray-900"%string
  /\ (forall h, (String.length h < 7)%nat ->
        getTextColorForBg (Some h) = "text-gray-900"%string)
  /\ (forall h, asciiOnly h = true -> (7 <= String.length h)%nat ->
        getTextColorForBg (Some h) = "text-black"%string
        \/ getTextColorForBg (Some h) = "text-white"%string)
  /\ (forall c0 c1 rest, asciiOnly (String c0 (String c1 rest)) = true ->
        (5 <= String.length rest)%nat ->
        hexDigit c1 = None -> isWhiteSpace c1 = false ->
        isAscii c1 45 = false -> isAscii c1 43 = false ->
        getTextColorForBg (Some (String c0 (String c1 rest))) = "text-white"%string).
Proof.
  split; [reflexivity|]. split; [|split].
  - intros h Hlen. unfold getTextColorForBg.
    destruct (Nat.ltb_spec (String.length h) 7); [|lia]. now rewrite Bool.orb_true_r.
  - intros h _ Hlen. unfold getTextColorForBg.
    destruct (Nat.ltb_spec (String.length h) 7); [lia|].
    assert (Ht : truthy h = true) by (destruct h; [cbn in Hlen; lia|reflexivity]).
    rewrite Ht. cbn [negb orb].
    destruct (parseInt16 (substr 1 2 h)); [|now right].
    destruct (parseInt16 (substr 3 2 h)); [|now right].
    destruct (parseInt16 (substr 5 2 h)); [|now right].
    destruct (128000 <=? _); [now left|now right].
  - intros c0 c1 rest _ Hlen Hd Hw Hm Hp. unfold getTextColorForBg.
    cbn [String.length]. destruct (Nat.ltb_spec (S (S (String.length rest))) 7); [lia|].
    cbn [truthy String.eqb negb orb].
    assert (Hnan : parseInt16 (substr 1 2 (String c0 (String c1 rest))) = None).
    { destruct rest as [|c2 rest]; [cbn in Hlen; lia|].
      cbn [substr String.substring]. unfold parseInt16.
      cbn [trimStart]. rewrite Hw, Hm, Hp. cbn [orb].
      destruct (isAscii c1 48 && (isAscii c2 120 || isAscii c2 88)) eqn:E.
      - exfalso. apply andb_prop in E as [E _]. unfold isAscii in E.
        apply Nat.eqb_eq in E.
        assert (c1 = "0"%char) by (rewrite <- (ascii_nat_embedding c1), E; reflexivity).
        subst c1. discriminate Hd.
      - unfold truthy. cbn [hexDigits]. now rewrite Hd. }
    now rewrite Hnan.
Qed.

Lemma text_colour_of_short_or_malformed_witness :
  (String.length "#fff" < 7)%nat
  /\ getTextColorForBg (Some "#fff"%string) = "text-gray-900"%string
  /\ getTextColorForBg (Some "#zzzzzz"%string) = "text-white"%string.
Proof.
  split; [cbn; lia|]. split.
  - apply (proj1 (proj2 text_colour_of_short_or_malformed) "#fff"%string). cbn. lia.
  - apply (proj2 (proj2 (proj2 text_colour_of_short_or_malformed))
             "#"%char "z"%char "zzzzz"%string); [reflexivity|cbn; lia|reflexivity..].
Defined.

(** X16. The two loops of the share link are inverse to each other on
    bytes: whatever [btoa] and [atob] are, as long as [atob] decodes what
    [btoa] encoded, [base64ToUint8Array(uint8ArrayToBase64(bytes))] gives
    back the bytes (numbers below 256), and when [atob] throws so does
    [base64ToUint8Array]. *)
Theorem share_link_bytes_round_trip (btoa : string -> string)
    (atob : string -> option string) (bytes : list N) :
  (forall s, atob (btoa s) = Some s) ->
  Forall (fun b => (b < 256)%N) bytes ->
  base64ToUint8Array atob (uint8ArrayToBase64 btoa bytes) = Some bytes
  /\ String.length (binaryOfBytes bytes) = length bytes
  /\ forall base64, atob base64 = None -> base64ToUint8Array atob base64 = None.
Proof.
  intros Hinv Hbytes. split; [|split].
  - unfold base64ToUint8Array, uint8ArrayToBase64. rewrite Hinv. f_equal.
    induction Hbytes as [|b bytes Hb _ IH]; cbn; [reflexivity|].
    now rewrite N_ascii_embedding, IH.
  - clear. induction bytes as [|b bytes IH]; cbn; [reflexivity|now rewrite IH].
  - intros base64 H. unfold base64ToUint8Array. now rewrite H.
Qed.

Lemma share_link_bytes_round_trip_witness :
  Forall (fun b => (b < 256)%N) [72; 105; 0; 255]%N
  /\ base64ToUint8Array (fun e => Some e) (uint8ArrayToBase64 (fun s => s) [72; 105; 0; 255]%N)
     = Some [72; 105; 0; 255]%N.
Proof.
  assert (Hb : Forall (fun b => (b < 256)%N) [72; 105; 0; 255]%N)
    by (repeat constructor).
  split; [exact Hb|].
  apply (share_link_bytes_round_trip (fun s => s) (fun e => Some e) [72; 105; 0; 255]%N);
    [reflexivity|exact Hb].
Defined.
(* ===================================================================== *)
(** ** The weekday of a date and the weeks of the export *)
(* ===================================================================== *)

Module ExportFacts.

(** A year has 365 days, a leap year 366. *)
Lemma dayFromYear_succ y :
  dayFromYear (y + 1) = dayFromYear y + (if isLeapYear y then 366 else 365).
Proof.
  unfold dayFromYear, isLeapYear.
  replace (y + 1 - 1970) with (y - 1969) by lia.
  replace (y + 1 - 1969) with (y - 1969 + 1) by lia.
  replace (y + 1 - 1901) with (y - 1901 + 1) by lia.
  replace (y + 1 - 1601) with (y - 1601 + 1) by lia.
  destruct (Z.eqb_spec (y mod 4) 0), (Z.eqb_spec (y mod 100) 0),
    (Z.eqb_spec (y mod 400) 0); cbn [andb orb negb];
    Z.div_mod_to_equations; lia.
Qed.

Lemma daysBeforeMonth_succ y m :
  0 <= m < 11 -> daysBeforeMonth y (m + 1) = daysBeforeMonth y m + daysInMonth y m.
Proof.
  intros Hm.
  assert (Hcases : m = 0 \/ m = 1 \/ m = 2 \/ m = 3 \/ m = 4 \/ m = 5 \/ m = 6
                   \/ m = 7 \/ m = 8 \/ m = 9 \/ m = 10) by lia.
  unfold daysBeforeMonth, daysInMonth.
  destruct (isLeapYear y);
    repeat (destruct Hcases as [->|Hcases]); try subst m;
    vm_compute; reflexivity.
Qed.

(** [setDate(getDate() + 1)] moves to the next day number, also across the
    end of a month and of a year; so [getDay] moves to the next weekday. *)
Lemma dayNumber_nextDay d : validDate d -> dayNumber (nextDay d) = dayNumber d + 1.
Proof.
  destruct d as [y m k]. unfold validDate, nextDay, dayNumber.
  cbn [getFullYear getMonth getDate]. intros [Hm Hk].
  destruct (Z.ltb_spec k (daysInMonth y m)); cbn [getFullYear getMonth getDate]; [lia|].
  destruct (Z.ltb_spec m 11); cbn [getFullYear getMonth getDate].
  - rewrite daysBeforeMonth_succ by lia. lia.
  - assert (m = 11) as -> by lia. rewrite dayFromYear_succ.
    change (daysInMonth y 11) with 31 in *.
    unfold daysBeforeMonth. destruct (isLeapYear y); lia.
Qed.

Lemma getDay_nextDay d : validDate d -> getDay (nextDay d) = (getDay d + 1) mod 7.
Proof.
  intros Hd. unfold getDay. rewrite dayNumber_nextDay by assumption.
  rewrite Z.add_mod_idemp_l by lia. f_equal. lia.
Qed.

Lemma getDay_bounds d : 0 <= getDay d < 7.
Proof. unfold getDay. apply Z.mod_pos_bound. lia. Qed.

(** The weekday of day [k] of a month, from the weekday of its first. *)
Lemma getDay_day y m k :
  0 <= m <= 11 -> 1 <= k <= daysInMonth (fullYear y) m ->
  getDay (newDate y m k) = (getDay (newDate y m 1) + (k - 1)) mod 7.
Proof.
  intros Hm Hk. rewrite (newDate_day y m k), (newDate_day y m 1) by lia.
  unfold getDay, dayNumber. cbn [getFullYear getMonth getDate].
  rewrite Z.add_mod_idemp_l by lia. f_equal. lia.
Qed.

(** The weeks. *)
Lemma length_weekAt cells r : length (weekAt cells r) = 7%nat.
Proof.
  unfold weekAt. rewrite length_app, length_replicate, length_take. lia.
Qed.

Lemma weekAt_succ cells r : weekAt cells (S r) = weekAt (drop 7 cells) r.
Proof.
  unfold weekAt. rewrite drop_drop.
  replace (7 * S r)%nat with (7 + 7 * r)%nat by lia. reflexivity.
Qed.

Lemma concat_weeks (n : nat) : forall cells,
  (length cells <= 7 * n)%nat ->
  concat (weekAt cells <$> seq 0 n) = cells ++ replicate (7 * n - length cells) EmptyString.
Proof.
  induction n as [|n IH]; intros cells Hlen.
  - destruct cells; [reflexivity|cbn in Hlen; lia].
  - cbn [seq fmap list_fmap concat]. rewrite <- fmap_S_seq, <- list_fmap_compose.
    rewrite (list_fmap_ext (weekAt cells ∘ S) (weekAt (drop 7 cells)) (seq 0 n))
      by (intros; apply weekAt_succ).
    rewrite IH by (rewrite length_drop; lia).
    unfold weekAt at 1. rewrite Nat.mul_0_r, drop_0.
    destruct (Nat.le_gt_cases 7 (length cells)) as [Hge|Hlt].
    + rewrite length_take_le by assumption. rewrite Nat.sub_diag. cbn [replicate].
      rewrite app_nil_r, app_assoc, take_drop, length_drop. f_equal. f_equal. lia.
    + rewrite take_ge, drop_ge by lia. cbn [length app].
      rewrite <- app_assoc, <- replicate_add. f_equal. f_equal. lia.
Qed.

Lemma weeks_cover (len : nat) :
  (len <= 7 * ((len + 6) / 7) < len + 7)%nat.
Proof.
  pose proof (Nat.div_mod_eq (len + 6) 7).
  pose proof (Nat.mod_upper_bound (len + 6) 7 ltac:(lia)). lia.
Qed.

Lemma weeksOf_lookup cells (r c : nat) x :
  (c < 7)%nat -> cells !! (7 * r + c)%nat = Some x ->
  exists week, weeksOf cells !! r = Some week /\ week !! c = Some x.
Proof.
  intros Hc Hx. exists (weekAt cells r).
  pose proof (lookup_lt_Some _ _ _ Hx) as Hlt.
  pose proof (weeks_cover (length cells)).
  split.
  - unfold weeksOf. rewrite list_lookup_fmap, lookup_seq_lt by lia. reflexivity.
  - unfold weekAt. apply lookup_app_l_Some.
    rewrite lookup_take_lt by assumption. rewrite lookup_drop. exact Hx.
Qed.

(** The cells of a month. *)
Lemma calendarCells_lookup ts shifts y m k :
  0 <= m <= 11 -> 1 <= k <= daysInMonth (fullYear y) m ->
  calendarCells ts shifts y m !! Z.to_nat (getDay (newDate y m 1) + (k - 1))
  = Some (exportCell ts shifts y m k).
Proof.
  intros Hm Hk. unfold calendarCells.
  pose proof (getDay_bounds (newDate y m 1)).
  rewrite newDate_last by assumption. cbn [getDate].
  rewrite lookup_app_r by (rewrite length_replicate; lia).
  rewrite length_replicate, list_lookup_fmap.
  rewrite lookup_seqZ_lt by lia. cbn. f_equal. f_equal. lia.
Qed.

Lemma gridCells_lookup y m k :
  0 <= m <= 11 -> 1 <= k <= daysInMonth (fullYear y) m ->
  gridCells y m !! Z.to_nat (getDay (newDate y m 1) + (k - 1)) = Some (Some k).
Proof.
  intros Hm Hk. unfold gridCells.
  pose proof (getDay_bounds (newDate y m 1)).
  rewrite newDate_last by assumption. cbn [getDate].
  rewrite lookup_app_r by (rewrite length_replicate; lia).
  rewrite length_replicate, list_lookup_fmap.
  rewrite lookup_seqZ_lt by lia. cbn. f_equal. f_equal. lia.
Qed.

(** The map of names. *)
Lemma setNames_lookup ts : forall (m : gmap string string) key n,
  setNames ts m !! key = Some n ->
  (exists t, t ∈ ts /\ id t = key /\ name t = n) \/ m !! key = Some n.
Proof.
  induction ts as [|t ts IH]; intros m key n Hn; cbn in Hn; [now right|].
  destruct (IH _ _ _ Hn) as [(t' & Hin & Hid & Hname)|Hm].
  - left. exists t'. rewrite elem_of_cons. auto.
  - destruct (decide (id t = key)) as [Heq|Hne].
    + rewrite <- Heq, lookup_insert_eq in Hm. injection Hm as <-.
      left. exists t. rewrite elem_of_cons. auto.
    + rewrite lookup_insert_ne in Hm by assumption. now right.
Qed.

Lemma setNames_is_Some ts : forall (m : gmap string string) key,
  (is_Some (m !! key) \/ exists t, t ∈ ts /\ id t = key) ->
  is_Some (setNames ts m !! key).
Proof.
  induction ts as [|t ts IH]; intros m key H; cbn.
  - destruct H as [H|(t & Hin & _)]; [exact H|]. now apply elem_of_nil in Hin.
  - apply IH. destruct (decide (id t = key)) as [Heq|Hne].
    + left. rewrite <- Heq, lookup_insert_eq. eauto.
    + rewrite lookup_insert_ne by assumption.
      destruct H as [H|(t' & Hin & Hid)]; [now left|].
      apply elem_of_cons in Hin as [->|Hin]; [contradiction|]. right. eauto.
Qed.

Lemma teacherNameMap_lookup ts t :
  t ∈ ts -> exists t', t' ∈ ts /\ id t' = id t /\ teacherNameMap ts !! id t = Some (name t').
Proof.
  intros Hin. unfold teacherNameMap.
  destruct (setNames_is_Some ts ∅ (id t)) as [n Hn]; [right; eauto|].
  destruct (setNames_lookup _ _ _ _ Hn) as [(t' & Hin' & Hid & Hname)|Hempty].
  - exists t'. subst n. auto.
  - rewrite lookup_empty in Hempty. discriminate.
Qed.

(** Quoting. *)
Lemma escapeQuotes_inj : forall s t, escapeQuotes s = escapeQuotes t -> s = t.
Proof.
  induction s as [|a s IH]; intros [|b t] Heq; cbn in Heq.
  - reflexivity.
  - destruct (Ascii.eqb b dquote); discriminate.
  - destruct (Ascii.eqb a dquote); discriminate.
  - destruct (Ascii.eqb_spec a dquote) as [->|Ha], (Ascii.eqb_spec b dquote) as [->|Hb].
    + injection Heq as Heq. f_equal. now apply IH.
    + injection Heq as <- Heq. contradiction.
    + injection Heq as -> Heq. contradiction.
    + injection Heq as -> Heq. f_equal. now apply IH.
Qed.

(** The shift of a day of the visible month, as the export and the grid
    find it. *)
Lemma scheduleEffect_day (zone : Zone) ts sy sm sd (overrides : gmap string string) cy cm k :
  0 <= cm <= 11 -> 1 <= k <= daysInMonth (fullYear cy) cm ->
  exists shifts s,
    scheduleEffect zone ts sy sm sd overrides cy cm = Returned shifts
    /\ shifts !! Z.to_nat (k - 1) = Some s
    /\ findShift shifts (formatDate (newDate cy cm k)) = Some s
    /\ (teacherId s = None \/ exists t, t ∈ ts /\ teacherId s = Some (id t)).
Proof.
  intros Hm Hk.
  destruct (scheduleEffect_entries zone ts sy sm sd overrides cy cm)
    as (monthDates & shifts & Hget & Heff & Hall).
  rewrite getDatesInMonth_month in Hget by assumption. injection Hget as <-.
  assert (Hi : (Z.to_nat (k - 1) < Z.to_nat (daysInMonth (fullYear cy) cm))%nat) by lia.
  pose proof (monthDays_lookup (fullYear cy) cm _ Hi) as Hd.
  replace (Z.of_nat (Z.to_nat (k - 1)) + 1) with k in Hd by lia.
  destruct (Forall2_lookup_l _ _ _ _ _ Hall Hd) as (s & Hs & Hdate & Hteacher).
  rewrite newDate_day by assumption.
  exists shifts, s. split; [exact Heff|]. split; [exact Hs|]. split; [|exact Hteacher].
  rewrite <- Hdate. apply (findShift_lookup shifts _ s Hs).
  intros j s' Hj Hs' Heq.
  destruct (Forall2_lookup_r _ _ _ _ _ Hall Hs') as (d' & Hd' & Hdate' & _).
  rewrite monthDays_lookup in Hd' by lia. injection Hd' as <-.
  rewrite Hdate, Hdate' in Heq.
  pose proof (daysInMonth_bounds (fullYear cy) cm).
  apply formatDate_inj in Heq; [|unfold validDate; cbn; lia..].
  injection Heq as Heq. lia.
Qed.

End ExportFacts.

Import ExportFacts.

(* ===================================================================== *)
(** ** Further properties: the export and the weekday columns *)
(* ===================================================================== *)

(** X17. The export cuts the cells into weeks of exactly seven cells: put
    end to end, the weeks are the cells followed by fewer than seven empty
    cells, whatever the cells are. *)
Theorem export_weeks_are_whole (cells : list string) :
  Forall (fun week => length week = 7%nat) (weeksOf cells)
  /\ exists pad : nat,
       (pad < 7)%nat /\ concat (weeksOf cells) = cells ++ replicate pad EmptyString.
Proof.
  split.
  - unfold weeksOf. apply Forall_fmap, Forall_forall. intros r _. apply length_weekAt.
  - exists (7 * ((length cells + 6) / 7) - length cells)%nat.
    pose proof (weeks_cover (length cells)). split; [lia|].
    unfold weeksOf. apply concat_weeks. lia.
Qed.

(** X18. In the export, the cell of day [k] of the month stands in the week
    row [(f + k - 1) / 7], where [f] is the weekday of the first of the
    month, and in the column of the weekday of day [k] itself, which is one
    of the seven columns named by [dayNames]. *)
Theorem export_day_under_its_weekday (ts : list Teacher) (shifts : list Shift)
    (year month k : Z) :
  0 <= month <= 11 -> 1 <= k <= daysInMonth (fullYear year) month ->
  is_Some (dayNames !! Z.to_nat (getDay (newDate year month k)))
  /\ exists week,
       weeksOf (calendarCells ts shifts year month)
         !! Z.to_nat ((getDay (newDate year month 1) + (k - 1)) / 7) = Some week
       /\ week !! Z.to_nat (getDay (newDate year month k))
          = Some (exportCell ts shifts year month k).
Proof.
  intros Hm Hk.
  pose proof (getDay_bounds (newDate year month k)) as Hcol.
  pose proof (getDay_bounds (newDate year month 1)) as Hfirst.
  split.
  - apply lookup_lt_is_Some. change (length dayNames) with 7%nat. lia.
  - rewrite (getDay_day year month k) by assumption.
    rewrite (getDay_day year month k) in Hcol by assumption.
    apply weeksOf_lookup; [lia|].
    rewrite <- (calendarCells_lookup ts shifts year month k) by assumption.
    f_equal.
    pose proof (Z.div_mod (getDay (newDate year month 1) + (k - 1)) 7 ltac:(lia)).
    assert (0 <= (getDay (newDate year month 1) + (k - 1)) / 7)
      by (apply Z.div_pos; lia).
    lia.
Qed.

Lemma export_day_under_its_weekday_witness :
  0 <= 1 <= 11 /\ 1 <= 29 <= daysInMonth (fullYear 2024) 1
  /\ is_Some (dayNames !! Z.to_nat (getDay (newDate 2024 1 29)))
  /\ exists week,
       weeksOf (calendarCells [tA; tB] [] 2024 1)
         !! Z.to_nat ((getDay (newDate 2024 1 1) + (29 - 1)) / 7) = Some week
       /\ week !! Z.to_nat (getDay (newDate 2024 1 29))
          = Some (exportCell [tA; tB] [] 2024 1 29).
Proof.
  assert (Hk : 1 <= 29 <= daysInMonth (fullYear 2024) 1)
    by (change (daysInMonth (fullYear 2024) 1) with 29; lia).
  split; [lia|]. split; [exact Hk|].
  apply (export_day_under_its_weekday [tA; tB] [] 2024 1 29); [lia|exact Hk].
Defined.

(** X19. In the calendar grid, the empty cells come first, one for each
    weekday before the first of the month; the cell of day [k] follows at
    a position whose remainder by seven, its column in the seven-column
    grid, is the weekday of day [k]. *)
Theorem grid_day_under_its_weekday (year month k : Z) :
  0 <= month <= 11 -> 1 <= k <= daysInMonth (fullYear year) month ->
  exists position : nat,
    gridCells year month !! position = Some (Some k)
    /\ Z.of_nat position mod 7 = getDay (newDate year month k)
    /\ (forall i : nat, (i < Z.to_nat (getDay (newDate year month 1)))%nat ->
          gridCells year month !! i = Some None)
    /\ length (gridCells year month)
       = Z.to_nat (getDay (newDate year month 1) + daysInMonth (fullYear year) month).
Proof.
  intros Hm Hk.
  pose proof (getDay_bounds (newDate year month 1)) as Hfirst.
  exists (Z.to_nat (getDay (newDate year month 1) + (k - 1))).
  split; [now apply gridCells_lookup|].
  split; [rewrite Z2Nat.id by lia; symmetry; now apply getDay_day|].
  unfold gridCells. rewrite newDate_last by assumption. cbn [getDate]. split.
  - intros i Hi. rewrite lookup_app_l by (rewrite length_replicate; lia).
    now apply lookup_replicate_2.
  - rewrite length_app, length_replicate, length_fmap, length_seqZ. lia.
Qed.

Lemma grid_day_under_its_weekday_witness :
  0 <= 0 <= 11 /\ 1 <= 31 <= daysInMonth (fullYear 2024) 0
  /\ exists position : nat,
       gridCells 2024 0 !! position = Some (Some 31)
       /\ Z.of_nat position mod 7 = getDay (newDate 2024 0 31)
       /\ (forall i : nat, (i < Z.to_nat (getDay (newDate 2024 0 1)))%nat ->
             gridCells 2024 0 !! i = Some None)
       /\ length (gridCells 2024 0)
          = Z.to_nat (getDay (newDate 2024 0 1) + daysInMonth (fullYear 2024) 0).
Proof.
  assert (Hk : 1 <= 31 <= daysInMonth (fullYear 2024) 0)
    by (change (daysInMonth (fullYear 2024) 0) with 31; lia).
  split; [lia|]. split; [exact Hk|].
  apply (grid_day_under_its_weekday 2024 0 31); [lia|exact Hk].
Defined.

(** X20. When the shifts are those of the schedule effect for the exported
    month and no teacher of the roster has an empty name, the export cell
    of day [k] reads [k - Trống] if the day has no teacher (or a teacher
    whose id is the empty string), and otherwise [k - name] with the name
    of a roster teacher whose id is the one assigned to the day; the
    fallback name for an unknown teacher is never written. *)
Theorem export_cell_names_the_teacher (zone : Zone) (ts : list Teacher) (sy sm sd : Z)
    (overrides : gmap string string) (cy cm k : Z) :
  0 <= cm <= 11 -> 1 <= k <= daysInMonth (fullYear cy) cm ->
  (forall t, t ∈ ts -> name t ≠ ""%string) ->
  exists shifts s,
    scheduleEffect zone ts sy sm sd overrides cy cm = Returned shifts
    /\ shifts !! Z.to_nat (k - 1) = Some s
    /\ ((teacherId s = None \/ teacherId s = Some ""%string)
        /\ exportCell ts shifts cy cm k = quoted (pretty k +:+ " - " +:+ "Trống")
        \/ exists t, t ∈ ts /\ teacherId s = Some (id t) /\ id t ≠ ""%string
             /\ exportCell ts shifts cy cm k = quoted (pretty k +:+ " - " +:+ name t)).
Proof.
  intros Hm Hk Hnames.
  destruct (scheduleEffect_day zone ts sy sm sd overrides cy cm k Hm Hk)
    as (shifts & s & Heff & Hs & Hfind & Hteacher).
  exists shifts, s. split; [exact Heff|]. split; [exact Hs|].
  unfold exportCell. rewrite Hfind. unfold exportName.
  destruct Hteacher as [Hnone|(t & Hin & Hsome)].
  - left. rewrite Hnone. auto.
  - rewrite Hsome. unfold truthy.
    destruct (String.eqb_spec (id t) "") as [Hempty|Hid]; cbn [negb].
    + left. rewrite Hempty. auto.
    + right. destruct (teacherNameMap_lookup ts t Hin) as (t' & Hin' & Hid' & Hlookup).
      exists t'. rewrite Hlookup, Hid'.
      destruct (String.eqb_spec (name t') "") as [Hname|_]; cbn [negb].
      * now apply Hnames in Hname.
      * auto.
Qed.

Lemma export_cell_names_the_teacher_witness :
  0 <= 0 <= 11 /\ 1 <= 31 <= daysInMonth (fullYear 2024) 0
  /\ (forall t, t ∈ [tA; tB; tC] -> name t ≠ ""%string)
  /\ exists shifts s,
       scheduleEffect everyMidnight [tA; tB; tC] 2024 1 1 twoPicks 2024 0 = Returned shifts
       /\ shifts !! Z.to_nat (31 - 1) = Some s
       /\ ((teacherId s = None \/ teacherId s = Some ""%string)
           /\ exportCell [tA; tB; tC] shifts 2024 0 31
              = quoted (pretty 31 +:+ " - " +:+ "Trống")
           \/ exists t, t ∈ [tA; tB; tC] /\ teacherId s = Some (id t) /\ id t ≠ ""%string
                /\ exportCell [tA; tB; tC] shifts 2024 0 31
                   = quoted (pretty 31 +:+ " - " +:+ name t)).
Proof.
  assert (Hk : 1 <= 31 <= daysInMonth (fullYear 2024) 0)
    by (change (daysInMonth (fullYear 2024) 0) with 31; lia).
  assert (Hnames : forall t, t ∈ [tA; tB; tC] -> name t ≠ ""%string).
  { intros t Hin. repeat (apply elem_of_cons in Hin as [->|Hin]); try discriminate.
    now apply elem_of_nil in Hin. }
  split; [lia|]. split; [exact Hk|]. split; [exact Hnames|].
  apply (export_cell_names_the_teacher everyMidnight [tA; tB; tC] 2024 1 1 twoPicks 2024 0 31);
    [lia|exact Hk|exact Hnames].
Defined.

(** X21. Quoting a field of the export loses nothing: two different cell
    contents give two different quoted fields. *)
Theorem quoted_fields_are_distinct (s t : string) :
  s ≠ t -> quoted s ≠ quoted t.
Proof.
  intros Hne Heq. apply Hne. unfold quoted in Heq. injection Heq as Heq.
  apply escapeQuotes_inj.
  now destruct (append_inj_suffix (escapeQuotes s) (escapeQuotes t)
                  (String dquote EmptyString) (String dquote EmptyString) eq_refl Heq).
Qed.

Lemma quoted_fields_are_distinct_witness :
  String dquote EmptyString ≠ String dquote (String dquote EmptyString)
  /\ quoted (String dquote EmptyString) ≠ quoted (String dquote (String dquote EmptyString)).
Proof.
  assert (Hne : String dquote EmptyString ≠ String dquote (String dquote EmptyString))
    by discriminate.
  split; [exact Hne|].
  apply (quoted_fields_are_distinct _ _ Hne).
Defined.
